(** * user-management-service: session lifecycle, authentication gate,
      field encryption and security-question verification

    A shallow embedding of

      - [src/utils/sessionManager.js]   (token codec and session store),
      - [src/middleware/auth.js]        (the authentication gate),
      - [utils/encryption.js]           (field encryption, AES-256-GCM),
      - [src/controllers/biometricFallbackController.js]
                                        (security-question protocol),

    followed by the properties the specification states about them.

    Conventions.
      - A JavaScript string is the list of its UTF-16 code units.
      - The relational store is a record of tables, each a list of rows in
        the order the store returns them; every [await query(...)] of the
        source is one operation of the state-and-exception monad [M], and
        leaves an entry in a query log.
      - A thrown JavaScript exception is the left summand of a result; the
        store keeps whatever was written before the throw.
      - Time is read through a [Clock], the successive readings of the
        JavaScript clock and of [NOW()] during one operation, counted in
        microseconds; nothing relates one reading to the next.
      - Randomness ([crypto.randomBytes], [crypto.randomUUID]) is an
        explicit argument.
      - The libraries the service calls (jsonwebtoken, node-forge, the
        AES-GCM primitive of node:crypto) are interfaces, given as type
        classes; nothing is assumed about them except where a statement
        names a law. *)

From Stdlib Require Import ZArith List String Ascii Lia Bool.
From stdpp Require Import base option list gmap strings.
Import ListNotations.
Local Open Scope Z_scope.

(* ================================================================== *)
(** * Part I.  The embedding                                            *)
(* ================================================================== *)

(** ** JavaScript strings, values and exceptions *)

Definition JsString : Type := list Z.

(** An ASCII literal as a JavaScript string. *)
Definition js (s : string) : JsString :=
  map (fun a => Z.of_N (N_of_ascii a)) (list_ascii_of_string s).

Definition bytes : Type := list Byte.byte.

#[global] Instance byte_eq_dec : EqDecision Byte.byte := Byte.byte_eq_dec.

Inductive JsValue : Type :=
| JUndefined
| JNull
| JBool (b : bool)
| JNumber (n : Z)
| JString (s : JsString)
| JObject (ref : nat).
(* [JObject] stands for a plain object or an array, known by reference. *)

#[global] Instance JsValue_eq_dec : EqDecision JsValue.
Proof. solve_decision. Defined.

(** [!!v] of JavaScript (numbers are integers here, so there is no NaN). *)
Definition truthy (v : JsValue) : bool :=
  match v with
  | JUndefined | JNull => false
  | JBool b => b
  | JNumber n => negb (n =? 0)
  | JString s => match s with [] => false | _ :: _ => true end
  | JObject _ => true
  end.

(** A value that is a string or [undefined]. *)
Definition truthy_str (o : option JsString) : bool :=
  match o with
  | Some (_ :: _) => true
  | _ => false
  end.

(** [a || b] on optional strings. *)
Definition or_str (a b : option JsString) : option JsString :=
  if truthy_str a then a else b.

(** [a || null]. *)
Definition or_null (a : option JsString) : option JsString :=
  or_str a None.

(** [a || 'literal']. *)
Definition or_default (a : option JsString) (d : JsString) : JsString :=
  match a with
  | Some (c :: s) => c :: s
  | _ => d
  end.

(** Exceptions.  [Error msg] is [new Error(msg)] thrown by the service's
    own code; [LibError name msg] is an exception raised inside a library
    ([name] is its [.name], e.g. [TokenExpiredError]).  The two are kept
    apart because no library the service calls raises one of the service's
    own messages. *)
Inductive JsError : Type :=
| Error (message : JsString)
| LibError (name message : JsString).

#[global] Instance JsError_eq_dec : EqDecision JsError.
Proof. solve_decision. Defined.

Definition err_name (e : JsError) : JsString :=
  match e with
  | Error _ => js "Error"
  | LibError n _ => n
  end.

Definition err_message (e : JsError) : JsString :=
  match e with
  | Error m => m
  | LibError _ m => m
  end.

Definition Result (A : Type) : Type := JsError + A.

(** What a library call yields: a value, or the name and the message of
    the exception it raises. *)
Definition LibResult (A : Type) : Type := (JsString * JsString) + A.

Definition lib {A} (r : LibResult A) : Result A :=
  match r with
  | inl (name, message) => inl (LibError name message)
  | inr a => inr a
  end.

(** ** The relational store *)

Module vottery_sessions.
Record row : Type := mk {
  id : Z;
  user_id : Z;
  session_token : JsString;
  refresh_token : JsString;
  jwt_token_id : JsString;
  device_id : option JsString;
  ip_address : option JsString;
  user_agent : option JsString;
  user_type : option JsString;
  admin_role : option JsString;
  is_active : bool;
  created_at : Z;
  expires_at : Z;
  refresh_expires_at : Z;
  last_activity : Z
}.
End vottery_sessions.

Module vottery_user_management.
Record row : Type := mk {
  user_id : Z;
  user_type : option JsString;
  admin_role : option JsString
}.
End vottery_user_management.

Module vottery_biometric_keys.
Record row : Type := mk {
  user_id : Z;
  public_key : JsString;
  encrypted_private_key : JsString;
  threshold_info : JsString
}.
End vottery_biometric_keys.

Module vottery_security_questions.
Record row : Type := mk {
  id : Z;
  user_id : Z;
  question : JsString;
  encrypted_answer : JsString;
  signature : JsString
}.
End vottery_security_questions.

Inductive Table : Type :=
| T_sessions | T_user_management | T_biometric_keys | T_security_questions.

Inductive Access : Type := Select | Insert | Update.

Record World : Type := mkWorld {
  sessions : list vottery_sessions.row;
  users : list vottery_user_management.row;
  biometric_keys : list vottery_biometric_keys.row;
  security_questions : list vottery_security_questions.row;
  next_session_id : Z;
  next_question_id : Z;
  qlog : list (Access * Table);
  res_headers : list (string * JsString)
}.

(** ** The monad of the asynchronous handlers *)

Definition M (A : Type) : Type := World -> Result A * World.

Definition ret {A} (a : A) : M A := fun w => (inr a, w).

Definition throw {A} (e : JsError) : M A := fun w => (inl e, w).

Definition bind {A B} (m : M A) (k : A -> M B) : M B :=
  fun w =>
    match m w with
    | (inr a, w') => k a w'
    | (inl e, w') => (inl e, w')
    end.

(** [try { m } catch (e) { h e }]. *)
Definition try_catch {A} (m : M A) (h : JsError -> M A) : M A :=
  fun w =>
    match m w with
    | (inl e, w') => h e w'
    | (inr a, w') => (inr a, w')
    end.

(** A synchronous call that may throw. *)
Definition lift {A} (r : Result A) : M A := fun w => (r, w).

Notation "'let*' x ':=' c1 'in' c2" := (bind c1 (fun x => c2))
  (at level 10, x pattern, c1 at level 100, c2 at level 200).

Notation "c1 ';;;' c2" := (bind c1 (fun _ => c2))
  (at level 100, c2 at level 200, right associativity).

Definition logq (a : Access) (t : Table) : M unit :=
  fun w =>
    (inr tt,
     mkWorld (sessions w) (users w) (biometric_keys w) (security_questions w)
             (next_session_id w) (next_question_id w)
             (qlog w ++ [(a, t)]) (res_headers w)).

Definition set_sessions (f : list vottery_sessions.row -> list vottery_sessions.row)
    (w : World) : World :=
  mkWorld (f (sessions w)) (users w) (biometric_keys w) (security_questions w)
          (next_session_id w) (next_question_id w) (qlog w) (res_headers w).

(** [res.setHeader(name, value)]. *)
Definition setHeader (name : string) (value : JsString) : M unit :=
  fun w =>
    (inr tt,
     mkWorld (sessions w) (users w) (biometric_keys w) (security_questions w)
             (next_session_id w) (next_question_id w) (qlog w)
             (res_headers w ++ [(name, value)])).

(** ** Strings: hexadecimal, [split], [trim] *)

Definition byte_of_Z (z : Z) : Byte.byte :=
  match Byte.of_N (Z.to_N (z mod 256)) with
  | Some b => b
  | None => Byte.x00
  end.

Definition Z_of_byte (b : Byte.byte) : Z := Z.of_N (Byte.to_N b).

(** One lowercase hexadecimal digit, as a code unit. *)
Definition hex_digit (d : Z) : Z := if d <? 10 then 48 + d else 87 + d.

(** [buf.toString('hex')]. *)
Definition hex_encode (b : bytes) : JsString :=
  flat_map (fun x => [hex_digit (Z_of_byte x / 16); hex_digit (Z_of_byte x mod 16)]) b.

Definition hex_value (c : Z) : option Z :=
  if (48 <=? c) && (c <=? 57) then Some (c - 48)
  else if (97 <=? c) && (c <=? 102) then Some (c - 87)
  else if (65 <=? c) && (c <=? 70) then Some (c - 55)
  else None.

(** [Buffer.from(s, 'hex')]: pairs of digits are decoded until the first
    pair that is not hexadecimal; a trailing single digit is dropped. *)
Fixpoint hex_decode (s : JsString) : bytes :=
  match s with
  | c1 :: c2 :: rest =>
      match hex_value c1, hex_value c2 with
      | Some h, Some l => byte_of_Z (16 * h + l) :: hex_decode rest
      | _, _ => []
      end
  | _ => []
  end.

(** [s.split(sep)] for a separator of one code unit. *)
Fixpoint split_on (sep : Z) (s : JsString) : list JsString :=
  match s with
  | [] => [[]]
  | c :: rest =>
      if c =? sep then [] :: split_on sep rest
      else match split_on sep rest with
           | [] => [[c]]
           | p :: ps => (c :: p) :: ps
           end
  end.

(** [s.includes(c)] for one code unit. *)
Definition includes (c : Z) (s : JsString) : bool := existsb (Z.eqb c) s.

(** White space and line terminators of ECMAScript, which [trim] strips. *)
Definition is_js_space (c : Z) : bool :=
  ((9 <=? c) && (c <=? 13)) || (c =? 32) || (c =? 160) || (c =? 5760)
  || ((8192 <=? c) && (c <=? 8202)) || (c =? 8232) || (c =? 8233)
  || (c =? 8239) || (c =? 8287) || (c =? 12288) || (c =? 65279).

Fixpoint trim_start (s : JsString) : JsString :=
  match s with
  | c :: rest => if is_js_space c then trim_start rest else s
  | [] => []
  end.

Definition trim (s : JsString) : JsString :=
  rev (trim_start (rev (trim_start s))).

(** ** src/utils/sessionManager.js *)

(** The claims object carried by an access token. *)
Record Payload : Type := mkPayload {
  userId : JsValue;
  userType : JsValue;
  adminRole : JsValue
}.

#[global] Instance Payload_eq_dec : EqDecision Payload.
Proof. solve_decision. Defined.

(** The jsonwebtoken library: [jwt.sign(payload, secret, {expiresIn})] and
    [jwt.verify(token, secret)], each at the instant it is called. *)
Class JwtLib : Type := {
  jwt_sign : Payload -> JsString -> JsString -> Z -> LibResult JsString;
  jwt_verify : JsString -> JsString -> Z -> LibResult Payload
}.

(** [process.env]: a variable is unset or holds a string. *)
Record ProcessEnv : Type := mkEnv {
  env_JWT_SECRET : option JsString;
  env_ACCESS_TOKEN_EXPIRY : option JsString;
  env_REFRESH_TOKEN_EXPIRY : option JsString;
  env_ENCRYPTION_KEY : option JsString
}.

(** What one operation draws from the random source. *)
Record Entropy : Type := mkEntropy {
  randomBytes : bytes;
  randomUUID : JsString
}.

(** The clock during one operation: the instant of its first reading (the
    current time inside jsonwebtoken, or [NOW()] in a statement), of its
    second, and so on.  Every [NOW()] of one statement is one reading. *)
Definition Clock : Type := nat -> Z.

(** The clock after [k] readings. *)
Definition later (k : nat) (clock : Clock) : Clock := fun n => clock (k + n)%nat.

Definition is_digit (c : Z) : bool := (48 <=? c) && (c <=? 57).

(** [parseInt(digits, 10)] on a string of decimal digits, as an exact
    integer.  JavaScript numbers are exact up to 2^53 - 1; for a longer
    digit string [parseInt] returns the nearest double, which this
    definition does not compute.  What is proved of a parsed value either
    does not depend on it or assumes it within the exact range. *)
Definition parseInt10 (digits : JsString) : Z :=
  fold_left (fun acc c => 10 * acc + (c - 48)) digits 0.

(** Microseconds in [n * INTERVAL '1 second'].  Instants are counted in
    microseconds, as PostgreSQL counts them; the store holds this product
    exactly up to 2^53 microseconds. *)
Definition seconds (n : Z) : Z := n * 1000000.

Module Tokens.
Record t : Type := mk {
  accessToken : JsString;
  refreshToken : JsString
}.
End Tokens.

Definition active_refresh_match (rt dev : option JsString) (now : Z)
    (s : vottery_sessions.row) : Prop :=
  rt = Some (vottery_sessions.refresh_token s)
  /\ (exists d, dev = Some d /\ vottery_sessions.device_id s = Some d)
  /\ vottery_sessions.is_active s = true
  /\ now < vottery_sessions.refresh_expires_at s.

#[global] Instance active_refresh_match_dec rt dev now s :
  Decision (active_refresh_match rt dev now s).
Proof.
  unfold active_refresh_match.
  destruct dev as [d|].
  - destruct (decide (rt = Some (vottery_sessions.refresh_token s)
                      /\ vottery_sessions.device_id s = Some d
                      /\ vottery_sessions.is_active s = true
                      /\ now < vottery_sessions.refresh_expires_at s))
      as [H|H].
    + left. destruct H as (H1 & H2 & H3 & H4). eauto 10.
    + right. intros (H1 & (d' & Hd & H2) & H3 & H4). apply H.
      injection Hd as ->. auto.
  - right. intros (_ & (d & Hd & _) & _). discriminate.
Defined.

Definition active_token_match (tok : JsString) (now : Z)
    (s : vottery_sessions.row) : Prop :=
  vottery_sessions.session_token s = tok
  /\ vottery_sessions.is_active s = true
  /\ now < vottery_sessions.expires_at s.

#[global] Instance active_token_match_dec tok now s :
  Decision (active_token_match tok now s).
Proof. unfold active_token_match. apply _. Defined.

(** The [SET] clause of the rotation. *)
Definition rotated (newAccess newRefresh uuid : JsString) (a r now : Z)
    (s : vottery_sessions.row) : vottery_sessions.row :=
  vottery_sessions.mk
    (vottery_sessions.id s) (vottery_sessions.user_id s)
    newAccess newRefresh uuid
    (vottery_sessions.device_id s) (vottery_sessions.ip_address s)
    (vottery_sessions.user_agent s) (vottery_sessions.user_type s)
    (vottery_sessions.admin_role s) (vottery_sessions.is_active s)
    (vottery_sessions.created_at s)
    (now + seconds a) (now + seconds r) now.

Definition deactivated (s : vottery_sessions.row) : vottery_sessions.row :=
  vottery_sessions.mk
    (vottery_sessions.id s) (vottery_sessions.user_id s)
    (vottery_sessions.session_token s) (vottery_sessions.refresh_token s)
    (vottery_sessions.jwt_token_id s)
    (vottery_sessions.device_id s) (vottery_sessions.ip_address s)
    (vottery_sessions.user_agent s) (vottery_sessions.user_type s)
    (vottery_sessions.admin_role s) false
    (vottery_sessions.created_at s)
    (vottery_sessions.expires_at s) (vottery_sessions.refresh_expires_at s)
    (vottery_sessions.last_activity s).

Definition touched (now : Z) (s : vottery_sessions.row) : vottery_sessions.row :=
  vottery_sessions.mk
    (vottery_sessions.id s) (vottery_sessions.user_id s)
    (vottery_sessions.session_token s) (vottery_sessions.refresh_token s)
    (vottery_sessions.jwt_token_id s)
    (vottery_sessions.device_id s) (vottery_sessions.ip_address s)
    (vottery_sessions.user_agent s) (vottery_sessions.user_type s)
    (vottery_sessions.admin_role s) (vottery_sessions.is_active s)
    (vottery_sessions.created_at s)
    (vottery_sessions.expires_at s) (vottery_sessions.refresh_expires_at s)
    now.

(** [UPDATE t SET ... WHERE cond]: every row that satisfies [cond] is
    rewritten in place. *)
Definition update_where {A} (cond : A -> Prop) `{forall x, Decision (cond x)}
    (f : A -> A) (l : list A) : list A :=
  map (fun x => if decide (cond x) then f x else x) l.

Section SessionManager.
Context {jwt : JwtLib}.
Variable env : ProcessEnv.

Definition JWT_SECRET : JsString :=
  or_default (env_JWT_SECRET env) (js "vottery_secret_key_change_in_production").
Definition ACCESS_TOKEN_EXPIRY : JsString :=
  or_default (env_ACCESS_TOKEN_EXPIRY env) (js "1m").
Definition REFRESH_TOKEN_EXPIRY : JsString :=
  or_default (env_REFRESH_TOKEN_EXPIRY env) (js "2m").

(** [expiry.match(/^(\d+)([smhd])$/)], then the [switch] on the unit. *)
Definition parseExpiryToSeconds (expiry : JsString) : Result Z :=
  let invalid :=
    inl (Error (js "Invalid expiry format: " ++ expiry)) in
  match rev expiry with
  | unit :: rdigits =>
      let digits := rev rdigits in
      if forallb is_digit digits && negb (bool_decide (digits = [])) then
        let value := parseInt10 digits in
        if unit =? 115 then inr value
        else if unit =? 109 then inr (value * 60)
        else if unit =? 104 then inr (value * 3600)
        else if unit =? 100 then inr (value * 86400)
        else invalid
      else invalid
  | [] => invalid
  end.

Definition generateAccessToken (now : Z) (payload : Payload) : Result JsString :=
  lib (jwt_sign payload JWT_SECRET ACCESS_TOKEN_EXPIRY now).

(** [crypto.randomBytes(64).toString('hex')]. *)
Definition generateRefreshToken (ent : Entropy) : JsString :=
  hex_encode (randomBytes ent).

Definition verifyAccessToken (now : Z) (token : JsString) : Result Payload :=
  lib (jwt_verify token JWT_SECRET now).

Definition select_user_role (userId : Z) : M (list vottery_user_management.row) :=
  logq Select T_user_management ;;;
  fun w => (inr (filter (fun u => vottery_user_management.user_id u = userId) (users w)), w).

(** The [INSERT] of [createSession], where the store accepts it.  Its two
    expiries are [NOW() + n * INTERVAL '1 second']; PostgreSQL raises
    "interval out of range" or "timestamp out of range" when a lifetime
    is of the order of 10^13 seconds or more, a failure that is not
    modelled: what is proved of a created session is stated of a call
    that returned, or holds as well when nothing is written. *)
Definition insert_session (now : Z) (userId : Z) (accessToken refreshToken jwtTokenId : JsString)
    (deviceId ipAddress userAgent user_type admin_role : option JsString)
    (accessTokenSeconds refreshTokenSeconds : Z) : M unit :=
  logq Insert T_sessions ;;;
  fun w =>
    let r := vottery_sessions.mk (next_session_id w) userId accessToken refreshToken
               jwtTokenId deviceId ipAddress userAgent user_type admin_role true
               now (now + seconds accessTokenSeconds)
               (now + seconds refreshTokenSeconds) now in
    (inr tt,
     mkWorld (sessions w ++ [r]) (users w) (biometric_keys w) (security_questions w)
             (next_session_id w + 1) (next_question_id w) (qlog w) (res_headers w)).

Definition createSession (now : Z) (ent : Entropy) (userId : Z)
    (accessToken refreshToken : JsString)
    (deviceId ipAddress userAgent : option JsString) : M Tokens.t :=
  let jwtTokenId := randomUUID ent in
  let* accessTokenSeconds := lift (parseExpiryToSeconds ACCESS_TOKEN_EXPIRY) in
  let* refreshTokenSeconds := lift (parseExpiryToSeconds REFRESH_TOKEN_EXPIRY) in
  let* userResult := select_user_role userId in
  match userResult with
  | [] => throw (Error (js "User not found"))
  | u :: _ =>
      insert_session now userId accessToken refreshToken jwtTokenId
        (or_null deviceId) (or_null ipAddress) (or_null userAgent)
        (vottery_user_management.user_type u)
        (vottery_user_management.admin_role u)
        accessTokenSeconds refreshTokenSeconds ;;;
      ret (Tokens.mk accessToken refreshToken)
  end.

Definition select_session_by_refresh (now : Z) (refreshToken deviceId : option JsString)
    : M (list vottery_sessions.row) :=
  logq Select T_sessions ;;;
  fun w => (inr (filter (active_refresh_match refreshToken deviceId now) (sessions w)), w).

(** The [UPDATE] of [rotateRefreshToken], where the store accepts it; the
    remark on the expiries of [insert_session] applies. *)
Definition update_session_rotate (now : Z) (newAccess newRefresh uuid : JsString)
    (accessTokenSeconds refreshTokenSeconds : Z) (id : Z) : M unit :=
  logq Update T_sessions ;;;
  fun w =>
    (inr tt,
     set_sessions
       (update_where (fun s => vottery_sessions.id s = id)
          (rotated newAccess newRefresh uuid accessTokenSeconds refreshTokenSeconds now))
       w).

(** The clock is read three times: by the [SELECT], by [jwt.sign] and by
    the [UPDATE]. *)
Definition rotateRefreshToken (clock : Clock) (ent : Entropy)
    (refreshToken deviceId : option JsString) : M Tokens.t :=
  let* sessionResult := select_session_by_refresh (clock 0%nat) refreshToken deviceId in
  match sessionResult with
  | [] => throw (Error (js "Invalid or expired refresh token"))
  | session :: _ =>
      let* newAccessToken :=
        lift (generateAccessToken (clock 1%nat)
                (mkPayload
                   (JNumber (vottery_sessions.user_id session))
                   (JString (or_default (vottery_sessions.user_type session) (js "voter")))
                   (JString (or_default (vottery_sessions.admin_role session) (js "analyst"))))) in
      let newRefreshToken := generateRefreshToken ent in
      let* accessTokenSeconds := lift (parseExpiryToSeconds ACCESS_TOKEN_EXPIRY) in
      let* refreshTokenSeconds := lift (parseExpiryToSeconds REFRESH_TOKEN_EXPIRY) in
      update_session_rotate (clock 2%nat) newAccessToken newRefreshToken (randomUUID ent)
        accessTokenSeconds refreshTokenSeconds (vottery_sessions.id session) ;;;
      ret (Tokens.mk newAccessToken newRefreshToken)
  end.

Definition invalidateSession (sessionToken : JsString) : M unit :=
  logq Update T_sessions ;;;
  fun w =>
    (inr tt,
     set_sessions
       (update_where (fun s => vottery_sessions.session_token s = sessionToken) deactivated)
       w).

Definition cleanupExpiredSessions (now : Z) : M unit :=
  logq Update T_sessions ;;;
  fun w =>
    (inr tt,
     set_sessions
       (update_where
          (fun s => vottery_sessions.refresh_expires_at s <= now
                    /\ vottery_sessions.is_active s = true)
          deactivated)
       w).

End SessionManager.

(** ** src/middleware/auth.js *)

(** What the gate reads of an Express request.  Header names arrive in
    lower case; body fields are string-valued when present. *)
Record Request : Type := mkRequest {
  headers : gmap string JsString;
  body : option (gmap string JsString)
}.

(** How the gate ends: a JSON response [{success: false, message, code}]
    with a status, or [next()] with [req.user] and [req.tokenRotated]. *)
Inductive GateResult : Type :=
| Respond (status : Z) (message code : JsString)
| Next (user : Payload) (tokenRotated : bool).

Section Auth.
Context {jwt : JwtLib}.
Variable env : ProcessEnv.

(** [authHeader?.split(' ')[1]?.trim()]. *)
Definition bearer_token (req : Request) : option JsString :=
  trim <$> (headers req !! "authorization"%string ≫= fun h => split_on 32 h !! 1%nat).

Definition request_refresh_token (req : Request) : option JsString :=
  or_str (headers req !! "x-refresh-token"%string)
         (body req ≫= fun b => b !! "refreshToken"%string).

Definition request_device_id (req : Request) : option JsString :=
  or_str (headers req !! "x-device-id"%string)
         (body req ≫= fun b => b !! "device_id"%string).

Definition select_session_by_token (now : Z) (token : JsString)
    : M (list vottery_sessions.row) :=
  logq Select T_sessions ;;;
  fun w => (inr (filter (active_token_match token now) (sessions w)), w).

Definition update_last_activity (now : Z) (token : JsString) : M unit :=
  logq Update T_sessions ;;;
  fun w =>
    (inr tt,
     set_sessions
       (update_where (fun s => vottery_sessions.session_token s = token) (touched now))
       w).

(** Reading 0 of the clock is that of the first verification, readings 1
    to 3 are those of the rotation, reading 4 that of the verification of
    the new token, reading 5 that of the session check and reading 6 that
    of the activity update. *)
Definition authenticateToken (clock : Clock) (ent : Entropy) (req : Request)
    : M GateResult :=
  try_catch
    (let refreshToken := request_refresh_token req in
     let deviceId := request_device_id req in
     match bearer_token req with
     | Some (c :: t) =>
         let accessToken := c :: t in
         let* verified :=
           match verifyAccessToken env (clock 0%nat) accessToken with
           | inr decoded => ret (inr (decoded, accessToken, false))
           | inl err =>
               if bool_decide (err_name err = js "TokenExpiredError") then
                 if negb (truthy_str refreshToken) || negb (truthy_str deviceId) then
                   ret (inl (Respond 401
                               (js "Access token expired, refresh token and device ID required")
                               (js "TOKEN_EXPIRED_NO_REFRESH")))
                 else
                   try_catch
                     (let* tokens :=
                        rotateRefreshToken env (later 1 clock) ent refreshToken deviceId in
                      setHeader "x-access-token" (Tokens.accessToken tokens) ;;;
                      setHeader "x-refresh-token" (Tokens.refreshToken tokens) ;;;
                      let* decoded :=
                        lift (verifyAccessToken env (clock 4%nat) (Tokens.accessToken tokens)) in
                      ret (inr (decoded, Tokens.accessToken tokens, true)))
                     (fun rotationErr =>
                        ret (inl (Respond 401 (err_message rotationErr)
                                    (js "REFRESH_TOKEN_INVALID"))))
               else
                 ret (inl (Respond 403 (js "Invalid access token")
                             (js "ACCESS_TOKEN_INVALID")))
           end in
         match verified with
         | inl response => ret response
         | inr (decoded, activeAccessToken, tokenRotated) =>
             let* sessionResult :=
               select_session_by_token (clock 5%nat) activeAccessToken in
             match sessionResult with
             | [] =>
                 ret (Respond 401 (js "Invalid or expired session") (js "SESSION_INVALID"))
             | _ :: _ =>
                 update_last_activity (clock 6%nat) activeAccessToken ;;;
                 ret (Next (mkPayload (userId decoded) (userType decoded) (adminRole decoded))
                           tokenRotated)
             end
         end
     | _ =>
         ret (Respond 401 (js "Access token required") (js "NO_ACCESS_TOKEN"))
     end)
    (fun err => ret (Respond 500 (js "Server error") (js "SERVER_ERROR"))).

(** [requireAdmin] and [requireRole(allowedRoles)], on the resolved user. *)
Definition requireAdmin (user : Payload) : option (Z * JsString) :=
  if negb (truthy (adminRole user)) then Some (403, js "Admin access required")
  else None.

Definition requireRole (allowedRoles : list JsValue) (user : Payload)
    : option (Z * JsString) :=
  if negb (truthy (adminRole user))
     || negb (bool_decide (adminRole user ∈ allowedRoles))
  then Some (403, js "Insufficient permissions")
  else None.

End Auth.

(** ** utils/encryption.js *)

(** The primitives of node:crypto the service uses.  [gcm_encrypt key iv
    aad plaintext] is the ciphertext and the authentication tag of
    [createCipheriv('aes-256-gcm', key, iv)] with [setAAD(aad)];
    [gcm_decrypt key iv aad tag ciphertext] is [createDecipheriv],
    [setAAD], [setAuthTag], [update] and [final] together, and fails when
    any of them throws.  [sha256_hex s] is
    [createHash('sha256').update(s).digest('hex')]. *)
Class CryptoLib : Type := {
  scryptSync : JsString -> JsString -> nat -> bytes;
  gcm_encrypt : bytes -> bytes -> bytes -> bytes -> bytes * bytes;
  gcm_decrypt : bytes -> bytes -> bytes -> bytes -> bytes -> LibResult bytes;
  sha256_hex : JsString -> JsString
}.

(** Decryption undoes encryption under the same key, 16-byte
    initialisation vector and associated data. *)
Definition gcm_correct (crypto : CryptoLib) : Prop :=
  forall key iv aad plaintext,
    length iv = 16%nat ->
    gcm_decrypt key iv aad
      (snd (gcm_encrypt key iv aad plaintext))
      (fst (gcm_encrypt key iv aad plaintext)) = inr plaintext.

Definition is_high_surrogate (c : Z) : bool := (0xD800 <=? c) && (c <=? 0xDBFF).
Definition is_low_surrogate (c : Z) : bool := (0xDC00 <=? c) && (c <=? 0xDFFF).

(** [String.prototype.isWellFormed]: no lone surrogate. *)
Fixpoint isWellFormed (s : JsString) : bool :=
  match s with
  | [] => true
  | c :: rest =>
      if is_high_surrogate c then
        match rest with
        | d :: rest' => is_low_surrogate d && isWellFormed rest'
        | [] => false
        end
      else if is_low_surrogate c then false
      else (0 <=? c) && (c <=? 0xFFFF) && isWellFormed rest
  end.

Definition utf8_of_code_point (cp : Z) : bytes :=
  if cp <? 0x80 then [byte_of_Z cp]
  else if cp <? 0x800 then
    [byte_of_Z (0xC0 + cp / 64); byte_of_Z (0x80 + cp mod 64)]
  else if cp <? 0x10000 then
    [byte_of_Z (0xE0 + cp / 4096); byte_of_Z (0x80 + (cp / 64) mod 64);
     byte_of_Z (0x80 + cp mod 64)]
  else
    [byte_of_Z (0xF0 + cp / 262144); byte_of_Z (0x80 + (cp / 4096) mod 64);
     byte_of_Z (0x80 + (cp / 64) mod 64); byte_of_Z (0x80 + cp mod 64)].

(** U+FFFD in UTF-8. *)
Definition utf8_replacement : bytes := [Byte.xef; Byte.xbf; Byte.xbd].

(** [Buffer.from(s, 'utf8')]: a surrogate pair is one code point, a lone
    surrogate is written as U+FFFD. *)
Fixpoint utf8_encode (s : JsString) : bytes :=
  match s with
  | [] => []
  | c :: rest =>
      if is_high_surrogate c then
        match rest with
        | d :: rest' =>
            if is_low_surrogate d then
              utf8_of_code_point (0x10000 + (c - 0xD800) * 1024 + (d - 0xDC00))
                ++ utf8_encode rest'
            else utf8_replacement ++ utf8_encode rest
        | [] => utf8_replacement
        end
      else if is_low_surrogate c then utf8_replacement ++ utf8_encode rest
      else utf8_of_code_point c ++ utf8_encode rest
  end.

Definition utf16_of_code_point (cp : Z) : JsString :=
  if cp <? 0x10000 then [cp]
  else [0xD800 + (cp - 0x10000) / 1024; 0xDC00 + (cp - 0x10000) mod 1024].

(** The UTF-8 decoder of the Encoding standard, which [buf.toString('utf8')]
    follows: [Pending cp n lo hi] has read the start of a sequence with [n]
    continuation bytes to come, the next one within [lo..hi]. *)
Inductive Utf8State : Type :=
| Idle
| Pending (cp : Z) (remaining : nat) (lower upper : Z).

Definition utf8_start (b : Z) : JsString * Utf8State :=
  if b <=? 0x7F then ([b], Idle)
  else if (0xC2 <=? b) && (b <=? 0xDF) then
    ([], Pending (b - 0xC0) 1 0x80 0xBF)
  else if (0xE0 <=? b) && (b <=? 0xEF) then
    ([], Pending (b - 0xE0) 2 (if b =? 0xE0 then 0xA0 else 0x80)
                              (if b =? 0xED then 0x9F else 0xBF))
  else if (0xF0 <=? b) && (b <=? 0xF4) then
    ([], Pending (b - 0xF0) 3 (if b =? 0xF0 then 0x90 else 0x80)
                              (if b =? 0xF4 then 0x8F else 0xBF))
  else ([0xFFFD], Idle).

Definition utf8_step (st : Utf8State) (b : Z) : JsString * Utf8State :=
  match st with
  | Idle => utf8_start b
  | Pending cp n lo hi =>
      if (lo <=? b) && (b <=? hi) then
        let cp' := cp * 64 + (b - 0x80) in
        match n with
        | S (S n') => ([], Pending cp' (S n') 0x80 0xBF)
        | _ => (utf16_of_code_point cp', Idle)
        end
      else
        let '(out, st') := utf8_start b in (0xFFFD :: out, st')
  end.

Fixpoint utf8_decode_from (st : Utf8State) (b : bytes) : JsString :=
  match b with
  | [] => match st with Idle => [] | Pending _ _ _ _ => [0xFFFD] end
  | x :: rest =>
      let '(out, st') := utf8_step st (Z_of_byte x) in
      out ++ utf8_decode_from st' rest
  end.

Definition utf8_decode (b : bytes) : JsString := utf8_decode_from Idle b.

Section Encryption.
Context {crypto : CryptoLib}.
Variable env : ProcessEnv.

Definition ENCRYPTION_KEY : JsString :=
  or_default (env_ENCRYPTION_KEY env) (js "vottery_encryption_key_32_chars!!").

(** [Buffer.from('vottery')]. *)
Definition AAD : bytes := utf8_encode (js "vottery").

(** The body of the [try] block of [encryptSensitiveData]; [iv] is
    [crypto.randomBytes(16)]. *)
Definition encrypt_try (iv : bytes) (text : JsValue) : Result JsValue :=
  if negb (truthy text) then inr JNull
  else
    let key := scryptSync ENCRYPTION_KEY (js "salt") 32 in
    match text with
    | JString s =>
        let '(encrypted, authTag) := gcm_encrypt key iv AAD (utf8_encode s) in
        inr (JString (hex_encode iv ++ js ":" ++ hex_encode authTag
                        ++ js ":" ++ hex_encode encrypted))
    | _ =>
        inl (LibError (js "TypeError")
               (js "The data argument must be of type string or a Buffer"))
    end.

Definition encryptSensitiveData (iv : bytes) (text : JsValue) : JsValue :=
  match encrypt_try iv text with
  | inr v => v
  | inl _ => text
  end.

(** The body of the [try] block of [decryptSensitiveData].  The fields are
    the first three of [encrypted.split(':')]; a missing third field makes
    [decipher.update] throw, and so does one with an odd number of
    characters, which is not valid input in the ['hex'] encoding. *)
Definition decrypt_try (encrypted : JsValue) : Result JsValue :=
  match encrypted with
  | JString s =>
      if negb (truthy encrypted) || negb (includes 58 s) then inr encrypted
      else
        let parts := split_on 58 s in
        match parts !! 0%nat, parts !! 1%nat, parts !! 2%nat with
        | Some ivHex, Some authTagHex, Some encryptedHex =>
            let iv := hex_decode ivHex in
            let authTag := hex_decode authTagHex in
            let key := scryptSync ENCRYPTION_KEY (js "salt") 32 in
            if Nat.even (length encryptedHex) then
              match lib (gcm_decrypt key iv AAD authTag (hex_decode encryptedHex)) with
              | inr decrypted => inr (JString (utf8_decode decrypted))
              | inl e => inl e
              end
            else
              inl (LibError (js "TypeError")
                     (js "The argument 'encoding' is invalid for data of odd length"))
        | _, _, _ =>
            inl (LibError (js "TypeError")
                   (js "The data argument must be of type string or a Buffer"))
        end
  | _ => inr encrypted
  end.

Definition decryptSensitiveData (encrypted : JsValue) : JsValue :=
  match decrypt_try encrypted with
  | inr v => v
  | inl _ => encrypted
  end.

End Encryption.

(** ** src/controllers/biometricFallbackController.js *)

(** The node-forge functions the controller calls.  Key generation and
    OAEP padding draw on a random seed. *)
Class ForgeLib : Type := {
  PublicKey : Type;
  PrivateKey : Type;
  generateKeyPair : bytes -> PublicKey * PrivateKey;
  publicKeyToPem : PublicKey -> JsString;
  privateKeyToPem : PrivateKey -> JsString;
  publicKeyFromPem : JsString -> LibResult PublicKey;
  privateKeyFromPem : JsString -> LibResult PrivateKey;
  encode64 : JsString -> JsString;
  decode64 : JsString -> JsString;
  rsa_oaep_encrypt : PublicKey -> JsString -> bytes -> LibResult JsString;
  rsa_oaep_decrypt : PrivateKey -> JsString -> LibResult JsString
}.

(** One element of the [answers] array. *)
Module Answer.
Record t : Type := mk {
  questionId : Z;
  answer : JsValue
}.
End Answer.

(** [for (const a of l) { body a }]. *)
Fixpoint for_of {A} (l : list A) (body : A -> M unit) : M unit :=
  match l with
  | [] => ret tt
  | a :: rest => body a ;;; for_of rest body
  end.

Section BiometricFallback.
Context {forge : ForgeLib} {crypto : CryptoLib}.

(** [JSON.stringify({ threshold: 'example' })]. *)
Definition threshold_json : JsString :=
  js "{" ++ [34] ++ js "threshold" ++ [34] ++ js ":" ++ [34] ++ js "example"
     ++ [34] ++ js "}".

Definition select_keys (userId : Z) : M (list vottery_biometric_keys.row) :=
  logq Select T_biometric_keys ;;;
  fun w => (inr (filter (fun k => vottery_biometric_keys.user_id k = userId)
                        (biometric_keys w)), w).

Definition insert_keys (r : vottery_biometric_keys.row) : M unit :=
  logq Insert T_biometric_keys ;;;
  fun w =>
    (inr tt,
     mkWorld (sessions w) (users w) (biometric_keys w ++ [r]) (security_questions w)
             (next_session_id w) (next_question_id w) (qlog w) (res_headers w)).

Definition registerKeys (seed : bytes) (userId : Z) : M (JsString * JsString) :=
  let keypair := generateKeyPair seed in
  let publicKeyPem := publicKeyToPem (fst keypair) in
  let privateKeyPem := privateKeyToPem (snd keypair) in
  let encryptedPrivateKey := encode64 privateKeyPem in
  insert_keys (vottery_biometric_keys.mk userId publicKeyPem encryptedPrivateKey
                 threshold_json) ;;;
  ret (publicKeyPem, encryptedPrivateKey).

Definition insert_question (userId : Z) (question encryptedAnswer signature : JsString)
    : M unit :=
  logq Insert T_security_questions ;;;
  fun w =>
    (inr tt,
     mkWorld (sessions w) (users w) (biometric_keys w)
             (security_questions w
                ++ [vottery_security_questions.mk (next_question_id w) userId question
                      encryptedAnswer signature])
             (next_session_id w) (next_question_id w + 1) (qlog w) (res_headers w)).

Definition addSecurityQuestion (seed : bytes) (userId : Z) (question answer : JsString)
    : M (JsString * JsString * JsString) :=
  let* keyResult := select_keys userId in
  match keyResult with
  | [] => throw (Error (js "User keys not found"))
  | k :: _ =>
      let* publicKey := lift (lib (publicKeyFromPem (vottery_biometric_keys.public_key k))) in
      let* ciphertext := lift (lib (rsa_oaep_encrypt publicKey answer seed)) in
      let encryptedAnswer := encode64 ciphertext in
      let signature := sha256_hex answer in
      insert_question userId question encryptedAnswer signature ;;;
      ret (question, encryptedAnswer, signature)
  end.

Definition getSecurityQuestions (userId : Z) : M (list (Z * JsString)) :=
  logq Select T_security_questions ;;;
  fun w =>
    (inr (map (fun q => (vottery_security_questions.id q,
                         vottery_security_questions.question q))
              (filter (fun q => vottery_security_questions.user_id q = userId)
                      (security_questions w))), w).

(** [WHERE user_id=$1 AND id = ANY($2)]. *)
Definition select_answers (userId : Z) (questionIds : list Z)
    : M (list vottery_security_questions.row) :=
  logq Select T_security_questions ;;;
  fun w =>
    (inr (filter (fun q => vottery_security_questions.user_id q = userId
                           /\ vottery_security_questions.id q ∈ questionIds)
                 (security_questions w)), w).

(** The body of the loop over the supplied answers. *)
Definition verify_answer (privateKey : PrivateKey)
    (rows : list vottery_security_questions.row) (a : Answer.t) : M unit :=
  match find (fun q => vottery_security_questions.id q =? Answer.questionId a) rows with
  | None => throw (Error (js "Invalid question ID"))
  | Some dbQ =>
      let* decryptedAnswer :=
        lift (lib (rsa_oaep_decrypt privateKey
                     (decode64 (vottery_security_questions.encrypted_answer dbQ)))) in
      if negb (bool_decide (JString decryptedAnswer = Answer.answer a)) then
        throw (Error (js "Answer mismatch"))
      else
        let hash := sha256_hex decryptedAnswer in
        if negb (bool_decide (hash = vottery_security_questions.signature dbQ)) then
          throw (Error (js "Signature mismatch"))
        else ret tt
  end.

Definition verifySecurityAnswers (userId : Z) (answers : list Answer.t) : M bool :=
  let* keyResult := select_keys userId in
  match keyResult with
  | [] => throw (Error (js "User keys not found"))
  | k :: _ =>
      let privateKeyPem := decode64 (vottery_biometric_keys.encrypted_private_key k) in
      let* privateKey := lift (lib (privateKeyFromPem privateKeyPem)) in
      let questionIds := map Answer.questionId answers in
      let* dbResult := select_answers userId questionIds in
      for_of answers (verify_answer privateKey dbResult) ;;;
      ret true
  end.

End BiometricFallback.

(** ** utils/validator.js and the token helper of utils/encryption.js *)

(** [input.replace(/[<>]/g, '').trim().substring(0, 1000)], or the input
    itself when it is not a string. *)
Definition sanitizeInput (input : JsValue) : JsValue :=
  match input with
  | JString s =>
      JString (firstn 1000
                 (trim (filter (fun c => c <> 60 /\ c <> 62) s)))
  | _ => input
  end.

(** [crypto.randomBytes(length).toString('hex')]; the argument is the
    [length] random bytes drawn. *)
Definition generateSecureToken (random : bytes) : JsString := hex_encode random.

(** ** controllers/userController.js: who may call what

    Each controller begins by checking [req.user.adminRole]; what is
    modelled is that check: the status and the message of the refusal, or
    nothing when the controller goes on. *)

Definition manager : JsValue := JString (js "manager").
Definition admin : JsValue := JString (js "admin").
Definition moderator : JsValue := JString (js "moderator").
Definition analyst : JsValue := JString (js "analyst").

(** [!['manager', 'admin', 'moderator'].includes(req.user.adminRole)]. *)
Definition updateUserStatus_access (user : Payload) : option (Z * JsString) :=
  if negb (bool_decide (adminRole user ∈ [manager; admin; moderator]))
  then Some (403, js "Access denied. Admin privileges required.")
  else None.

(** [!['manager', 'admin'].includes(req.user.adminRole)]. *)
Definition updateUserRole_access (user : Payload) : option (Z * JsString) :=
  if negb (bool_decide (adminRole user ∈ [manager; admin]))
  then Some (403, js "Access denied. Manager or Admin privileges required.")
  else None.

(** [req.user.adminRole !== 'manager']. *)
Definition deleteUser_access (user : Payload) : option (Z * JsString) :=
  if negb (bool_decide (adminRole user = manager))
  then Some (403, js "Access denied. Manager privileges required.")
  else None.

(** [!['manager', 'admin', 'moderator', 'analyst'].includes(req.user.adminRole)]. *)
Definition getAllUsers_access (user : Payload) : option (Z * JsString) :=
  if negb (bool_decide (adminRole user ∈ [manager; admin; moderator; analyst]))
  then Some (403, js "Access denied. Admin privileges required.")
  else None.

(** The claims [createUser] signs for a new user, [userId] being
    [parseInt(user_id, 10)]. *)
Definition createUser_tokenPayload (userId : Z) : Payload :=
  mkPayload (JNumber userId) (JString (js "voter")) (JString (js "analyst")).

(** ** Small instances of the library interfaces

    Concrete, computable stand-ins for jsonwebtoken, node:crypto and
    node-forge, used to run the embedding on concrete requests.  A token
    of [sample_jwt] spells out its claims; the cipher of [sample_crypto]
    is the identity with a constant tag; the keys of [sample_forge] are
    trivial. *)

Module Sample.

Definition encode_value (v : JsValue) : JsString :=
  match v with
  | JUndefined => js "u"
  | JNull => js "n"
  | JBool b => js "b" ++ [if b then 49 else 48]
  | JNumber n => js "i" ++ [n]
  | JString s => js "s" ++ s
  | JObject k => js "o" ++ [Z.of_nat k]
  end.

Definition decode_value (s : JsString) : option JsValue :=
  match s with
  | 117 :: [] => Some JUndefined
  | 110 :: [] => Some JNull
  | 98 :: c :: [] => Some (JBool (c =? 49))
  | 105 :: n :: [] => Some (JNumber n)
  | 115 :: t => Some (JString t)
  | 111 :: k :: [] => Some (JObject (Z.to_nat k))
  | _ => None
  end.

Definition sign (p : Payload) : LibResult JsString :=
  inr (encode_value (userId p) ++ js "." ++ encode_value (userType p)
         ++ js "." ++ encode_value (adminRole p)).

Definition verify (token : JsString) : LibResult Payload :=
  if bool_decide (token = js "expired") then
    inl (js "TokenExpiredError", js "jwt expired")
  else
    match split_on 46 token with
    | [a; b; c] =>
        match decode_value a, decode_value b, decode_value c with
        | Some u, Some t, Some r => inr (mkPayload u t r)
        | _, _, _ => inl (js "JsonWebTokenError", js "jwt malformed")
        end
    | _ => inl (js "JsonWebTokenError", js "jwt malformed")
    end.

Definition sample_jwt : JwtLib :=
  {| jwt_sign := fun p _ _ _ => sign p;
     jwt_verify := fun token _ _ => verify token |}.

Definition zero_tag : bytes := repeat Byte.x00 16.

Definition sample_crypto : CryptoLib :=
  {| scryptSync := fun _ _ n => repeat Byte.x00 n;
     gcm_encrypt := fun _ _ _ plaintext => (plaintext, zero_tag);
     gcm_decrypt := fun _ iv _ tag ciphertext =>
       if bool_decide (tag = zero_tag) && negb (bool_decide (iv = [])) then inr ciphertext
       else inl (js "Error", js "Unsupported state or unable to authenticate data");
     sha256_hex := fun s => js "#" ++ s |}.

Definition sample_forge : ForgeLib :=
  {| PublicKey := unit;
     PrivateKey := unit;
     generateKeyPair := fun _ => (tt, tt);
     publicKeyToPem := fun _ => js "PUBLIC KEY";
     privateKeyToPem := fun _ => js "PRIVATE KEY";
     publicKeyFromPem := fun pem =>
       if bool_decide (pem = js "PUBLIC KEY") then inr tt
       else inl (js "Error", js "Invalid PEM formatted message.");
     privateKeyFromPem := fun pem =>
       if bool_decide (pem = js "PRIVATE KEY") then inr tt
       else inl (js "Error", js "Invalid PEM formatted message.");
     encode64 := fun s => s;
     decode64 := fun s => s;
     rsa_oaep_encrypt := fun _ m _ => inr m;
     rsa_oaep_decrypt := fun _ c => inr c |}.

Definition no_env : ProcessEnv := mkEnv None None None None.

Definition empty_world : World := mkWorld [] [] [] [] 1 1 [] [].

(** A clock that stands still at instant 0. *)
Definition at_zero : Clock := fun _ => 0.

(** A clock whose n-th reading is the instant n. *)
Definition ticking : Clock := fun n => Z.of_nat n.

Definition no_entropy : Entropy := mkEntropy (repeat Byte.x2a 64) (js "uuid-0").

(** A user with no admin role, and a session of theirs created at
    instant 0 under the default lifetimes. *)
Definition user7 : vottery_user_management.row :=
  vottery_user_management.mk 7 (Some (js "voter")) None.

Definition token7 : JsString := js "i" ++ [7] ++ js ".svoter.sanalyst".

Definition session7 : vottery_sessions.row :=
  vottery_sessions.mk 1 7 token7 (js "refresh-1") (js "uuid-1")
    (Some (js "device-1")) None None (Some (js "voter")) None true
    0 (seconds 60) (seconds 120) 0.

Definition world7 : World := mkWorld [session7] [user7] [] [] 2 1 [] [].

Definition bearer_request (token : JsString) : Request :=
  mkRequest {[ "authorization"%string := js "Bearer " ++ token ]} None.

(** An environment that sets the access-token lifetime to three minutes
    and leaves the refresh-token lifetime at its default of two. *)
Definition long_access_env : ProcessEnv := mkEnv None (Some (js "3m")) None None.

(** User 42 after enrolment and one security question. *)
Definition enrolled_world : World :=
  snd (registerKeys (forge := sample_forge) [] 42 empty_world).

Definition rex_world : World :=
  snd (addSecurityQuestion (forge := sample_forge) (crypto := sample_crypto) []
         42 (js "pet name?") (js "Rex") enrolled_world).

Definition sample_iv : bytes := repeat Byte.x2a 16.

(** A request with an expired bearer token that offers the refresh token
    and the device of [session7]. *)
Definition refresh_request : Request :=
  mkRequest {[ "authorization"%string := js "Bearer expired";
               "x-refresh-token"%string := js "refresh-1";
               "x-device-id"%string := js "device-1" ]} None.

(** A store that knows user 7 and holds no session yet. *)
Definition signup_world : World := mkWorld [] [user7] [] [] 1 1 [] [].

(** The store after a session of user 7 was created at instant 0 under the
    default lifetimes, with and without a device id. *)
Definition created_world (deviceId : option JsString) : World :=
  snd (createSession no_env 0 no_entropy 7 token7 (js "refresh-1") deviceId None None
         signup_world).

(** The store after the session of [world7] was refreshed at instant 0. *)
Definition refreshed_world7 : World :=
  snd (rotateRefreshToken (jwt := sample_jwt) no_env at_zero no_entropy
         (Some (js "refresh-1")) (Some (js "device-1")) world7).

(** A verifier for which every token has run out, as when the configured
    lifetime is zero. *)
Definition expiring_jwt : JwtLib :=
  {| jwt_sign := fun p _ _ _ => sign p;
     jwt_verify := fun _ _ _ => inl (js "TokenExpiredError", js "jwt expired") |}.

(** An answer of user 42 in [rex_world]. *)
Definition rex_answer : Answer.t := Answer.mk 1 (JString (js "Rex")).

End Sample.

(** ** Vocabulary of the specification *)

(** The world after one more query has been logged. *)
Definition logged (a : Access) (t : Table) (w : World) : World :=
  snd (logq a t w).

Definition RefreshTokenInvalid : JsError :=
  Error (js "Invalid or expired refresh token").

(** The claims the rotation hands to [generateAccessToken]. *)
Definition rotation_claims (s : vottery_sessions.row) : Payload :=
  mkPayload
    (JNumber (vottery_sessions.user_id s))
    (JString (or_default (vottery_sessions.user_type s) (js "voter")))
    (JString (or_default (vottery_sessions.admin_role s) (js "analyst"))).

(** A nullable text column as a JavaScript value. *)
Definition column_value (c : option JsString) : JsValue :=
  match c with
  | Some s => JString s
  | None => JNull
  end.

(** The role snapshot of a session row, as stored. *)
Definition snapshot_claims (s : vottery_sessions.row) : Payload :=
  mkPayload
    (JNumber (vottery_sessions.user_id s))
    (column_value (vottery_sessions.user_type s))
    (column_value (vottery_sessions.admin_role s)).

Definition expiry_ordered (s : vottery_sessions.row) : Prop :=
  vottery_sessions.expires_at s <= vottery_sessions.refresh_expires_at s.

(** The configured access-token lifetime does not exceed the configured
    refresh-token lifetime. *)
Definition lifetimes_ordered (env : ProcessEnv) : Prop :=
  forall a r,
    parseExpiryToSeconds (ACCESS_TOKEN_EXPIRY env) = inr a ->
    parseExpiryToSeconds (REFRESH_TOKEN_EXPIRY env) = inr r ->
    a <= r.

(** A row carries both tokens of a pair. *)
Definition carries (t : Tokens.t) (s : vottery_sessions.row) : Prop :=
  vottery_sessions.session_token s = Tokens.accessToken t
  /\ vottery_sessions.refresh_token s = Tokens.refreshToken t.

Definition with_users (u : list vottery_user_management.row) (w : World) : World :=
  mkWorld (sessions w) u (biometric_keys w) (security_questions w)
          (next_session_id w) (next_question_id w) (qlog w) (res_headers w).

(** One operation of the service on the session table. *)
Inductive store_step `{JwtLib} (env : ProcessEnv) : World -> World -> Prop :=
| step_createSession now ent uid access refresh dev ip ua w :
    store_step env w (snd (createSession env now ent uid access refresh dev ip ua w))
| step_rotateRefreshToken clock ent rt dev w :
    store_step env w (snd (rotateRefreshToken env clock ent rt dev w))
| step_invalidateSession tok w :
    store_step env w (snd (invalidateSession tok w))
| step_cleanupExpiredSessions now w :
    store_step env w (snd (cleanupExpiredSessions now w))
| step_authenticateToken clock ent req w :
    store_step env w (snd (authenticateToken env clock ent req w)).

Inductive reachable `{JwtLib} (env : ProcessEnv) (w0 : World) : World -> Prop :=
| reachable_refl : reachable env w0 w0
| reachable_step w w' : reachable env w0 w -> store_step env w w' -> reachable env w0 w'.

Definition KeysNotFound : JsError := Error (js "User keys not found").
Definition InvalidQuestionId : JsError := Error (js "Invalid question ID").
Definition AnswerMismatch : JsError := Error (js "Answer mismatch").
Definition SignatureMismatch : JsError := Error (js "Signature mismatch").

(** The key-pair row the controller reads for a user: the first one. *)
Definition key_row (w : World) (userId : Z) : option vottery_biometric_keys.row :=
  head (filter (fun k => vottery_biometric_keys.user_id k = userId) (biometric_keys w)).

(** The stored question of a user with a given id. *)
Definition stored_question (w : World) (userId questionId : Z)
    : option vottery_security_questions.row :=
  find (fun q => (vottery_security_questions.user_id q =? userId)
                 && (vottery_security_questions.id q =? questionId))
       (security_questions w).

(** An answer passes: its question is stored for the user, the stored
    ciphertext decrypts to the supplied answer, and the hash of the
    plaintext is the stored signature. *)
Definition answer_passes `{ForgeLib} `{CryptoLib} (privateKey : PrivateKey)
    (w : World) (userId : Z) (a : Answer.t) : Prop :=
  exists q d,
    stored_question w userId (Answer.questionId a) = Some q
    /\ rsa_oaep_decrypt privateKey
         (decode64 (vottery_security_questions.encrypted_answer q)) = inr d
    /\ Answer.answer a = JString d
    /\ sha256_hex d = vottery_security_questions.signature q.

(** Only the query log differs. *)
Definition same_tables (w w' : World) : Prop :=
  sessions w' = sessions w /\ users w' = users w
  /\ biometric_keys w' = biometric_keys w
  /\ security_questions w' = security_questions w
  /\ res_headers w' = res_headers w.

(** The format [encryptSensitiveData] writes: three hexadecimal fields,
    initialisation vector, authentication tag and ciphertext, joined by
    colons. *)
Definition is_envelope (s : JsString) : Prop :=
  exists iv authTag encrypted : bytes,
    s = hex_encode iv ++ js ":" ++ hex_encode authTag ++ js ":" ++ hex_encode encrypted.

(** A value that is not a string in that format. *)
Definition malformed_envelope (v : JsValue) : Prop :=
  forall s, v = JString s -> ~ is_envelope s.

(** The three fields decryption works on: the first three colon-separated
    fields of a string, hex-decoded.  There are none when the string has
    fewer than three fields or its third field has an odd number of
    characters. *)
Definition envelope_fields (s : JsString) : option (bytes * bytes * bytes) :=
  match split_on 58 s with
  | ivHex :: authTagHex :: encryptedHex :: _ =>
      if Nat.even (length encryptedHex) then
        Some (hex_decode ivHex, hex_decode authTagHex, hex_decode encryptedHex)
      else None
  | _ => None
  end.

(** A value the decryption cannot even be attempted on: not a string, an
    empty string, a string without a colon, or one without the three
    fields. *)
Definition lacks_fields (v : JsValue) : Prop :=
  match v with
  | JString s => s = [] \/ includes 58 s = false \/ envelope_fields s = None
  | _ => True
  end.

(** A Unicode scalar value: a code point that is not a surrogate. *)
Definition scalar_value (cp : Z) : Prop :=
  (0 <= cp < 0xD800) \/ (0xDFFF < cp < 0x110000).

(** The string a value is, or the empty string. *)
Definition string_of (v : JsValue) : JsString :=
  match v with
  | JString s => s
  | _ => []
  end.

(** node-forge reads back the private key it wrote. *)
Definition pem_roundtrip (forge : ForgeLib) : Prop :=
  forall privateKey : PrivateKey,
    privateKeyFromPem (decode64 (encode64 (privateKeyToPem privateKey))) = inr privateKey.

(** Every stored private key reads back as a key. *)
Definition keys_readable (forge : ForgeLib) (w : World) : Prop :=
  Forall (fun k => exists privateKey : PrivateKey,
            privateKeyFromPem (decode64 (vottery_biometric_keys.encrypted_private_key k))
            = inr privateKey)
         (biometric_keys w).

(** A binary-encoded string, as node-forge takes and returns them: every
    code unit is a byte. *)
Definition byte_string (s : JsString) : Prop := Forall (fun c => 0 <= c < 256) s.

(** The laws of node-forge the enrolment scenario relies on: PEM reads
    back what it wrote, and a private key decrypts, through base64, what
    its public key encrypted, when the message is a binary-encoded
    string.  Nothing is assumed of a message with a code unit above 255:
    node-forge encrypts it, and then fails to decrypt the result. *)
Record forge_correct (forge : ForgeLib) : Prop := {
  forge_private_pem : pem_roundtrip forge;
  forge_public_pem :
    forall publicKey : PublicKey, publicKeyFromPem (publicKeyToPem publicKey) = inr publicKey;
  forge_rsa :
    forall seed seed' message ciphertext,
      byte_string message ->
      rsa_oaep_encrypt (fst (generateKeyPair seed)) message seed' = inr ciphertext ->
      rsa_oaep_decrypt (snd (generateKeyPair seed)) (decode64 (encode64 ciphertext))
      = inr message
}.

(** ** Further vocabulary *)

(** Seconds in one unit of a lifetime string. *)
Definition unit_seconds (unit : Z) : option Z :=
  if unit =? 115 then Some 1
  else if unit =? 109 then Some 60
  else if unit =? 104 then Some 3600
  else if unit =? 100 then Some 86400
  else None.

(** A lifetime string: decimal digits, at least one, and a unit. *)
Definition lifetime_string (expiry digits : JsString) (unit multiplier : Z) : Prop :=
  expiry = digits ++ [unit]
  /\ digits <> []
  /\ forallb is_digit digits = true
  /\ unit_seconds unit = Some multiplier.

Definition is_lower_hex (c : Z) : Prop := 48 <= c <= 57 \/ 97 <= c <= 102.

Definition UserNotFound : JsError := Error (js "User not found").

(** The row [createSession] inserts. *)
Definition created_row (w : World) (now : Z) (ent : Entropy) (userId : Z)
    (accessToken refreshToken : JsString) (deviceId ipAddress userAgent : option JsString)
    (u : vottery_user_management.row) (a r : Z) : vottery_sessions.row :=
  vottery_sessions.mk (next_session_id w) userId accessToken refreshToken
    (randomUUID ent) (or_null deviceId) (or_null ipAddress) (or_null userAgent)
    (vottery_user_management.user_type u) (vottery_user_management.admin_role u)
    true now (now + seconds a) (now + seconds r) now.

Definition SessionInvalid : GateResult :=
  Respond 401 (js "Invalid or expired session") (js "SESSION_INVALID").

Definition NoAccessToken : GateResult :=
  Respond 401 (js "Access token required") (js "NO_ACCESS_TOKEN").

Definition AccessTokenInvalid : GateResult :=
  Respond 403 (js "Invalid access token") (js "ACCESS_TOKEN_INVALID").

(** The world once the rotated pair is on the response headers. *)
Definition with_token_headers (t : Tokens.t) (w : World) : World :=
  snd (setHeader "x-refresh-token" (Tokens.refreshToken t)
         (snd (setHeader "x-access-token" (Tokens.accessToken t) w))).

(** A key-pair row as [registerKeys] writes it for a generated pair. *)
Definition key_row_of_seed {forge : ForgeLib} (seed : bytes) (k : vottery_biometric_keys.row)
    : Prop :=
  vottery_biometric_keys.public_key k = publicKeyToPem (fst (generateKeyPair seed))
  /\ vottery_biometric_keys.encrypted_private_key k
     = encode64 (privateKeyToPem (snd (generateKeyPair seed))).

(** A stored question is sealed: its answer was encrypted under the public
    key of the key row its user is read with, and its signature is the
    hash of that answer. *)
Definition sealed_question {forge : ForgeLib} {crypto : CryptoLib} (w : World)
    (q : vottery_security_questions.row) : Prop :=
  exists k seed seed' answer ciphertext,
    key_row w (vottery_security_questions.user_id q) = Some k
    /\ key_row_of_seed seed k
    /\ byte_string answer
    /\ rsa_oaep_encrypt (fst (generateKeyPair seed)) answer seed' = inr ciphertext
    /\ vottery_security_questions.encrypted_answer q = encode64 ciphertext
    /\ vottery_security_questions.signature q = sha256_hex answer.

(** The state of the two tables of the controller: key rows are generated
    pairs, questions are sealed and numbered below the id sequence. *)
Definition sealed {forge : ForgeLib} {crypto : CryptoLib} (w : World) : Prop :=
  Forall (fun k => exists seed, key_row_of_seed seed k) (biometric_keys w)
  /\ Forall (sealed_question w) (security_questions w)
  /\ Forall (fun q => vottery_security_questions.id q < next_question_id w)
       (security_questions w).

(** One call of the controller; a user is enrolled once, and answers are
    binary-encoded strings. *)
Inductive enrol_step {forge : ForgeLib} {crypto : CryptoLib} : World -> World -> Prop :=
| step_registerKeys seed userId w :
    key_row w userId = None ->
    enrol_step w (snd (registerKeys seed userId w))
| step_addSecurityQuestion seed userId question answer w :
    byte_string answer ->
    enrol_step w (snd (addSecurityQuestion seed userId question answer w))
| step_getSecurityQuestions userId w :
    enrol_step w (snd (getSecurityQuestions userId w))
| step_verifySecurityAnswers userId answers w :
    enrol_step w (snd (verifySecurityAnswers userId answers w)).

(** The stores the controller can build from empty tables. *)
Inductive enrolled {forge : ForgeLib} {crypto : CryptoLib} : World -> Prop :=
| enrolled_start w :
    biometric_keys w = [] -> security_questions w = [] -> enrolled w
| enrolled_step w w' : enrolled w -> enrol_step w w' -> enrolled w'.

(** ** Vocabulary for the effects on one row *)

(** Two rows that agree on every column but [last_activity]. *)
Definition same_but_last_activity (old new : vottery_sessions.row) : Prop :=
  vottery_sessions.id new = vottery_sessions.id old
  /\ vottery_sessions.user_id new = vottery_sessions.user_id old
  /\ vottery_sessions.session_token new = vottery_sessions.session_token old
  /\ vottery_sessions.refresh_token new = vottery_sessions.refresh_token old
  /\ vottery_sessions.jwt_token_id new = vottery_sessions.jwt_token_id old
  /\ vottery_sessions.device_id new = vottery_sessions.device_id old
  /\ vottery_sessions.ip_address new = vottery_sessions.ip_address old
  /\ vottery_sessions.user_agent new = vottery_sessions.user_agent old
  /\ vottery_sessions.user_type new = vottery_sessions.user_type old
  /\ vottery_sessions.admin_role new = vottery_sessions.admin_role old
  /\ vottery_sessions.is_active new = vottery_sessions.is_active old
  /\ vottery_sessions.created_at new = vottery_sessions.created_at old
  /\ vottery_sessions.expires_at new = vottery_sessions.expires_at old
  /\ vottery_sessions.refresh_expires_at new = vottery_sessions.refresh_expires_at old.

(** Two rows that agree on the columns a rotation does not set. *)
Definition same_session (old new : vottery_sessions.row) : Prop :=
  vottery_sessions.id new = vottery_sessions.id old
  /\ vottery_sessions.user_id new = vottery_sessions.user_id old
  /\ vottery_sessions.device_id new = vottery_sessions.device_id old
  /\ vottery_sessions.ip_address new = vottery_sessions.ip_address old
  /\ vottery_sessions.user_agent new = vottery_sessions.user_agent old
  /\ vottery_sessions.user_type new = vottery_sessions.user_type old
  /\ vottery_sessions.admin_role new = vottery_sessions.admin_role old
  /\ vottery_sessions.is_active new = vottery_sessions.is_active old
  /\ vottery_sessions.created_at new = vottery_sessions.created_at old.

(** ** Numbers and timestamps within the range of the platform *)

(** The number a string of decimal digits denotes, digit by digit with its
    power of ten. *)
Fixpoint decimal_value (digits : JsString) : Z :=
  match digits with
  | [] => 0
  | c :: rest => (c - 48) * 10 ^ Z.of_nat (length rest) + decimal_value rest
  end.

(** The integers a JavaScript number holds exactly. *)
Definition MAX_SAFE_INTEGER : Z := 2 ^ 53 - 1.

(** The first instant past PostgreSQL's timestamps (the start of the year
    294277), in microseconds since 2000-01-01. *)
Definition END_TIMESTAMP : Z := 9223371331200000000.

(** The store computes [NOW() + n * INTERVAL '1 second'] as the model does,
    [now + seconds n], when instants are counted in microseconds since
    2000-01-01, the interval is a whole number of microseconds that a
    double holds exactly, and the sum is a timestamp.  Beyond that the
    store rounds the interval, or raises "interval out of range" or
    "timestamp out of range". *)
Definition store_computes (now n : Z) : Prop :=
  0 <= n /\ seconds n <= MAX_SAFE_INTEGER /\ 0 <= now /\ now + seconds n < END_TIMESTAMP.

(* ================================================================== *)
(** * Part II.  Properties                                              *)
(* ================================================================== *)

(** ** Strings *)

(** *** Bytes and hexadecimal *)

Ltac zbool :=
  repeat match goal with
         | |- context [?a <=? ?b] => destruct (Z.leb_spec a b)
         | |- context [?a <? ?b] => destruct (Z.ltb_spec a b)
         | |- context [?a =? ?b] => destruct (Z.eqb_spec a b)
         end; simpl; try lia.

Lemma Z_of_byte_range b : 0 <= Z_of_byte b < 256.
Proof.
  unfold Z_of_byte. pose proof (Byte.to_N_bounded b). lia.
Qed.

Lemma byte_of_Z_of_byte b : byte_of_Z (Z_of_byte b) = b.
Proof.
  unfold byte_of_Z. rewrite Z.mod_small by apply Z_of_byte_range.
  unfold Z_of_byte. now rewrite N2Z.id, Byte.of_to_N.
Qed.

Lemma Z_of_byte_of_Z z : 0 <= z < 256 -> Z_of_byte (byte_of_Z z) = z.
Proof.
  intros Hz. unfold byte_of_Z, Z_of_byte. rewrite Z.mod_small by exact Hz.
  destruct (Byte.of_N (Z.to_N z)) as [b|] eqn:Hb.
  - apply Byte.to_of_N in Hb. rewrite Hb. lia.
  - apply Byte.of_N_None_iff in Hb. lia.
Qed.

Lemma hex_value_digit d : 0 <= d < 16 -> hex_value (hex_digit d) = Some d.
Proof.
  intros Hd. unfold hex_value, hex_digit.
  destruct (Z.ltb_spec d 10); zbool; f_equal; lia.
Qed.

Lemma hex_digit_not_colon d : 0 <= d < 16 -> hex_digit d <> 58.
Proof. intros Hd. unfold hex_digit. destruct (Z.ltb_spec d 10); lia. Qed.

Lemma hex_decode_encode b : hex_decode (hex_encode b) = b.
Proof.
  induction b as [|x b IH]; [reflexivity|].
  pose proof (Z_of_byte_range x) as Hx.
  cbn [hex_encode flat_map app hex_decode].
  rewrite !hex_value_digit
    by (try apply Z.mod_pos_bound; try (split; [apply Z.div_pos|apply Z.div_lt_upper_bound]); lia).
  fold (hex_encode b). rewrite IH. f_equal.
  rewrite <- Z.div_mod by lia. apply byte_of_Z_of_byte.
Qed.

Lemma hex_encode_even b : Nat.even (length (hex_encode b)) = true.
Proof. induction b as [|x b IH]; [reflexivity|exact IH]. Qed.

Lemma hex_encode_no_colon b : includes 58 (hex_encode b) = false.
Proof.
  induction b as [|x b IH]; [reflexivity|].
  pose proof (Z_of_byte_range x) as Hx.
  cbn [hex_encode flat_map app includes existsb].
  fold (hex_encode b). fold (includes 58 (hex_encode b)). rewrite IH.
  assert (H1 : hex_digit (Z_of_byte x / 16) <> 58)
    by (apply hex_digit_not_colon; split; [apply Z.div_pos|apply Z.div_lt_upper_bound]; lia).
  assert (H2 : hex_digit (Z_of_byte x mod 16) <> 58)
    by (apply hex_digit_not_colon, Z.mod_pos_bound; lia).
  destruct (Z.eqb_spec 58 (hex_digit (Z_of_byte x / 16))); [congruence|].
  destruct (Z.eqb_spec 58 (hex_digit (Z_of_byte x mod 16))); [congruence|].
  reflexivity.
Qed.

(** *** [split] and [includes] *)

Lemma split_on_no_sep sep s : includes sep s = false -> split_on sep s = [s].
Proof.
  induction s as [|c s IH]; [reflexivity|].
  cbn [includes existsb split_on]. intros H. apply orb_false_iff in H as [Hc Hs].
  rewrite Z.eqb_sym, Hc. fold (includes sep s) in Hs. now rewrite (IH Hs).
Qed.

Lemma split_on_app sep a rest :
  includes sep a = false ->
  split_on sep (a ++ sep :: rest) = a :: split_on sep rest.
Proof.
  induction a as [|c a IH]; intros H.
  - cbn [app split_on]. now rewrite Z.eqb_refl.
  - cbn [includes existsb] in H. apply orb_false_iff in H as [Hc Ha].
    cbn [app split_on]. rewrite Z.eqb_sym, Hc.
    fold (includes sep a) in Ha. now rewrite (IH Ha).
Qed.

Lemma includes_app_sep sep a rest : includes sep (a ++ sep :: rest) = true.
Proof.
  unfold includes. rewrite existsb_app. cbn [existsb]. rewrite Z.eqb_refl.
  now rewrite orb_true_r.
Qed.

Lemma split_envelope iv authTag encrypted :
  split_on 58 (hex_encode iv ++ js ":" ++ hex_encode authTag ++ js ":" ++ hex_encode encrypted)
  = [hex_encode iv; hex_encode authTag; hex_encode encrypted].
Proof.
  change (js ":") with [58]. cbn [app].
  rewrite split_on_app by apply hex_encode_no_colon.
  rewrite split_on_app by apply hex_encode_no_colon.
  now rewrite split_on_no_sep by apply hex_encode_no_colon.
Qed.

(** *** [trim] *)

Lemma trim_start_head s :
  match s with [] => True | c :: _ => is_js_space c = false end ->
  trim_start s = s.
Proof. destruct s as [|c s]; [reflexivity|]. simpl. now intros ->. Qed.

Lemma trim_no_space s :
  Forall (fun c => is_js_space c = false) s -> trim s = s.
Proof.
  intros Hs. unfold trim.
  rewrite (trim_start_head s) by (destruct Hs; auto).
  rewrite (trim_start_head (rev s)).
  - apply rev_involutive.
  - apply Forall_rev in Hs. destruct Hs; auto.
Qed.

Example split_on_samples :
  split_on 32 (js "Bearer abc") = [js "Bearer"; js "abc"]
  /\ split_on 32 (js "Bearer  abc") = [js "Bearer"; []; js "abc"]
  /\ split_on 32 (js "Bearer") = [js "Bearer"]
  /\ split_on 32 [] = [[]]
  /\ split_on 58 (js "a:b:c:d") = [js "a"; js "b"; js "c"; js "d"].
Proof. repeat split; reflexivity. Qed.

Example trim_samples :
  trim (js "  abc ") = js "abc" /\ trim ([9; 10] ++ js "a b" ++ [160; 65279]) = js "a b".
Proof. split; reflexivity. Qed.

Example hex_samples :
  hex_encode [Byte.x00; Byte.xff; Byte.x2a] = js "00ff2a"
  /\ hex_decode (js "00FF2a") = [Byte.x00; Byte.xff; Byte.x2a]
  /\ hex_decode (js "2azz") = [Byte.x2a]
  /\ hex_decode (js "2a7") = [Byte.x2a]
  /\ hex_decode (js "zz") = [].
Proof. repeat split; reflexivity. Qed.

Example parseExpiryToSeconds_samples :
  parseExpiryToSeconds (js "1m") = inr 60
  /\ parseExpiryToSeconds (js "45s") = inr 45
  /\ parseExpiryToSeconds (js "2h") = inr 7200
  /\ parseExpiryToSeconds (js "7d") = inr 604800
  /\ parseExpiryToSeconds (js "10") = inl (Error (js "Invalid expiry format: 10"))
  /\ parseExpiryToSeconds (js "m") = inl (Error (js "Invalid expiry format: m"))
  /\ parseExpiryToSeconds (js "1w") = inl (Error (js "Invalid expiry format: 1w"))
  /\ parseExpiryToSeconds (js " 1m") = inl (Error (js "Invalid expiry format:  1m"))
  /\ parseExpiryToSeconds [] = inl (Error (js "Invalid expiry format: ")).
Proof. repeat split; reflexivity. Qed.

(** ** Running the monad *)

Lemma bind_inr {A B} (m : M A) (k : A -> M B) w a w' :
  m w = (inr a, w') -> bind m k w = k a w'.
Proof. intros H. unfold bind. now rewrite H. Qed.

Lemma bind_inl {A B} (m : M A) (k : A -> M B) w e w' :
  m w = (inl e, w') -> bind m k w = (inl e, w').
Proof. intros H. unfold bind. now rewrite H. Qed.

Lemma lib_not_Error {A} (r : LibResult A) m : lib r <> inl (Error m).
Proof. destruct r as [[n m']|a]; simpl; congruence. Qed.

(** ** The session store *)

Section SessionFacts.
Context {jwt : JwtLib}.
Variable env : ProcessEnv.

Lemma rotate_no_match clock ent rt dev w :
  filter (active_refresh_match rt dev (clock 0%nat)) (sessions w) = [] ->
  rotateRefreshToken env clock ent rt dev w
  = (inl RefreshTokenInvalid, logged Select T_sessions w).
Proof.
  intros H. unfold rotateRefreshToken, select_session_by_refresh, bind, logq, logged.
  simpl. rewrite H. reflexivity.
Qed.

Lemma rotate_match clock ent rt dev w s rest :
  filter (active_refresh_match rt dev (clock 0%nat)) (sessions w) = s :: rest ->
  rotateRefreshToken env clock ent rt dev w
  = match generateAccessToken env (clock 1%nat) (rotation_claims s) with
    | inl e => (inl e, logged Select T_sessions w)
    | inr tok =>
        match parseExpiryToSeconds (ACCESS_TOKEN_EXPIRY env) with
        | inl e => (inl e, logged Select T_sessions w)
        | inr a =>
            match parseExpiryToSeconds (REFRESH_TOKEN_EXPIRY env) with
            | inl e => (inl e, logged Select T_sessions w)
            | inr r =>
                (inr (Tokens.mk tok (generateRefreshToken ent)),
                 set_sessions
                   (update_where
                      (fun x => vottery_sessions.id x = vottery_sessions.id s)
                      (rotated tok (generateRefreshToken ent) (randomUUID ent) a r (clock 2%nat)))
                   (logged Update T_sessions (logged Select T_sessions w)))
            end
        end
    end.
Proof.
  intros H.
  unfold rotateRefreshToken, select_session_by_refresh, update_session_rotate,
    bind, logq, logged, lift, ret.
  simpl. rewrite H. fold (rotation_claims s).
  destruct (generateAccessToken env (clock 1%nat) (rotation_claims s)) as [e|tok]; [reflexivity|].
  destruct (parseExpiryToSeconds (ACCESS_TOKEN_EXPIRY env)) as [e|a]; [reflexivity|].
  destruct (parseExpiryToSeconds (REFRESH_TOKEN_EXPIRY env)) as [e|r]; reflexivity.
Qed.

Lemma parseExpiry_not_RefreshTokenInvalid expiry :
  parseExpiryToSeconds expiry <> inl RefreshTokenInvalid.
Proof.
  unfold parseExpiryToSeconds, RefreshTokenInvalid.
  assert (Hne : forall x : Result Z,
             x = inl (Error (js "Invalid expiry format: " ++ expiry)) ->
             x <> inl (Error (js "Invalid or expired refresh token"))).
  { intros x -> H. injection H as H. vm_compute in H. discriminate. }
  destruct (rev expiry) as [|unit rdigits]; [now apply Hne|].
  repeat match goal with
         | |- context [if ?b then _ else _] => destruct b
         end; try (now apply Hne); discriminate.
Qed.


Lemma filter_nil_iff_none {A} (P : A -> Prop) `{forall x, Decision (P x)} (l : list A) :
  filter P l = [] <-> (forall x, In x l -> ~ P x).
Proof.
  induction l as [|a l IH]; simpl.
  - split; [intros _ x []|reflexivity].
  - rewrite filter_cons. destruct (decide (P a)) as [Ha|Ha].
    + split; [discriminate|]. intros Hall. exfalso. apply (Hall a); auto.
    + rewrite IH. split.
      * intros Hall x [<-|Hx]; auto.
      * intros Hall x Hx. apply Hall. auto.
Qed.

Lemma filter_head_In {A} (P : A -> Prop) `{forall x, Decision (P x)} (l : list A) s rest :
  filter P l = s :: rest -> In s l /\ P s.
Proof.
  intros Hf.
  assert (Hin : s ∈ filter P l) by (rewrite Hf; left).
  apply list_elem_of_filter in Hin as [HP Hin].
  split; [now apply list_elem_of_In|assumption].
Qed.

Lemma update_where_Forall2 {A} (cond : A -> Prop) `{forall x, Decision (cond x)}
    (f : A -> A) (l : list A) :
  Forall2 (fun old new => new = old \/ (cond old /\ new = f old)) l (update_where cond f l).
Proof.
  induction l as [|a l IH]; simpl; constructor; [|exact IH].
  destruct (decide (cond a)); auto.
Qed.

Lemma update_where_cases {A} (cond : A -> Prop) `{forall x, Decision (cond x)}
    (f : A -> A) (l : list A) :
  Forall2 (fun old new => (~ cond old /\ new = old) \/ (cond old /\ new = f old))
    l (update_where cond f l).
Proof.
  induction l as [|a l IH]; simpl; constructor; [|exact IH].
  destruct (decide (cond a)); auto.
Qed.

Lemma update_where_In {A} (cond : A -> Prop) `{forall x, Decision (cond x)}
    (f : A -> A) (l : list A) x :
  In x l -> cond x -> In (f x) (update_where cond f l).
Proof.
  intros Hin Hc. unfold update_where. apply in_map_iff. exists x.
  split; [|assumption]. destruct (decide (cond x)); [reflexivity|contradiction].
Qed.

Lemma update_where_Forall {A} (P : A -> Prop) (cond : A -> Prop)
    `{forall x, Decision (cond x)} (f : A -> A) (l : list A) :
  (forall x, P x -> P (f x)) -> Forall P l -> Forall P (update_where cond f l).
Proof.
  intros Hf Hl. unfold update_where. induction Hl as [|a l Ha Hl IH]; simpl; constructor; auto.
  destruct (decide (cond a)); auto.
Qed.

(** The outcome of a rotation, case by case. *)
Lemma rotate_outcome clock ent rt dev w :
  (filter (active_refresh_match rt dev (clock 0%nat)) (sessions w) = []
   /\ rotateRefreshToken env clock ent rt dev w
      = (inl RefreshTokenInvalid, logged Select T_sessions w))
  \/ (exists s rest e,
        filter (active_refresh_match rt dev (clock 0%nat)) (sessions w) = s :: rest
        /\ e <> RefreshTokenInvalid
        /\ rotateRefreshToken env clock ent rt dev w = (inl e, logged Select T_sessions w))
  \/ (exists s rest tok a r,
        filter (active_refresh_match rt dev (clock 0%nat)) (sessions w) = s :: rest
        /\ generateAccessToken env (clock 1%nat) (rotation_claims s) = inr tok
        /\ parseExpiryToSeconds (ACCESS_TOKEN_EXPIRY env) = inr a
        /\ parseExpiryToSeconds (REFRESH_TOKEN_EXPIRY env) = inr r
        /\ rotateRefreshToken env clock ent rt dev w
           = (inr (Tokens.mk tok (generateRefreshToken ent)),
              set_sessions
                (update_where
                   (fun x => vottery_sessions.id x = vottery_sessions.id s)
                   (rotated tok (generateRefreshToken ent) (randomUUID ent) a r (clock 2%nat)))
                (logged Update T_sessions (logged Select T_sessions w)))).
Proof.
  destruct (filter (active_refresh_match rt dev (clock 0%nat)) (sessions w)) as [|s rest] eqn:Hf.
  - left. split; [reflexivity|]. now apply rotate_no_match.
  - right. rewrite (rotate_match _ _ _ _ _ _ _ Hf).
    destruct (generateAccessToken env (clock 1%nat) (rotation_claims s)) as [e|tok] eqn:Hg.
    { left. exists s, rest, e. repeat split.
      unfold generateAccessToken in Hg. intros ->. now apply lib_not_Error in Hg. }
    destruct (parseExpiryToSeconds (ACCESS_TOKEN_EXPIRY env)) as [e|a] eqn:Ha.
    { left. exists s, rest, e. repeat split.
      intros ->. now apply parseExpiry_not_RefreshTokenInvalid in Ha. }
    destruct (parseExpiryToSeconds (REFRESH_TOKEN_EXPIRY env)) as [e|r] eqn:Hr.
    { left. exists s, rest, e. repeat split.
      intros ->. now apply parseExpiry_not_RefreshTokenInvalid in Hr. }
    right. exists s, rest, tok, a, r. repeat split; try assumption; reflexivity.
Qed.

(** C2.  [rotateRefreshToken] fails with "Invalid or expired refresh token"
    exactly when no active, unexpired session row matches the refresh token
    and the device id.  A wrong refresh token, a wrong device id and an
    expired session each give this same error and the same store, so the
    caller cannot tell them apart. *)
Theorem rotate_invalid_iff_no_match clock ent rt dev w :
  (fst (rotateRefreshToken env clock ent rt dev w) = inl RefreshTokenInvalid
   <-> (forall s, In s (sessions w) -> ~ active_refresh_match rt dev (clock 0%nat) s))
  /\ ((forall s, In s (sessions w) -> rt <> Some (vottery_sessions.refresh_token s)) ->
      rotateRefreshToken env clock ent rt dev w
      = (inl RefreshTokenInvalid, logged Select T_sessions w))
  /\ ((forall s, In s (sessions w) -> dev = None \/ dev <> vottery_sessions.device_id s) ->
      rotateRefreshToken env clock ent rt dev w
      = (inl RefreshTokenInvalid, logged Select T_sessions w))
  /\ ((forall s, In s (sessions w) -> vottery_sessions.refresh_expires_at s <= clock 0%nat) ->
      rotateRefreshToken env clock ent rt dev w
      = (inl RefreshTokenInvalid, logged Select T_sessions w)).
Proof.
  assert (Hnone : (forall s, In s (sessions w) -> ~ active_refresh_match rt dev (clock 0%nat) s) ->
                  rotateRefreshToken env clock ent rt dev w
                  = (inl RefreshTokenInvalid, logged Select T_sessions w)).
  { intros Hall. apply rotate_no_match. now apply (proj2 (filter_nil_iff_none _ _)). }
  split; [|split; [|split]].
  - split.
    + intros Hfst. apply (proj1 (filter_nil_iff_none _ _)).
      destruct (rotate_outcome clock ent rt dev w)
        as [[Hf _]|[(s & rest & e & _ & Hne & Heq)|(s & rest & tok & a & r & _ & _ & _ & _ & Heq)]].
      * exact Hf.
      * rewrite Heq in Hfst. simpl in Hfst. congruence.
      * rewrite Heq in Hfst. discriminate.
    + intros Hall. now rewrite Hnone.
  - intros Hall. apply Hnone. intros s Hin (Hrt & _). now apply (Hall s).
  - intros Hall. apply Hnone. intros s Hin (_ & (d & Hd & Hs) & _).
    destruct (Hall s Hin) as [Hn|Hn]; congruence.
  - intros Hall. apply Hnone. intros s Hin (_ & _ & _ & Hlt).
    specialize (Hall s Hin). lia.
Qed.

(** C3.  A rotation is all or nothing on the session table.  When it
    fails, the table is as it was.  When it returns, it returns the access
    token it has just signed for the matched row together with the refresh
    token it has just drawn, and one UPDATE has written both: every row
    with the id of the matched row carries the two returned tokens and is
    otherwise the same session, every other row is untouched, and the
    matched row is among the rows written.  No row carries one of the two
    without the other. *)
Theorem rotation_atomic clock ent rt dev w :
  (forall e w', rotateRefreshToken env clock ent rt dev w = (inl e, w') ->
                sessions w' = sessions w)
  /\ (forall t w',
        rotateRefreshToken env clock ent rt dev w = (inr t, w') ->
        exists s,
          head (filter (active_refresh_match rt dev (clock 0%nat)) (sessions w)) = Some s
          /\ generateAccessToken env (clock 1%nat) (rotation_claims s)
             = inr (Tokens.accessToken t)
          /\ Tokens.refreshToken t = generateRefreshToken ent
          /\ Forall2
               (fun old new =>
                  (vottery_sessions.id old <> vottery_sessions.id s /\ new = old)
                  \/ (vottery_sessions.id old = vottery_sessions.id s
                      /\ vottery_sessions.session_token new = Tokens.accessToken t
                      /\ vottery_sessions.refresh_token new = Tokens.refreshToken t
                      /\ same_session old new))
               (sessions w) (sessions w')
          /\ Exists (fun x => vottery_sessions.id x = vottery_sessions.id s
                              /\ vottery_sessions.session_token x = Tokens.accessToken t
                              /\ vottery_sessions.refresh_token x = Tokens.refreshToken t)
               (sessions w')).
Proof.
  destruct (rotate_outcome clock ent rt dev w)
    as [[_ Heq]|[(s & rest & e & _ & _ & Heq)|(s & rest & tok & a & r & Hf & Hsign & _ & _ & Heq)]];
    rewrite Heq; (split; [intros e' w' Hrun|intros t w' Hrun]);
    try discriminate; try (now injection Hrun as _ <-).
  injection Hrun as <- <-. exists s. rewrite Hf. cbn [Tokens.accessToken Tokens.refreshToken].
  split; [reflexivity|]. split; [exact Hsign|]. split; [reflexivity|]. split.
  - cbn. eapply Forall2_impl; [apply update_where_cases|].
    intros old new [[Hid ->]|[Hid ->]]; [now left|right].
    cbn. unfold same_session. cbn. repeat split; assumption || reflexivity.
  - apply Exists_exists.
    destruct (filter_head_In _ _ _ _ Hf) as [Hin _].
    eexists. split.
    + apply list_elem_of_In. cbn. apply update_where_In; [exact Hin|reflexivity].
    + cbn. repeat split.
Qed.

(** C4 (as amended).  On a successful rotation the new access token is
    signed over the user id of the matched session row, its stored user
    type, or "voter" when that is null or empty, and its stored admin
    role, or "analyst" when that is null or empty.  Where both are stored
    and non-empty these are the stored snapshot itself.  The user table is
    neither queried nor consulted. *)
Theorem rotation_claims_from_session clock ent rt dev w t w' :
  rotateRefreshToken env clock ent rt dev w = (inr t, w') ->
  exists s,
    head (filter (active_refresh_match rt dev (clock 0%nat)) (sessions w)) = Some s
    /\ generateAccessToken env (clock 1%nat) (rotation_claims s) = inr (Tokens.accessToken t)
    /\ (truthy_str (vottery_sessions.user_type s) = true ->
        truthy_str (vottery_sessions.admin_role s) = true ->
        rotation_claims s = snapshot_claims s)
    /\ qlog w' = qlog w ++ [(Select, T_sessions); (Update, T_sessions)]
    /\ (forall u, fst (rotateRefreshToken env clock ent rt dev (with_users u w)) = inr t).
Proof.
  intros Hrot.
  destruct (rotate_outcome clock ent rt dev w)
    as [[_ Heq]|[(s & rest & e & _ & _ & Heq)|(s & rest & tok & a & r & Hf & Hg & Ha & Hr & Heq)]];
    rewrite Heq in Hrot; try discriminate.
  injection Hrot as <- <-.
  exists s. rewrite Hf. repeat split.
  - exact Hg.
  - unfold rotation_claims, snapshot_claims.
    destruct (vottery_sessions.user_type s) as [[|c l]|]; try discriminate.
    destruct (vottery_sessions.admin_role s) as [[|c' l']|]; try discriminate.
    reflexivity.
  - simpl. now rewrite <- app_assoc.
  - intros u.
    assert (Hf' : filter (active_refresh_match rt dev (clock 0%nat)) (sessions (with_users u w)) = s :: rest)
      by exact Hf.
    rewrite (rotate_match _ _ _ _ _ _ _ Hf'), Hg, Ha, Hr. reflexivity.
Qed.

Lemma createSession_keeps_order now ent uid access refresh dev ip ua w :
  lifetimes_ordered env ->
  Forall expiry_ordered (sessions w) ->
  Forall expiry_ordered
    (sessions (snd (createSession env now ent uid access refresh dev ip ua w))).
Proof.
  intros Hord Hw.
  unfold createSession, select_user_role, insert_session, bind, lift, logq, throw, ret.
  destruct (parseExpiryToSeconds (ACCESS_TOKEN_EXPIRY env)) as [e|a] eqn:Ha; [exact Hw|].
  destruct (parseExpiryToSeconds (REFRESH_TOKEN_EXPIRY env)) as [e|r] eqn:Hr; [exact Hw|].
  simpl.
  destruct (filter _ (users w)) as [|u us]; simpl; [exact Hw|].
  apply Forall_app. split; [exact Hw|].
  constructor; [|constructor].
  unfold expiry_ordered, seconds. simpl. specialize (Hord a r Ha Hr). lia.
Qed.

Lemma rotate_keeps_order clock ent rt dev w :
  lifetimes_ordered env ->
  Forall expiry_ordered (sessions w) ->
  Forall expiry_ordered (sessions (snd (rotateRefreshToken env clock ent rt dev w))).
Proof.
  intros Hord Hw.
  destruct (rotate_outcome clock ent rt dev w)
    as [[_ Heq]|[(s & rest & e & _ & _ & Heq)|(s & rest & tok & a & r & _ & _ & Ha & Hr & Heq)]];
    rewrite Heq; try exact Hw.
  simpl. apply update_where_Forall; [|exact Hw].
  intros x _. unfold expiry_ordered, rotated, seconds. simpl.
  specialize (Hord a r Ha Hr). lia.
Qed.

Lemma deactivate_keeps_order (cond : vottery_sessions.row -> Prop)
    `{forall x, Decision (cond x)} l :
  Forall expiry_ordered l -> Forall expiry_ordered (update_where cond deactivated l).
Proof. apply update_where_Forall. intros x Hx. exact Hx. Qed.

End SessionFacts.

(** ** The authentication gate *)

Section AuthFacts.
Context {jwt : JwtLib}.
Variable env : ProcessEnv.

Lemma Forall_list_match {A} (P : A -> Prop) `{forall x, Decision (P x)} (l : list A) x :
  In x l -> P x -> filter P l <> [].
Proof.
  intros Hin HP Hnil.
  pose proof (proj1 (filter_nil_iff_none P l) Hnil) as Hall. now apply (Hall x).
Qed.

(** A token without white space, presented as [Authorization: Bearer
    token], is the token the gate reads. *)
Lemma bearer_token_presented token body :
  Forall (fun c => is_js_space c = false) token ->
  bearer_token (mkRequest {[ "authorization"%string := js "Bearer " ++ token ]} body)
  = Some token.
Proof.
  intros Htok. unfold bearer_token. cbn [headers].
  rewrite lookup_singleton_eq. cbn [mbind option_bind].
  change (js "Bearer " ++ token) with (js "Bearer" ++ 32 :: token).
  rewrite split_on_app by reflexivity.
  rewrite split_on_no_sep.
  - cbn [lookup list_lookup fmap option_fmap option_map]. now rewrite trim_no_space.
  - unfold includes. apply not_true_is_false. intros Hex.
    apply existsb_exists in Hex as (c & Hin & Hc). apply Z.eqb_eq in Hc. subst c.
    rewrite List.Forall_forall in Htok. specialize (Htok _ Hin). discriminate.
Qed.

(** C1.  A request whose bearer token verifies, and for which the session
    table holds an active, unexpired row with that token, passes the gate:
    [next()] is reached with [req.user] equal to the claims decoded from
    the token and no rotation flagged.  The gate has read the session
    table once and updated it once: every row that carries the token has
    its [last_activity] set to the instant of the update and no other
    column changed, there is such a row, and every other row is
    untouched.  No response header is set. *)
Theorem authenticate_valid_token clock ent req w tok claims s :
  bearer_token req = Some tok ->
  tok <> [] ->
  verifyAccessToken env (clock 0%nat) tok = inr claims ->
  In s (sessions w) ->
  active_token_match tok (clock 5%nat) s ->
  authenticateToken env clock ent req w
  = (inr (Next claims false),
     set_sessions
       (update_where (fun x => vottery_sessions.session_token x = tok)
          (touched (clock 6%nat)))
       (logged Update T_sessions (logged Select T_sessions w)))
  /\ Forall2
       (fun old new =>
          (vottery_sessions.session_token old <> tok /\ new = old)
          \/ (vottery_sessions.session_token old = tok
              /\ vottery_sessions.last_activity new = clock 6%nat
              /\ same_but_last_activity old new))
       (sessions w) (sessions (snd (authenticateToken env clock ent req w)))
  /\ Exists (fun x => vottery_sessions.session_token x = tok
                      /\ vottery_sessions.last_activity x = clock 6%nat)
       (sessions (snd (authenticateToken env clock ent req w)))
  /\ qlog (snd (authenticateToken env clock ent req w))
     = qlog w ++ [(Select, T_sessions); (Update, T_sessions)]
  /\ res_headers (snd (authenticateToken env clock ent req w)) = res_headers w.
Proof.
  intros Hb Hne Hv Hin Hact.
  assert (Hrun : authenticateToken env clock ent req w
                 = (inr (Next claims false),
                    set_sessions
                      (update_where (fun x => vottery_sessions.session_token x = tok)
                         (touched (clock 6%nat)))
                      (logged Update T_sessions (logged Select T_sessions w)))).
  { destruct tok as [|c t]; [congruence|].
    unfold authenticateToken, try_catch, bind. rewrite Hb, Hv.
    unfold ret at 1. cbv beta iota.
    unfold select_session_by_token, update_last_activity, bind, logq, ret, logged.
    simpl.
    destruct (filter (active_token_match (c :: t) (clock 5%nat)) (sessions w))
      as [|s' rest] eqn:Hf.
    - exfalso. now apply (Forall_list_match _ _ _ Hin Hact).
    - destruct claims. reflexivity. }
  rewrite Hrun. split; [reflexivity|]. cbn. split; [|split; [|split]].
  - eapply Forall2_impl; [apply update_where_cases|].
    intros old new [[Hne' ->]|[Heq ->]]; [now left|right].
    split; [exact Heq|]. split; [reflexivity|].
    unfold same_but_last_activity. cbn. repeat split.
  - apply Exists_exists. exists (touched (clock 6%nat) s). split.
    + apply list_elem_of_In. apply update_where_In; [exact Hin|apply Hact].
    + cbn. split; [apply Hact|reflexivity].
  - rewrite <- app_assoc. reflexivity.
  - reflexivity.
Qed.

(** C6.  A request whose bearer token fails verification with
    [TokenExpiredError], and which carries no refresh token or no device
    id, is answered 401 with code [TOKEN_EXPIRED_NO_REFRESH]; the world is
    left exactly as it was: no query is issued, no rotation is attempted,
    no header is set. *)
Theorem expired_without_refresh clock ent req w tok e :
  bearer_token req = Some tok ->
  tok <> [] ->
  verifyAccessToken env (clock 0%nat) tok = inl e ->
  err_name e = js "TokenExpiredError" ->
  truthy_str (request_refresh_token req) = false
  \/ truthy_str (request_device_id req) = false ->
  authenticateToken env clock ent req w
  = (inr (Respond 401
            (js "Access token expired, refresh token and device ID required")
            (js "TOKEN_EXPIRED_NO_REFRESH")),
     w).
Proof.
  intros Hb Hne Hv Hname Habsent.
  destruct tok as [|c t]; [congruence|].
  unfold authenticateToken, try_catch, bind. rewrite Hb, Hv, Hname.
  rewrite bool_decide_eq_true_2 by reflexivity.
  assert (Hor : negb (truthy_str (request_refresh_token req))
                || negb (truthy_str (request_device_id req)) = true).
  { destruct Habsent as [-> | ->]; simpl; [reflexivity|apply orb_true_r]. }
  rewrite Hor. reflexivity.
Qed.

(** The gate always ends in a response or in [next()]; no exception leaves
    it. *)
Lemma authenticateToken_never_throws clock ent req w :
  exists r, fst (authenticateToken env clock ent req w) = inr r.
Proof.
  unfold authenticateToken, try_catch.
  match goal with
  | |- context [match ?m w with _ => _ end] => destruct (m w) as [[e|r] w1]
  end; eauto.
Qed.

(** The refresh path: an expired token with a refresh token and a device
    id that rotate, a new token that verifies and whose session row is
    current.  The new pair is put on the response headers and the rotation
    is flagged. *)
Lemma authenticate_after_rotation clock ent req w tok e t w1 claims :
  bearer_token req = Some tok ->
  tok <> [] ->
  verifyAccessToken env (clock 0%nat) tok = inl e ->
  err_name e = js "TokenExpiredError" ->
  truthy_str (request_refresh_token req) = true ->
  truthy_str (request_device_id req) = true ->
  rotateRefreshToken env (later 1 clock) ent
    (request_refresh_token req) (request_device_id req) w
  = (inr t, w1) ->
  verifyAccessToken env (clock 4%nat) (Tokens.accessToken t) = inr claims ->
  filter (active_token_match (Tokens.accessToken t) (clock 5%nat)) (sessions w1) <> [] ->
  authenticateToken env clock ent req w
  = (inr (Next claims true),
     set_sessions
       (update_where
          (fun x => vottery_sessions.session_token x = Tokens.accessToken t)
          (touched (clock 6%nat)))
       (logged Update T_sessions
          (logged Select T_sessions
             (snd (setHeader "x-refresh-token" (Tokens.refreshToken t)
                     (snd (setHeader "x-access-token" (Tokens.accessToken t) w1))))))).
Proof.
  intros Hb Hne Hv Hname Hrt Hdev Hrot Hv' Hrows.
  destruct tok as [|c tl]; [congruence|].
  unfold authenticateToken, try_catch, bind. rewrite Hb, Hv, Hname.
  rewrite bool_decide_eq_true_2 by reflexivity.
  rewrite Hrt, Hdev. cbn [negb orb]. rewrite Hrot.
  unfold setHeader, lift, ret. cbn [fst snd]. rewrite Hv'.
  unfold select_session_by_token, update_last_activity, bind, logq, logged. simpl.
  simpl in Hrows.
  destruct (filter _ (sessions w1)) as [|s rest]; [congruence|].
  destruct claims. reflexivity.
Qed.

(** What the session check and the activity update do to the table. *)
Lemma session_check_preserves (P : vottery_sessions.row -> Prop) now now' tok
    (k : M GateResult) (k' : M GateResult) w :
  (forall t x, P x -> P (touched t x)) ->
  Forall P (sessions w) ->
  (forall w0, sessions (snd (k w0)) = sessions w0) ->
  (forall w0, sessions (snd (k' w0)) = sessions w0) ->
  Forall P (sessions (snd
    ((let* sessionResult := select_session_by_token now tok in
      match sessionResult with
      | [] => k
      | _ :: _ => update_last_activity now' tok ;;; k'
      end) w))).
Proof.
  intros Ht Hw Hk Hk'.
  unfold select_session_by_token, update_last_activity, bind, logq. simpl.
  destruct (filter (active_token_match tok now) (sessions w)) as [|s rest].
  - rewrite Hk. exact Hw.
  - destruct (k' _) as [[e|a] w1] eqn:Hk1; simpl;
      change w1 with (snd (@pair (Result GateResult) World (inl e) w1)) ||
      change w1 with (snd (@pair (Result GateResult) World (inr a) w1));
      rewrite <- Hk1, Hk'; simpl; apply update_where_Forall; auto.
Qed.

Lemma authenticateToken_preserves (P : vottery_sessions.row -> Prop) clock ent req w :
  (forall t x, P x -> P (touched t x)) ->
  (forall c rt dev w0,
      Forall P (sessions w0) ->
      Forall P (sessions (snd (rotateRefreshToken env c ent rt dev w0)))) ->
  Forall P (sessions w) ->
  Forall P (sessions (snd (authenticateToken env clock ent req w))).
Proof.
  intros Ht Hrot Hw.
  unfold authenticateToken.
  set (refreshToken := request_refresh_token req).
  set (deviceId := request_device_id req).
  assert (Hcatch : forall (m : M GateResult) (h : JsError -> M GateResult) w0,
             Forall P (sessions (snd (m w0))) ->
             (forall e w1, sessions (snd (h e w1)) = sessions w1) ->
             Forall P (sessions (snd (try_catch m h w0)))).
  { intros m h w0 Hm Hh. unfold try_catch.
    destruct (m w0) as [[e|a] w1]; simpl in *; [rewrite Hh|]; exact Hm. }
  apply Hcatch; [|reflexivity].
  destruct (bearer_token req) as [[|c t]|]; try exact Hw.
  unfold bind at 1.
  destruct (verifyAccessToken env (clock 0%nat) (c :: t)) as [err|decoded].
  - destruct (bool_decide (err_name err = js "TokenExpiredError")); [|exact Hw].
    destruct (negb (truthy_str refreshToken) || negb (truthy_str deviceId)); [exact Hw|].
    unfold try_catch at 1. unfold bind at 1.
    specialize (Hrot (later 1 clock) refreshToken deviceId w Hw).
    destruct (rotateRefreshToken env (later 1 clock) ent refreshToken deviceId w)
      as [[e|tokens] w1];
      simpl in Hrot; [exact Hrot|].
    unfold setHeader, bind, lift, ret. simpl.
    destruct (verifyAccessToken env (clock 4%nat) (Tokens.accessToken tokens))
      as [e|decoded];
      simpl; [exact Hrot|].
    match goal with
    | |- context [filter ?Q ?l] => destruct (filter Q l) as [|s rest]
    end; simpl; [exact Hrot|].
    apply update_where_Forall; auto.
  - unfold ret at 1. cbv beta iota.
    apply session_check_preserves; auto.
Qed.

End AuthFacts.

(** ** The expiry invariant of the session table *)

Section ExpiryInvariant.
Context {jwt : JwtLib}.
Variable env : ProcessEnv.

Lemma store_step_keeps_order w w' :
  lifetimes_ordered env ->
  store_step env w w' ->
  Forall expiry_ordered (sessions w) ->
  Forall expiry_ordered (sessions w').
Proof.
  intros Hord Hstep Hw. destruct Hstep.
  - now apply createSession_keeps_order.
  - now apply rotate_keeps_order.
  - now apply deactivate_keeps_order.
  - now apply deactivate_keeps_order.
  - apply authenticateToken_preserves; [| |exact Hw].
    + intros t x Hx. exact Hx.
    + intros c rt dev w0 Hw0. now apply rotate_keeps_order.
Qed.

(** C7 (as amended).  When the configured access-token lifetime does not
    exceed the configured refresh-token lifetime, session creation and
    rotation keep every row's access expiry at or before its refresh
    expiry, and every session table the service reaches from one that
    satisfies this (an empty one, say) satisfies it. *)
Theorem expiry_ordered_invariant :
  lifetimes_ordered env ->
  (forall now ent uid access refresh dev ip ua w,
      Forall expiry_ordered (sessions w) ->
      Forall expiry_ordered
        (sessions (snd (createSession env now ent uid access refresh dev ip ua w))))
  /\ (forall clock ent rt dev w,
        Forall expiry_ordered (sessions w) ->
        Forall expiry_ordered (sessions (snd (rotateRefreshToken env clock ent rt dev w))))
  /\ (forall w0 w,
        Forall expiry_ordered (sessions w0) ->
        reachable env w0 w ->
        Forall expiry_ordered (sessions w)).
Proof.
  intros Hord. split; [|split].
  - intros. now apply createSession_keeps_order.
  - intros. now apply rotate_keeps_order.
  - intros w0 w Hw0 Hreach. induction Hreach as [|w w' _ IH Hstep]; [exact Hw0|].
    now apply (store_step_keeps_order w w').
Qed.

End ExpiryInvariant.

(** ** The session store and the gate on concrete requests *)

Lemma rotate_invalid_iff_no_match_witness :
  rotateRefreshToken (jwt := Sample.sample_jwt) Sample.no_env Sample.at_zero Sample.no_entropy
    (Some (js "refresh-1")) (Some (js "device-2")) Sample.world7
  = (inl RefreshTokenInvalid, logged Select T_sessions Sample.world7).
Proof.
  destruct (rotate_invalid_iff_no_match (jwt := Sample.sample_jwt) Sample.no_env Sample.at_zero
              Sample.no_entropy (Some (js "refresh-1")) (Some (js "device-2")) Sample.world7)
    as (_ & _ & Hdevice & _).
  apply Hdevice.
  intros s [<-|[]]. right. vm_compute. discriminate.
Defined.

Lemma rotation_atomic_witness :
  exists s,
    head (filter (active_refresh_match (Some (js "refresh-1")) (Some (js "device-1"))
                    (Sample.ticking 0%nat))
            (sessions Sample.world7)) = Some s
    /\ generateAccessToken (jwt := Sample.sample_jwt) Sample.no_env (Sample.ticking 1%nat)
         (rotation_claims s)
       = inr Sample.token7
    /\ hex_encode (repeat Byte.x2a 64) = generateRefreshToken Sample.no_entropy
    /\ Forall2
         (fun old new =>
            (vottery_sessions.id old <> vottery_sessions.id s /\ new = old)
            \/ (vottery_sessions.id old = vottery_sessions.id s
                /\ vottery_sessions.session_token new = Sample.token7
                /\ vottery_sessions.refresh_token new = hex_encode (repeat Byte.x2a 64)
                /\ same_session old new))
         (sessions Sample.world7)
         (sessions (snd (rotateRefreshToken (jwt := Sample.sample_jwt) Sample.no_env
                           Sample.ticking Sample.no_entropy
                           (Some (js "refresh-1")) (Some (js "device-1")) Sample.world7)))
    /\ Exists (fun x => vottery_sessions.id x = vottery_sessions.id s
                        /\ vottery_sessions.session_token x = Sample.token7
                        /\ vottery_sessions.refresh_token x = hex_encode (repeat Byte.x2a 64))
         (sessions (snd (rotateRefreshToken (jwt := Sample.sample_jwt) Sample.no_env
                           Sample.ticking Sample.no_entropy
                           (Some (js "refresh-1")) (Some (js "device-1")) Sample.world7))).
Proof.
  destruct (rotation_atomic (jwt := Sample.sample_jwt) Sample.no_env Sample.ticking
              Sample.no_entropy (Some (js "refresh-1")) (Some (js "device-1")) Sample.world7)
    as [_ Hreturned].
  apply (Hreturned (Tokens.mk Sample.token7 (hex_encode (repeat Byte.x2a 64)))).
  vm_compute. reflexivity.
Defined.

Example rotate_sample :
  fst (rotateRefreshToken (jwt := Sample.sample_jwt) Sample.no_env Sample.at_zero Sample.no_entropy
         (Some (js "refresh-1")) (Some (js "device-1")) Sample.world7)
  = inr (Tokens.mk Sample.token7 (hex_encode (repeat Byte.x2a 64))).
Proof. vm_compute. reflexivity. Qed.

Lemma rotation_claims_from_session_witness :
  exists s,
    head (filter (active_refresh_match (Some (js "refresh-1")) (Some (js "device-1")) 0)
            (sessions Sample.world7)) = Some s
    /\ generateAccessToken (jwt := Sample.sample_jwt) Sample.no_env 0 (rotation_claims s)
       = inr Sample.token7.
Proof.
  destruct (rotation_claims_from_session (jwt := Sample.sample_jwt) Sample.no_env Sample.at_zero
              Sample.no_entropy (Some (js "refresh-1")) (Some (js "device-1")) Sample.world7
              (Tokens.mk Sample.token7 (hex_encode (repeat Byte.x2a 64)))
              (snd (rotateRefreshToken (jwt := Sample.sample_jwt) Sample.no_env Sample.at_zero
                      Sample.no_entropy (Some (js "refresh-1")) (Some (js "device-1"))
                      Sample.world7)))
    as (s & Hs & Hg & _).
  - vm_compute. reflexivity.
  - exists s. split; [exact Hs|exact Hg].
Defined.

(** The stored snapshot of [session7] has no admin role, yet the token
    issued on rotation claims the role "analyst": the claims are not the
    stored snapshot verbatim. *)
Lemma rotation_claims_not_verbatim :
  ~ (forall (jwt : JwtLib) env clock now ent rt dev w t w' s claims,
        rotateRefreshToken env clock ent rt dev w = (inr t, w') ->
        head (filter (active_refresh_match rt dev (clock 0%nat)) (sessions w)) = Some s ->
        verifyAccessToken env now (Tokens.accessToken t) = inr claims ->
        claims = snapshot_claims s).
Proof.
  intros H.
  specialize (H Sample.sample_jwt Sample.no_env Sample.at_zero 0 Sample.no_entropy
                (Some (js "refresh-1")) (Some (js "device-1")) Sample.world7
                (Tokens.mk Sample.token7 (hex_encode (repeat Byte.x2a 64)))
                (snd (rotateRefreshToken (jwt := Sample.sample_jwt) Sample.no_env Sample.at_zero
                        Sample.no_entropy (Some (js "refresh-1")) (Some (js "device-1"))
                        Sample.world7))
                Sample.session7
                (mkPayload (JNumber 7) (JString (js "voter")) (JString (js "analyst")))).
  assert (Hfalse : mkPayload (JNumber 7) (JString (js "voter")) (JString (js "analyst"))
                   = snapshot_claims Sample.session7).
  { apply H; vm_compute; reflexivity. }
  vm_compute in Hfalse. discriminate Hfalse.
Qed.

Lemma default_lifetimes_ordered : lifetimes_ordered Sample.no_env.
Proof.
  intros a r Ha Hr. vm_compute in Ha, Hr.
  injection Ha as <-. injection Hr as <-. lia.
Defined.

Lemma expiry_ordered_invariant_witness :
  lifetimes_ordered Sample.no_env
  /\ Forall expiry_ordered
       (sessions (snd (createSession Sample.no_env 0
                         Sample.no_entropy 7 Sample.token7 (js "refresh-1")
                         (Some (js "device-1")) None None
                         (mkWorld [] [Sample.user7] [] [] 1 1 [] []))))
  /\ Forall expiry_ordered
       (sessions (snd (rotateRefreshToken (jwt := Sample.sample_jwt) Sample.no_env Sample.at_zero
                         Sample.no_entropy (Some (js "refresh-1")) (Some (js "device-1"))
                         Sample.world7))).
Proof.
  split; [exact default_lifetimes_ordered|].
  destruct (expiry_ordered_invariant (jwt := Sample.sample_jwt) Sample.no_env
              default_lifetimes_ordered) as (Hc & Hr & _).
  split.
  - apply Hc. constructor.
  - apply Hr. constructor; [|constructor]. unfold expiry_ordered. vm_compute. discriminate.
Defined.

Example createSession_sample :
  sessions (snd (createSession Sample.no_env 0
                   Sample.no_entropy 7 Sample.token7 (js "refresh-1")
                   (Some (js "device-1")) None None
                   (mkWorld [] [Sample.user7] [] [] 1 1 [] [])))
  = [vottery_sessions.mk 1 7 Sample.token7 (js "refresh-1") (js "uuid-0")
       (Some (js "device-1")) None None (Some (js "voter")) None true
       0 60000000 120000000 0].
Proof. vm_compute. reflexivity. Qed.

(** With a three-minute access token and the default two-minute refresh
    token, a created session expires as an access token after it expires
    as a refresh token. *)
Lemma expiry_order_depends_on_configuration :
  ~ (forall env now ent uid access refresh dev ip ua w,
        Forall expiry_ordered (sessions w) ->
        Forall expiry_ordered
          (sessions (snd (createSession env now ent uid access refresh dev ip ua w)))).
Proof.
  intros H.
  specialize (H Sample.long_access_env 0 Sample.no_entropy 7
                Sample.token7 (js "refresh-1") (Some (js "device-1")) None None
                (mkWorld [] [Sample.user7] [] [] 1 1 [] []) (List.Forall_nil _)).
  vm_compute in H. inversion H as [|x l Hx _]. apply Hx. reflexivity.
Qed.

Lemma authenticate_valid_token_witness :
  authenticateToken (jwt := Sample.sample_jwt) Sample.no_env Sample.ticking Sample.no_entropy
    (Sample.bearer_request Sample.token7) Sample.world7
  = (inr (Next (mkPayload (JNumber 7) (JString (js "voter")) (JString (js "analyst"))) false),
     set_sessions
       (update_where (fun x => vottery_sessions.session_token x = Sample.token7) (touched 6))
       (logged Update T_sessions (logged Select T_sessions Sample.world7)))
  /\ Forall2
       (fun old new =>
          (vottery_sessions.session_token old <> Sample.token7 /\ new = old)
          \/ (vottery_sessions.session_token old = Sample.token7
              /\ vottery_sessions.last_activity new = 6
              /\ same_but_last_activity old new))
       (sessions Sample.world7)
       (sessions (snd (authenticateToken (jwt := Sample.sample_jwt) Sample.no_env
                         Sample.ticking Sample.no_entropy
                         (Sample.bearer_request Sample.token7) Sample.world7)))
  /\ Exists (fun x => vottery_sessions.session_token x = Sample.token7
                      /\ vottery_sessions.last_activity x = 6)
       (sessions (snd (authenticateToken (jwt := Sample.sample_jwt) Sample.no_env
                         Sample.ticking Sample.no_entropy
                         (Sample.bearer_request Sample.token7) Sample.world7)))
  /\ qlog (snd (authenticateToken (jwt := Sample.sample_jwt) Sample.no_env
                  Sample.ticking Sample.no_entropy
                  (Sample.bearer_request Sample.token7) Sample.world7))
     = qlog Sample.world7 ++ [(Select, T_sessions); (Update, T_sessions)]
  /\ res_headers (snd (authenticateToken (jwt := Sample.sample_jwt) Sample.no_env
                         Sample.ticking Sample.no_entropy
                         (Sample.bearer_request Sample.token7) Sample.world7))
     = res_headers Sample.world7.
Proof.
  apply (authenticate_valid_token (jwt := Sample.sample_jwt) Sample.no_env Sample.ticking
           Sample.no_entropy (Sample.bearer_request Sample.token7) Sample.world7
           Sample.token7 _ Sample.session7).
  - vm_compute. reflexivity.
  - discriminate.
  - vm_compute. reflexivity.
  - left. reflexivity.
  - unfold active_token_match. vm_compute. repeat split.
Defined.

Lemma expired_without_refresh_witness :
  authenticateToken (jwt := Sample.sample_jwt) Sample.no_env Sample.at_zero Sample.no_entropy
    (Sample.bearer_request (js "expired")) Sample.world7
  = (inr (Respond 401
            (js "Access token expired, refresh token and device ID required")
            (js "TOKEN_EXPIRED_NO_REFRESH")),
     Sample.world7).
Proof.
  apply (expired_without_refresh (jwt := Sample.sample_jwt) Sample.no_env Sample.at_zero
           Sample.no_entropy (Sample.bearer_request (js "expired")) Sample.world7
           (js "expired") (LibError (js "TokenExpiredError") (js "jwt expired"))).
  - vm_compute. reflexivity.
  - discriminate.
  - vm_compute. reflexivity.
  - reflexivity.
  - left. vm_compute. reflexivity.
Defined.

(** ** Security-question verification *)

Section BiometricFacts.
Context {forge : ForgeLib} {crypto : CryptoLib}.

Lemma find_in_selected userId questionIds qid l :
  In qid questionIds ->
  find (fun q => vottery_security_questions.id q =? qid)
       (filter (fun q => vottery_security_questions.user_id q = userId
                         /\ vottery_security_questions.id q ∈ questionIds) l)
  = find (fun q => (vottery_security_questions.user_id q =? userId)
                   && (vottery_security_questions.id q =? qid)) l.
Proof.
  intros Hin. induction l as [|q l IH]; [reflexivity|].
  rewrite filter_cons. simpl.
  destruct (decide (vottery_security_questions.user_id q = userId
                    /\ vottery_security_questions.id q ∈ questionIds)) as [[Hu Hq]|Hn].
  - simpl. rewrite Hu, Z.eqb_refl. simpl.
    destruct (vottery_security_questions.id q =? qid); [reflexivity|exact IH].
  - rewrite IH.
    destruct (vottery_security_questions.user_id q =? userId) eqn:Hu; [|reflexivity].
    destruct (vottery_security_questions.id q =? qid) eqn:Hq; [|reflexivity].
    exfalso. apply Hn. apply Z.eqb_eq in Hu, Hq. split; [exact Hu|].
    rewrite Hq. now apply list_elem_of_In.
Qed.

(** What the loop body does with one answer whose id was among those
    queried. *)
Lemma verify_answer_cases privateKey userId questionIds a w0 w :
  In (Answer.questionId a) questionIds ->
  let rows := filter (fun q => vottery_security_questions.user_id q = userId
                               /\ vottery_security_questions.id q ∈ questionIds)
                     (security_questions w0) in
  verify_answer privateKey rows a w
  = match stored_question w0 userId (Answer.questionId a) with
    | None => (inl InvalidQuestionId, w)
    | Some q =>
        match rsa_oaep_decrypt privateKey
                (decode64 (vottery_security_questions.encrypted_answer q)) with
        | inl (n, m) => (inl (LibError n m), w)
        | inr d =>
            if bool_decide (JString d = Answer.answer a) then
              if bool_decide (sha256_hex d = vottery_security_questions.signature q)
              then (inr tt, w)
              else (inl SignatureMismatch, w)
            else (inl AnswerMismatch, w)
        end
    end.
Proof.
  intros Hin rows. unfold verify_answer, rows, stored_question.
  rewrite (find_in_selected _ _ _ _ Hin).
  destruct (find _ (security_questions w0)) as [q|]; [|reflexivity].
  unfold bind, lift, lib.
  destruct (rsa_oaep_decrypt _ _) as [[n m]|d]; [reflexivity|].
  destruct (bool_decide (JString d = Answer.answer a)); [|reflexivity].
  destruct (bool_decide (sha256_hex d = _)); reflexivity.
Qed.

Lemma verify_answer_passes privateKey userId questionIds a w0 w :
  In (Answer.questionId a) questionIds ->
  answer_passes privateKey w0 userId a ->
  verify_answer privateKey
    (filter (fun q => vottery_security_questions.user_id q = userId
                      /\ vottery_security_questions.id q ∈ questionIds)
            (security_questions w0)) a w
  = (inr tt, w).
Proof.
  intros Hin (q & d & Hq & Hd & Ha & Hs).
  rewrite (verify_answer_cases _ _ _ _ w0 w Hin), Hq, Hd, Ha, Hs.
  now rewrite !bool_decide_eq_true_2.
Qed.

Lemma verify_answer_ok_passes privateKey userId questionIds a w0 w w' :
  In (Answer.questionId a) questionIds ->
  verify_answer privateKey
    (filter (fun q => vottery_security_questions.user_id q = userId
                      /\ vottery_security_questions.id q ∈ questionIds)
            (security_questions w0)) a w
  = (inr tt, w') ->
  answer_passes privateKey w0 userId a.
Proof.
  intros Hin. rewrite (verify_answer_cases _ _ _ _ w0 w Hin).
  destruct (stored_question w0 userId (Answer.questionId a)) as [q|] eqn:Hq; [|discriminate].
  destruct (rsa_oaep_decrypt _ _) as [[n m]|d] eqn:Hd; [discriminate|].
  destruct (bool_decide (JString d = Answer.answer a)) eqn:Ha; [|discriminate].
  destruct (bool_decide (sha256_hex d = _)) eqn:Hs; [|discriminate].
  intros _. exists q, d. apply bool_decide_eq_true_1 in Ha, Hs.
  repeat split; congruence.
Qed.

Lemma loop_all_pass privateKey userId questionIds w0 l w :
  (forall a, In a l -> In (Answer.questionId a) questionIds) ->
  Forall (answer_passes privateKey w0 userId) l ->
  for_of l
    (verify_answer privateKey
       (filter (fun q => vottery_security_questions.user_id q = userId
                         /\ vottery_security_questions.id q ∈ questionIds)
               (security_questions w0))) w
  = (inr tt, w).
Proof.
  intros Hids Hall. induction Hall as [|a l Ha _ IH]; [reflexivity|].
  simpl. unfold bind.
  rewrite (verify_answer_passes _ _ _ _ w0 w); [|apply Hids; now left|exact Ha].
  apply IH. intros b Hb. apply Hids. now right.
Qed.

Lemma loop_first_failure privateKey userId questionIds w0 pre a post e w :
  (forall b, In b (pre ++ a :: post) -> In (Answer.questionId b) questionIds) ->
  Forall (answer_passes privateKey w0 userId) pre ->
  verify_answer privateKey
    (filter (fun q => vottery_security_questions.user_id q = userId
                      /\ vottery_security_questions.id q ∈ questionIds)
            (security_questions w0)) a w
  = (inl e, w) ->
  for_of (pre ++ a :: post)
    (verify_answer privateKey
       (filter (fun q => vottery_security_questions.user_id q = userId
                         /\ vottery_security_questions.id q ∈ questionIds)
               (security_questions w0))) w
  = (inl e, w).
Proof.
  intros Hids Hpre Hfail. induction Hpre as [|b pre Hb _ IH]; simpl.
  - unfold bind. now rewrite Hfail.
  - unfold bind.
    rewrite (verify_answer_passes _ _ _ _ w0 w); [|apply Hids; now left|exact Hb].
    apply IH. intros c Hc. apply Hids. now right.
Qed.

Lemma loop_ok_all_pass privateKey userId questionIds w0 l w w' :
  (forall a, In a l -> In (Answer.questionId a) questionIds) ->
  for_of l
    (verify_answer privateKey
       (filter (fun q => vottery_security_questions.user_id q = userId
                         /\ vottery_security_questions.id q ∈ questionIds)
               (security_questions w0))) w
  = (inr tt, w') ->
  Forall (answer_passes privateKey w0 userId) l.
Proof.
  revert w. induction l as [|a l IH]; intros w Hids Hrun; [constructor|].
  simpl in Hrun. unfold bind in Hrun.
  destruct (verify_answer _ _ a w) as [[e|[]] w1] eqn:Ha; [discriminate|].
  assert (Hw1 : w1 = w).
  { rewrite (verify_answer_cases _ _ _ _ w0 w) in Ha by (apply Hids; now left).
    repeat match type of Ha with
           | context [match ?x with _ => _ end] => destruct x
           end; congruence. }
  subst w1. constructor.
  - eapply verify_answer_ok_passes; [apply Hids; now left|exact Ha].
  - eapply IH; [|exact Hrun]. intros b Hb. apply Hids. now right.
Qed.

(** The whole call, once the key row has been read and parsed. *)
Lemma verify_with_key userId answers w k privateKey :
  key_row w userId = Some k ->
  privateKeyFromPem (decode64 (vottery_biometric_keys.encrypted_private_key k))
  = inr privateKey ->
  verifySecurityAnswers userId answers w
  = let w2 := logged Select T_security_questions (logged Select T_biometric_keys w) in
    match for_of answers
            (verify_answer privateKey
               (filter (fun q => vottery_security_questions.user_id q = userId
                                 /\ vottery_security_questions.id q
                                    ∈ map Answer.questionId answers)
                       (security_questions w))) w2 with
    | (inr _, w3) => (inr true, w3)
    | (inl e, w3) => (inl e, w3)
    end.
Proof.
  intros Hk Hp. unfold key_row in Hk.
  unfold verifySecurityAnswers, select_keys, select_answers, bind, logq, lift, logged.
  simpl.
  destruct (filter _ (biometric_keys w)) as [|k' ks]; [discriminate|].
  injection Hk as ->. rewrite Hp. simpl.
  destruct (for_of answers _ _) as [[e|u] w3]; reflexivity.
Qed.

Lemma questionId_in_map (answers : list Answer.t) a :
  In a answers -> In (Answer.questionId a) (map Answer.questionId answers).
Proof. apply in_map. Qed.

Lemma verify_all_pass userId answers w k privateKey :
  key_row w userId = Some k ->
  privateKeyFromPem (decode64 (vottery_biometric_keys.encrypted_private_key k))
  = inr privateKey ->
  Forall (answer_passes privateKey w userId) answers ->
  fst (verifySecurityAnswers userId answers w) = inr true.
Proof.
  intros Hk Hp Hall. rewrite (verify_with_key _ _ _ _ _ Hk Hp). cbv zeta.
  now rewrite (loop_all_pass _ _ _ w answers _ (questionId_in_map answers) Hall).
Qed.

Lemma verify_mismatch userId w k privateKey pre a post q d :
  key_row w userId = Some k ->
  privateKeyFromPem (decode64 (vottery_biometric_keys.encrypted_private_key k))
  = inr privateKey ->
  Forall (answer_passes privateKey w userId) pre ->
  stored_question w userId (Answer.questionId a) = Some q ->
  rsa_oaep_decrypt privateKey
    (decode64 (vottery_security_questions.encrypted_answer q)) = inr d ->
  JString d <> Answer.answer a ->
  fst (verifySecurityAnswers userId (pre ++ a :: post) w) = inl AnswerMismatch.
Proof.
  intros Hk Hp Hpre Hq Hd Hne. rewrite (verify_with_key _ _ _ _ _ Hk Hp). cbv zeta.
  set (w2 := logged Select T_security_questions (logged Select T_biometric_keys w)).
  assert (Hids : forall b, In b (pre ++ a :: post) ->
            In (Answer.questionId b) (map Answer.questionId (pre ++ a :: post)))
    by (intros b; apply in_map).
  pose proof (verify_answer_cases privateKey userId _ a w w2 (Hids a (in_elt a pre post)))
    as Hcase.
  cbv zeta in Hcase. rewrite Hq, Hd in Hcase.
  rewrite bool_decide_eq_false_2 in Hcase by exact Hne.
  now rewrite (loop_first_failure _ _ _ w _ _ _ _ w2 Hids Hpre Hcase).
Qed.

(** C5.  [verifySecurityAnswers] fails with "User keys not found" when the
    user has no key-pair row.  Otherwise the answers are checked in order,
    and the first one that does not pass decides the error: "Invalid
    question ID" when its id is not that of a stored question of the user,
    "Answer mismatch" when the stored answer decrypts to a string other
    than the one supplied, "Signature mismatch" when the answer agrees but
    its SHA-256 hash is not the stored signature.  The call returns [true]
    exactly when every answer passes, and writes to no table. *)
Theorem verifySecurityAnswers_failures userId answers w :
  (key_row w userId = None ->
   fst (verifySecurityAnswers userId answers w) = inl KeysNotFound)
  /\ (forall k privateKey,
        key_row w userId = Some k ->
        privateKeyFromPem (decode64 (vottery_biometric_keys.encrypted_private_key k))
        = inr privateKey ->
        (forall pre a post,
            answers = pre ++ a :: post ->
            Forall (answer_passes privateKey w userId) pre ->
            (stored_question w userId (Answer.questionId a) = None ->
             fst (verifySecurityAnswers userId answers w) = inl InvalidQuestionId)
            /\ (forall q d,
                  stored_question w userId (Answer.questionId a) = Some q ->
                  rsa_oaep_decrypt privateKey
                    (decode64 (vottery_security_questions.encrypted_answer q)) = inr d ->
                  (JString d <> Answer.answer a ->
                   fst (verifySecurityAnswers userId answers w) = inl AnswerMismatch)
                  /\ (JString d = Answer.answer a ->
                      sha256_hex d <> vottery_security_questions.signature q ->
                      fst (verifySecurityAnswers userId answers w) = inl SignatureMismatch)))
        /\ (fst (verifySecurityAnswers userId answers w) = inr true
            <-> Forall (answer_passes privateKey w userId) answers))
  /\ same_tables w (snd (verifySecurityAnswers userId answers w)).
Proof.
  split; [|split].
  - unfold key_row. intros Hk.
    unfold verifySecurityAnswers, select_keys, bind, logq. simpl.
    destruct (filter _ (biometric_keys w)); [reflexivity|discriminate].
  - intros k privateKey Hk Hp.
    rewrite (verify_with_key _ _ _ _ _ Hk Hp). cbv zeta.
    set (w2 := logged Select T_security_questions (logged Select T_biometric_keys w)).
    split.
    + intros pre a post -> Hpre.
      assert (Hids : forall b, In b (pre ++ a :: post) ->
                In (Answer.questionId b) (map Answer.questionId (pre ++ a :: post)))
        by (intros b; apply in_map).
      assert (Ha : In (Answer.questionId a) (map Answer.questionId (pre ++ a :: post)))
        by (apply Hids, in_elt).
      pose proof (verify_answer_cases privateKey userId _ a w w2 Ha) as Hcase.
      cbv zeta in Hcase.
      split.
      * intros Hq. rewrite Hq in Hcase.
        now rewrite (loop_first_failure _ _ _ w _ _ _ _ w2 Hids Hpre Hcase).
      * intros q d Hq Hd. rewrite Hq, Hd in Hcase. split.
        -- intros Hne. rewrite bool_decide_eq_false_2 in Hcase by exact Hne.
           now rewrite (loop_first_failure _ _ _ w _ _ _ _ w2 Hids Hpre Hcase).
        -- intros Heq Hsig.
           rewrite bool_decide_eq_true_2 in Hcase by exact Heq.
           rewrite bool_decide_eq_false_2 in Hcase by exact Hsig.
           now rewrite (loop_first_failure _ _ _ w _ _ _ _ w2 Hids Hpre Hcase).
    + split.
      * intros Hok.
        destruct (for_of answers _ w2) as [[e|[]] w3] eqn:Hloop; [discriminate|].
        eapply loop_ok_all_pass; [|exact Hloop]. apply questionId_in_map.
      * intros Hall.
        now rewrite (loop_all_pass _ _ _ w answers w2 (questionId_in_map answers) Hall).
  - unfold verifySecurityAnswers, select_keys, select_answers, bind, logq, lift.
    simpl.
    destruct (filter _ (biometric_keys w)) as [|k ks]; [now repeat split|].
    destruct (lib (privateKeyFromPem _)) as [e|privateKey]; [now repeat split|].
    simpl.
    match goal with
    | |- context [for_of answers ?body ?w2] =>
        assert (Hsame : forall l w1, same_tables w w1 ->
                   same_tables w (snd (for_of l body w1)))
    end.
    { induction l as [|a l IH]; intros w1 Hw1; [exact Hw1|].
      simpl. unfold bind.
      destruct (verify_answer _ _ a w1) as [[e|[]] w1'] eqn:Ha;
        assert (w1' = w1) as ->
          by (unfold verify_answer, bind, lift, throw, ret in Ha;
              repeat match type of Ha with
                     | context [match ?x with _ => _ end] => destruct x
                     | context [if ?x then _ else _] => destruct x
                     end; congruence);
        [exact Hw1|now apply IH]. }
    match goal with
    | |- context [for_of answers ?body ?w2] =>
        specialize (Hsame answers w2);
        destruct (for_of answers body w2) as [[e|u] w3]
    end; simpl in *; apply Hsame; now repeat split.
Qed.

(** C10.  For a user whose key-pair row holds a private key, verifying an
    empty list of answers returns [true]: the question query comes back
    empty, no answer is checked, and no table is written. *)
Theorem verify_no_answers userId w k privateKey :
  key_row w userId = Some k ->
  privateKeyFromPem (decode64 (vottery_biometric_keys.encrypted_private_key k))
  = inr privateKey ->
  verifySecurityAnswers userId [] w
  = (inr true, logged Select T_security_questions (logged Select T_biometric_keys w))
  /\ fst (select_answers userId (map Answer.questionId []) w) = inr [].
Proof.
  intros Hk Hp. split.
  - now rewrite (verify_with_key _ _ _ _ _ Hk Hp).
  - unfold select_answers, bind, logq. simpl. f_equal.
    induction (security_questions w) as [|q l IH]; [reflexivity|].
    rewrite filter_cons.
    destruct (decide _) as [[_ Hin]|_]; [|exact IH].
    now apply not_elem_of_nil in Hin.
Qed.

(** What a successful [addSecurityQuestion] writes. *)
Lemma addSecurityQuestion_writes seed userId question answer w k publicKey ciphertext :
  key_row w userId = Some k ->
  publicKeyFromPem (vottery_biometric_keys.public_key k) = inr publicKey ->
  rsa_oaep_encrypt publicKey answer seed = inr ciphertext ->
  biometric_keys (snd (addSecurityQuestion seed userId question answer w))
  = biometric_keys w
  /\ security_questions (snd (addSecurityQuestion seed userId question answer w))
     = security_questions w
         ++ [vottery_security_questions.mk (next_question_id w) userId question
               (encode64 ciphertext) (sha256_hex answer)].
Proof.
  intros Hk Hpub Henc. unfold key_row in Hk.
  unfold addSecurityQuestion, select_keys, insert_question, bind, logq, lift, ret.
  simpl.
  destruct (filter _ (biometric_keys w)) as [|k' ks]; [discriminate|].
  injection Hk as ->. rewrite Hpub. simpl. rewrite Henc. simpl. split; reflexivity.
Qed.

End BiometricFacts.

(** ** Field encryption *)

(** *** UTF-8 *)

Lemma utf8_start_ascii b : 0 <= b <= 0x7F -> utf8_start b = ([b], Idle).
Proof. intros Hb. unfold utf8_start. zbool. reflexivity. Qed.

Lemma utf8_start_two b :
  0xC2 <= b <= 0xDF -> utf8_start b = ([], Pending (b - 0xC0) 1 0x80 0xBF).
Proof. intros Hb. unfold utf8_start. zbool. reflexivity. Qed.

Lemma utf8_start_three b :
  0xE0 <= b <= 0xEF ->
  utf8_start b = ([], Pending (b - 0xE0) 2 (if b =? 0xE0 then 0xA0 else 0x80)
                                        (if b =? 0xED then 0x9F else 0xBF)).
Proof.
  intros Hb. unfold utf8_start.
  destruct (Z.leb_spec b 0x7F); [lia|].
  destruct (Z.leb_spec 0xC2 b); [|lia].
  destruct (Z.leb_spec b 0xDF); [lia|].
  destruct (Z.leb_spec 0xE0 b); [|lia].
  destruct (Z.leb_spec b 0xEF); [|lia].
  reflexivity.
Qed.

Lemma utf8_start_four b :
  0xF0 <= b <= 0xF4 ->
  utf8_start b = ([], Pending (b - 0xF0) 3 (if b =? 0xF0 then 0x90 else 0x80)
                                        (if b =? 0xF4 then 0x8F else 0xBF)).
Proof.
  intros Hb. unfold utf8_start.
  destruct (Z.leb_spec b 0x7F); [lia|].
  destruct (Z.leb_spec 0xC2 b); [|lia].
  destruct (Z.leb_spec b 0xDF); [lia|].
  destruct (Z.leb_spec 0xE0 b); [|lia].
  destruct (Z.leb_spec b 0xEF); [lia|].
  destruct (Z.leb_spec 0xF0 b); [|lia].
  destruct (Z.leb_spec b 0xF4); [|lia].
  reflexivity.
Qed.

Lemma utf8_step_more cp n lo hi b :
  lo <= b <= hi ->
  utf8_step (Pending cp (S (S n)) lo hi) b
  = ([], Pending (cp * 64 + (b - 0x80)) (S n) 0x80 0xBF).
Proof.
  intros Hb. unfold utf8_step.
  destruct (Z.leb_spec lo b); [|lia]. destruct (Z.leb_spec b hi); [|lia]. reflexivity.
Qed.

Lemma utf8_step_last cp lo hi b :
  lo <= b <= hi ->
  utf8_step (Pending cp 1 lo hi) b = (utf16_of_code_point (cp * 64 + (b - 0x80)), Idle).
Proof.
  intros Hb. unfold utf8_step.
  destruct (Z.leb_spec lo b); [|lia]. destruct (Z.leb_spec b hi); [|lia]. reflexivity.
Qed.

Lemma decode_cons st x rest :
  utf8_decode_from st (x :: rest)
  = fst (utf8_step st (Z_of_byte x))
      ++ utf8_decode_from (snd (utf8_step st (Z_of_byte x))) rest.
Proof. cbn [utf8_decode_from]. now destruct (utf8_step st (Z_of_byte x)). Qed.

Lemma decode_code_point cp rest :
  scalar_value cp ->
  utf8_decode_from Idle (utf8_of_code_point cp ++ rest)
  = utf16_of_code_point cp ++ utf8_decode_from Idle rest.
Proof.
  intros Hcp. unfold utf8_of_code_point.
  destruct (Z.ltb_spec cp 0x80) as [H1|H1].
  { cbn [app]. rewrite decode_cons, Z_of_byte_of_Z by (destruct Hcp; lia).
    cbn [utf8_step]. rewrite utf8_start_ascii by (destruct Hcp; lia).
    unfold utf16_of_code_point. destruct (Z.ltb_spec cp 0x10000); [reflexivity|lia]. }
  destruct (Z.ltb_spec cp 0x800) as [H2|H2].
  { pose proof (Z.div_mod cp 64 ltac:(lia)) as Hdm.
    pose proof (Z.mod_pos_bound cp 64 ltac:(lia)) as Hm.
    cbn [app].
    rewrite decode_cons, Z_of_byte_of_Z by lia.
    cbn [utf8_step]. rewrite utf8_start_two by lia. cbn [fst snd app].
    rewrite decode_cons, Z_of_byte_of_Z by lia.
    rewrite utf8_step_last by lia. cbn [fst snd].
    replace ((0xC0 + cp / 64 - 0xC0) * 64 + (0x80 + cp mod 64 - 0x80)) with cp by lia.
    reflexivity. }
  destruct (Z.ltb_spec cp 0x10000) as [H3|H3].
  { pose proof (Z.div_mod cp 64 ltac:(lia)) as Hdm.
    pose proof (Z.mod_pos_bound cp 64 ltac:(lia)) as Hm.
    pose proof (Z.div_mod (cp / 64) 64 ltac:(lia)) as Hdm2.
    pose proof (Z.mod_pos_bound (cp / 64) 64 ltac:(lia)) as Hm2.
    assert (Hq : cp / 4096 = cp / 64 / 64) by (rewrite Z.div_div by lia; reflexivity).
    cbn [app].
    rewrite decode_cons, Z_of_byte_of_Z by lia.
    cbn [utf8_step]. rewrite utf8_start_three by lia. cbn [fst snd app].
    rewrite decode_cons, Z_of_byte_of_Z by lia.
    rewrite utf8_step_more
      by (destruct (Z.eqb_spec (0xE0 + cp / 4096) 0xE0);
          destruct (Z.eqb_spec (0xE0 + cp / 4096) 0xED); destruct Hcp; lia).
    cbn [fst snd app].
    rewrite decode_cons, Z_of_byte_of_Z by lia.
    rewrite utf8_step_last by lia. cbn [fst snd].
    replace (((0xE0 + cp / 4096 - 0xE0) * 64 + (0x80 + (cp / 64) mod 64 - 0x80)) * 64
             + (0x80 + cp mod 64 - 0x80)) with cp by lia.
    reflexivity. }
  pose proof (Z.div_mod cp 64 ltac:(lia)) as Hdm.
  pose proof (Z.mod_pos_bound cp 64 ltac:(lia)) as Hm.
  pose proof (Z.div_mod (cp / 64) 64 ltac:(lia)) as Hdm2.
  pose proof (Z.mod_pos_bound (cp / 64) 64 ltac:(lia)) as Hm2.
  pose proof (Z.div_mod (cp / 64 / 64) 64 ltac:(lia)) as Hdm3.
  pose proof (Z.mod_pos_bound (cp / 64 / 64) 64 ltac:(lia)) as Hm3.
  assert (Hq : cp / 4096 = cp / 64 / 64) by (rewrite Z.div_div by lia; reflexivity).
  assert (Hq2 : cp / 262144 = cp / 64 / 64 / 64) by (rewrite !Z.div_div by lia; reflexivity).
  rewrite Hq2, Hq. cbn [app].
  rewrite decode_cons, Z_of_byte_of_Z by (destruct Hcp; lia).
  cbn [utf8_step]. rewrite utf8_start_four by (destruct Hcp; lia). cbn [fst snd app].
  rewrite decode_cons, Z_of_byte_of_Z by lia.
  rewrite utf8_step_more
    by (destruct (Z.eqb_spec (0xF0 + cp / 64 / 64 / 64) 0xF0);
        destruct (Z.eqb_spec (0xF0 + cp / 64 / 64 / 64) 0xF4); destruct Hcp; lia).
  cbn [fst snd app].
  rewrite decode_cons, Z_of_byte_of_Z by lia.
  rewrite utf8_step_more by lia. cbn [fst snd app].
  rewrite decode_cons, Z_of_byte_of_Z by lia.
  rewrite utf8_step_last by lia. cbn [fst snd].
  replace ((((0xF0 + cp / 64 / 64 / 64 - 0xF0) * 64
             + (0x80 + (cp / 64 / 64) mod 64 - 0x80)) * 64
            + (0x80 + (cp / 64) mod 64 - 0x80)) * 64 + (0x80 + cp mod 64 - 0x80))
    with cp by lia.
  reflexivity.
Qed.

Example utf8_samples :
  utf8_encode [0xE9] = [Byte.xc3; Byte.xa9]
  /\ utf8_encode [0x20AC] = [Byte.xe2; Byte.x82; Byte.xac]
  /\ utf8_encode [0xD83D; 0xDE00] = [Byte.xf0; Byte.x9f; Byte.x98; Byte.x80]
  /\ utf8_encode [0xD800] = [Byte.xef; Byte.xbf; Byte.xbd]
  /\ utf8_encode [0xDE00; 0xD83D] = utf8_replacement ++ utf8_replacement
  /\ utf8_decode [Byte.xf0; Byte.x9f; Byte.x98; Byte.x80] = [0xD83D; 0xDE00]
  /\ utf8_decode [Byte.xef; Byte.xbf; Byte.xbd] = [0xFFFD]
  /\ utf8_decode [Byte.xff] = [0xFFFD]
  /\ utf8_decode [Byte.xe2; Byte.x82] = [0xFFFD]
  /\ utf8_decode [Byte.xe2; Byte.x82; Byte.x41] = [0xFFFD; 0x41]
  /\ utf8_decode [Byte.xc0; Byte.x80] = [0xFFFD; 0xFFFD]
  /\ utf8_decode [Byte.xed; Byte.xa0; Byte.x80] = [0xFFFD; 0xFFFD; 0xFFFD].
Proof. repeat split; reflexivity. Qed.

Lemma surrogates_spec c :
  (is_high_surrogate c = true <-> 0xD800 <= c <= 0xDBFF)
  /\ (is_low_surrogate c = true <-> 0xDC00 <= c <= 0xDFFF).
Proof.
  unfold is_high_surrogate, is_low_surrogate.
  rewrite !andb_true_iff, !Z.leb_le. tauto.
Qed.

Lemma utf16_of_pair c d :
  0xD800 <= c <= 0xDBFF -> 0xDC00 <= d <= 0xDFFF ->
  utf16_of_code_point (0x10000 + (c - 0xD800) * 1024 + (d - 0xDC00)) = [c; d].
Proof.
  intros Hc Hd. unfold utf16_of_code_point.
  destruct (Z.ltb_spec (0x10000 + (c - 0xD800) * 1024 + (d - 0xDC00)) 0x10000); [lia|].
  replace (0x10000 + (c - 0xD800) * 1024 + (d - 0xDC00) - 0x10000)
    with ((c - 0xD800) * 1024 + (d - 0xDC00)) by lia.
  pose proof (Z.div_mod ((c - 0xD800) * 1024 + (d - 0xDC00)) 1024 ltac:(lia)) as Hdm.
  pose proof (Z.mod_pos_bound ((c - 0xD800) * 1024 + (d - 0xDC00)) 1024 ltac:(lia)) as Hm.
  f_equal; [|f_equal]; lia.
Qed.

Lemma utf8_roundtrip_bounded n s :
  (length s <= n)%nat -> isWellFormed s = true -> utf8_decode (utf8_encode s) = s.
Proof.
  unfold utf8_decode. revert s.
  induction n as [|n IH]; intros [|c rest] Hlen Hwf; try reflexivity; [simpl in Hlen; lia|].
  cbn [isWellFormed utf8_encode] in *.
  destruct (surrogates_spec c) as [Hhi Hlo].
  destruct (is_high_surrogate c) eqn:Hh.
  - destruct rest as [|d rest']; [discriminate|].
    apply andb_true_iff in Hwf as [Hd Hwf]. rewrite Hd.
    apply (proj1 (proj2 (surrogates_spec d))) in Hd.
    pose proof (proj1 Hhi eq_refl) as Hc.
    rewrite decode_code_point by (right; lia).
    rewrite utf16_of_pair by assumption.
    cbn [app]. f_equal. f_equal. apply IH; [simpl in Hlen; lia|exact Hwf].
  - destruct (is_low_surrogate c) eqn:Hl; [discriminate|].
    apply andb_true_iff in Hwf as [Hrange Hwf].
    apply andb_true_iff in Hrange as [H0 H1]. apply Z.leb_le in H0, H1.
    assert (Hnh : ~ (0xD800 <= c <= 0xDBFF)) by (intros H; apply Hhi in H; discriminate).
    assert (Hnl : ~ (0xDC00 <= c <= 0xDFFF)) by (intros H; apply Hlo in H; discriminate).
    rewrite decode_code_point by (unfold scalar_value; lia).
    unfold utf16_of_code_point. destruct (Z.ltb_spec c 0x10000); [|lia].
    cbn [app]. f_equal. apply IH; [simpl in Hlen; lia|exact Hwf].
Qed.

Lemma utf8_roundtrip s : isWellFormed s = true -> utf8_decode (utf8_encode s) = s.
Proof. apply (utf8_roundtrip_bounded (length s)). lia. Qed.

Section EncryptionFacts.
Context {crypto : CryptoLib}.
Variable env : ProcessEnv.

(** What [encryptSensitiveData] returns for a non-empty string. *)
Lemma encrypt_string iv c x :
  encryptSensitiveData env iv (JString (c :: x))
  = let key := scryptSync (ENCRYPTION_KEY env) (js "salt") 32 in
    let e := gcm_encrypt key iv AAD (utf8_encode (c :: x)) in
    JString (hex_encode iv ++ js ":" ++ hex_encode (snd e) ++ js ":" ++ hex_encode (fst e)).
Proof.
  unfold encryptSensitiveData, encrypt_try. cbn [truthy negb].
  now destruct (gcm_encrypt _ iv AAD _).
Qed.

(** What [decryptSensitiveData] does with a string that has a colon. *)
Lemma decrypt_string s :
  s <> [] -> includes 58 s = true ->
  decryptSensitiveData env (JString s)
  = match envelope_fields s with
    | Some (iv, authTag, encrypted) =>
        match gcm_decrypt (scryptSync (ENCRYPTION_KEY env) (js "salt") 32)
                iv AAD authTag encrypted with
        | inr decrypted => JString (utf8_decode decrypted)
        | inl _ => JString s
        end
    | None => JString s
    end.
Proof.
  intros Hne Hinc. unfold decryptSensitiveData, decrypt_try, envelope_fields.
  destruct s as [|c s]; [congruence|]. cbn [truthy negb orb]. rewrite Hinc. cbn [negb].
  destruct (split_on 58 (c :: s)) as [|f1 [|f2 [|f3 fs]]]; try reflexivity.
  cbn [lookup list_lookup]. unfold lib.
  destruct (Nat.even (length f3)); [|reflexivity].
  now destruct (gcm_decrypt _ _ _ _ _) as [[n m]|d].
Qed.

(** Decrypting what was encrypted yields the UTF-8 decoding of the UTF-8
    encoding of the plaintext. *)
Lemma decrypt_encrypt iv c x :
  gcm_correct crypto ->
  length iv = 16%nat ->
  decryptSensitiveData env (encryptSensitiveData env iv (JString (c :: x)))
  = JString (utf8_decode (utf8_encode (c :: x))).
Proof.
  intros Hgcm Hiv. rewrite encrypt_string. cbv zeta.
  set (key := scryptSync (ENCRYPTION_KEY env) (js "salt") 32).
  set (e := gcm_encrypt key iv AAD (utf8_encode (c :: x))).
  rewrite decrypt_string.
  - unfold envelope_fields. rewrite split_envelope, hex_encode_even, !hex_decode_encode.
    fold key. unfold e. now rewrite Hgcm.
  - change (js ":") with [58]. destruct (hex_encode iv); discriminate.
  - change (js ":") with [58]. cbn [app]. apply includes_app_sep.
Qed.

(** C8 (as amended).  For every non-empty string without a lone surrogate,
    decrypting the envelope that encryption produced returns the string,
    whatever 16-byte initialisation vector was drawn. *)
Theorem decrypt_encrypt_roundtrip iv x :
  gcm_correct crypto ->
  length iv = 16%nat ->
  x <> [] ->
  isWellFormed x = true ->
  decryptSensitiveData env (encryptSensitiveData env iv (JString x)) = JString x.
Proof.
  intros Hgcm Hiv Hne Hwf. destruct x as [|c x]; [congruence|].
  rewrite decrypt_encrypt by assumption. now rewrite utf8_roundtrip.
Qed.

(** A lone surrogate does not survive: it comes back as U+FFFD. *)
Lemma lone_surrogate_replaced iv :
  gcm_correct crypto ->
  length iv = 16%nat ->
  decryptSensitiveData env (encryptSensitiveData env iv (JString [0xD800]))
  = JString [0xFFFD].
Proof.
  intros Hgcm Hiv. rewrite decrypt_encrypt by assumption. reflexivity.
Qed.

Lemma split_envelope_extra (iv authTag encrypted : bytes) junk :
  split_on 58 ((hex_encode iv ++ js ":" ++ hex_encode authTag ++ js ":"
                  ++ hex_encode encrypted) ++ js ":" ++ junk)
  = hex_encode iv :: hex_encode authTag :: hex_encode encrypted :: split_on 58 junk.
Proof.
  change (js ":") with [58].
  replace ((hex_encode iv ++ [58] ++ hex_encode authTag ++ [58] ++ hex_encode encrypted)
             ++ [58] ++ junk)
    with (hex_encode iv ++ 58 :: (hex_encode authTag ++ 58 :: (hex_encode encrypted ++ 58 :: junk)))
    by (rewrite <- !app_assoc; reflexivity).
  now rewrite !split_on_app by apply hex_encode_no_colon.
Qed.

(** Text after a third colon is not looked at. *)
Lemma decrypt_ignores_extra_field iv c x junk :
  gcm_correct crypto ->
  length iv = 16%nat ->
  isWellFormed (c :: x) = true ->
  decryptSensitiveData env
    (JString (string_of (encryptSensitiveData env iv (JString (c :: x))) ++ js ":" ++ junk))
  = JString (c :: x).
Proof.
  intros Hgcm Hiv Hwf.
  rewrite encrypt_string. cbv zeta. unfold string_of.
  set (key := scryptSync (ENCRYPTION_KEY env) (js "salt") 32).
  set (e := gcm_encrypt key iv AAD (utf8_encode (c :: x))).
  rewrite decrypt_string.
  - unfold envelope_fields.
    rewrite split_envelope_extra, hex_encode_even, !hex_decode_encode.
    fold key. unfold e. rewrite Hgcm by exact Hiv.
    now rewrite utf8_roundtrip.
  - change (js ":") with [58]. destruct (hex_encode iv); discriminate.
  - change (js ":") with [58]. rewrite <- app_assoc. apply includes_app_sep.
Qed.

Lemma split_has_colon s f1 f2 rest :
  split_on 58 s = f1 :: f2 :: rest -> s <> [] /\ includes 58 s = true.
Proof.
  intros Hsplit. split.
  - intros ->. discriminate Hsplit.
  - destruct (includes 58 s) eqn:Hinc; [reflexivity|].
    rewrite (split_on_no_sep _ _ Hinc) in Hsplit. discriminate Hsplit.
Qed.

(** What decryption does with a string of three fields or more. *)
Lemma decrypt_fields s f1 f2 f3 rest :
  split_on 58 s = f1 :: f2 :: f3 :: rest ->
  decryptSensitiveData env (JString s)
  = if Nat.even (length f3) then
      match gcm_decrypt (scryptSync (ENCRYPTION_KEY env) (js "salt") 32)
              (hex_decode f1) AAD (hex_decode f2) (hex_decode f3) with
      | inr decrypted => JString (utf8_decode decrypted)
      | inl _ => JString s
      end
    else JString s.
Proof.
  intros Hsplit. destruct (split_has_colon _ _ _ _ Hsplit) as [Hne Hinc].
  rewrite (decrypt_string s Hne Hinc). unfold envelope_fields. rewrite Hsplit.
  destruct (Nat.even (length f3)); reflexivity.
Qed.

(** C9 (as amended).  [decryptSensitiveData] returns a value for every
    input and never an exception, and its result is determined as
    follows.  It returns its input unchanged when the input is not a
    string, is empty, has no colon, has fewer than three colon-separated
    fields or a third field of odd length.  For a string of three fields
    or more it works on the first three alone: when their authenticated
    decryption fails it returns the input unchanged, and when it
    succeeds it returns the decoded plaintext.  Whatever follows the
    third field plays no part: two strings with the same first three
    fields either both come back unchanged or decrypt to the same
    plaintext. *)
Theorem decrypt_fails_open encrypted :
  (lacks_fields encrypted -> decryptSensitiveData env encrypted = encrypted)
  /\ (forall s f1 f2 f3 rest,
        encrypted = JString s ->
        split_on 58 s = f1 :: f2 :: f3 :: rest ->
        decryptSensitiveData env encrypted
        = if Nat.even (length f3) then
            match gcm_decrypt (scryptSync (ENCRYPTION_KEY env) (js "salt") 32)
                    (hex_decode f1) AAD (hex_decode f2) (hex_decode f3) with
            | inr decrypted => JString (utf8_decode decrypted)
            | inl _ => encrypted
            end
          else encrypted)
  /\ (forall s s' f1 f2 f3 rest rest',
        split_on 58 s = f1 :: f2 :: f3 :: rest ->
        split_on 58 s' = f1 :: f2 :: f3 :: rest' ->
        (decryptSensitiveData env (JString s) = JString s
         /\ decryptSensitiveData env (JString s') = JString s')
        \/ decryptSensitiveData env (JString s') = decryptSensitiveData env (JString s)).
Proof.
  split; [|split].
  - destruct encrypted as [| | | |s|]; try reflexivity.
    intros [->|[Hinc|Hlen]]; [reflexivity| |].
    + unfold decryptSensitiveData, decrypt_try. rewrite Hinc. cbn [negb].
      now rewrite orb_true_r.
    + destruct s as [|c s]; [reflexivity|].
      destruct (includes 58 (c :: s)) eqn:Hinc.
      * rewrite decrypt_string by (congruence || exact Hinc). now rewrite Hlen.
      * unfold decryptSensitiveData, decrypt_try. rewrite Hinc. cbn [negb].
        now rewrite orb_true_r.
  - intros s f1 f2 f3 rest -> Hsplit. apply (decrypt_fields _ _ _ _ _ Hsplit).
  - intros s s' f1 f2 f3 rest rest' Hsplit Hsplit'.
    rewrite (decrypt_fields _ _ _ _ _ Hsplit), (decrypt_fields _ _ _ _ _ Hsplit').
    destruct (Nat.even (length f3)); [|left; split; reflexivity].
    destruct (gcm_decrypt _ _ _ _ _) as [[n m]|d]; [left; split; reflexivity|].
    right. reflexivity.
Qed.

End EncryptionFacts.

Lemma envelope_three_fields s : is_envelope s -> length (split_on 58 s) = 3%nat.
Proof. intros (iv & authTag & encrypted & ->). now rewrite split_envelope. Qed.

(** ** Security questions and field encryption on concrete inputs *)

(** The key-pair row [registerKeys] writes for a user who had none holds a
    private key that reads back. *)
Lemma registered_key_parses {forge : ForgeLib} seed userId w :
  pem_roundtrip forge ->
  key_row w userId = None ->
  exists k,
    key_row (snd (registerKeys seed userId w)) userId = Some k
    /\ privateKeyFromPem (decode64 (vottery_biometric_keys.encrypted_private_key k))
       = inr (snd (generateKeyPair seed)).
Proof.
  intros Hpem Hnone. unfold key_row in *.
  unfold registerKeys, insert_keys, bind, logq, ret. simpl.
  rewrite filter_app.
  destruct (filter _ (biometric_keys w)) as [|k0 ks]; [|discriminate].
  rewrite filter_cons. simpl.
  destruct (decide (userId = userId)) as [_|Hne]; [|congruence].
  eexists. split; [reflexivity|]. simpl. apply Hpem.
Qed.

Lemma registerKeys_keeps_keys_readable {forge : ForgeLib} seed userId w :
  pem_roundtrip forge ->
  keys_readable forge w ->
  keys_readable forge (snd (registerKeys seed userId w)).
Proof.
  intros Hpem Hw. unfold keys_readable in *.
  unfold registerKeys, insert_keys, bind, logq, ret. simpl.
  apply Forall_app. split; [exact Hw|].
  constructor; [|constructor]. eexists. simpl. apply Hpem.
Qed.

(** With readable keys, a user with any key-pair row passes the empty
    verification. *)
Lemma verify_no_answers_readable {forge : ForgeLib} {crypto : CryptoLib} userId w k :
  keys_readable forge w ->
  key_row w userId = Some k ->
  fst (verifySecurityAnswers userId [] w) = inr true.
Proof.
  intros Hw Hk.
  assert (Hin : In k (biometric_keys w)).
  { unfold key_row in Hk.
    destruct (filter _ (biometric_keys w)) as [|k' ks] eqn:Hf; [discriminate|].
    injection Hk as ->. now destruct (filter_head_In _ _ _ _ Hf). }
  unfold keys_readable in Hw. rewrite List.Forall_forall in Hw.
  destruct (Hw k Hin) as [privateKey Hp].
  now rewrite (verify_with_key _ _ _ _ _ Hk Hp).
Qed.

(** Enrolment, one question with a binary-encoded answer, then
    verification: the right answer is accepted and any other value is an
    answer mismatch. *)
Lemma enrol_then_verify {forge : ForgeLib} {crypto : CryptoLib}
    seed seed' userId question answer w ciphertext :
  forge_correct forge ->
  key_row w userId = None ->
  Forall (fun q => vottery_security_questions.id q <> next_question_id w)
         (security_questions w) ->
  byte_string answer ->
  rsa_oaep_encrypt (fst (generateKeyPair seed)) answer seed' = inr ciphertext ->
  let w1 := snd (registerKeys seed userId w) in
  let w2 := snd (addSecurityQuestion seed' userId question answer w1) in
  fst (verifySecurityAnswers userId
         [Answer.mk (next_question_id w) (JString answer)] w2) = inr true
  /\ (forall other,
        other <> JString answer ->
        fst (verifySecurityAnswers userId
               [Answer.mk (next_question_id w) other] w2) = inl AnswerMismatch).
Proof.
  intros Hforge Hnone Hfresh Hbytes Henc w1 w2.
  destruct Hforge as [Hpem Hpub Hrsa].
  destruct (registered_key_parses seed userId w Hpem Hnone) as (k & Hkey1 & Hparse).
  fold w1 in Hkey1.
  assert (Hpk : vottery_biometric_keys.public_key k
                = publicKeyToPem (fst (generateKeyPair seed))).
  { unfold key_row in Hnone, Hkey1.
    unfold w1, registerKeys, insert_keys, bind, logq, ret in Hkey1. simpl in Hkey1.
    rewrite filter_app in Hkey1.
    destruct (filter _ (biometric_keys w)) as [|k0 ks]; [|discriminate].
    rewrite filter_cons in Hkey1. simpl in Hkey1.
    destruct (decide (userId = userId)); [|congruence].
    injection Hkey1 as <-. reflexivity. }
  assert (Hpub' : publicKeyFromPem (vottery_biometric_keys.public_key k)
                  = inr (fst (generateKeyPair seed))) by (rewrite Hpk; apply Hpub).
  destruct (addSecurityQuestion_writes seed' userId question answer w1 k _ ciphertext
              Hkey1 Hpub' Henc) as [Hk2 Hq2].
  fold w2 in Hk2, Hq2.
  change (next_question_id w1) with (next_question_id w) in Hq2.
  change (security_questions w1) with (security_questions w) in Hq2.
  set (q := vottery_security_questions.mk (next_question_id w) userId question
              (encode64 ciphertext) (sha256_hex answer)) in *.
  assert (Hkey : key_row w2 userId = Some k)
    by (unfold key_row in *; now rewrite Hk2).
  assert (Hstored : stored_question w2 userId (next_question_id w) = Some q).
  { unfold stored_question. rewrite Hq2. clear Hq2.
    induction Hfresh as [|q0 l Hq0 _ IH]; simpl.
    - now rewrite !Z.eqb_refl.
    - destruct (Z.eqb_spec (vottery_security_questions.id q0) (next_question_id w));
        [contradiction|].
      rewrite andb_false_r. exact IH. }
  assert (Hdec : rsa_oaep_decrypt (snd (generateKeyPair seed))
                   (decode64 (vottery_security_questions.encrypted_answer q))
                 = inr answer).
  { unfold q. cbn [vottery_security_questions.encrypted_answer].
    apply (Hrsa _ _ _ _ Hbytes Henc). }
  split.
  - apply (verify_all_pass _ _ _ k _ Hkey Hparse). constructor; [|constructor].
    exists q, answer. repeat split; assumption || reflexivity.
  - intros other Hother.
    apply (verify_mismatch userId w2 k _ [] (Answer.mk (next_question_id w) other) [] q answer
             Hkey Hparse (List.Forall_nil _) Hstored Hdec).
    simpl. congruence.
Qed.

Example rex_scenario :
  fst (verifySecurityAnswers (forge := Sample.sample_forge) (crypto := Sample.sample_crypto)
         42 [Answer.mk 1 (JString (js "Rex"))] Sample.rex_world) = inr true
  /\ fst (verifySecurityAnswers (forge := Sample.sample_forge) (crypto := Sample.sample_crypto)
            42 [Answer.mk 1 (JString (js "rex"))] Sample.rex_world) = inl AnswerMismatch
  /\ fst (verifySecurityAnswers (forge := Sample.sample_forge) (crypto := Sample.sample_crypto)
            42 [Answer.mk 1 (JString (js "Rex")); Answer.mk 2 (JString (js "Rex"))]
            Sample.rex_world) = inl InvalidQuestionId
  /\ fst (verifySecurityAnswers (forge := Sample.sample_forge) (crypto := Sample.sample_crypto)
            43 [] Sample.rex_world) = inl KeysNotFound.
Proof. vm_compute. repeat split. Qed.

Lemma verifySecurityAnswers_failures_witness :
  fst (verifySecurityAnswers (forge := Sample.sample_forge) (crypto := Sample.sample_crypto)
         42 [Answer.mk 1 (JString (js "rex"))] Sample.rex_world) = inl AnswerMismatch.
Proof.
  destruct (verifySecurityAnswers_failures (forge := Sample.sample_forge)
              (crypto := Sample.sample_crypto) 42 [Answer.mk 1 (JString (js "rex"))]
              Sample.rex_world) as (_ & Hkey & _).
  destruct (Hkey (vottery_biometric_keys.mk 42 (js "PUBLIC KEY") (js "PRIVATE KEY")
                    threshold_json) tt) as [Hfirst _].
  - vm_compute. reflexivity.
  - vm_compute. reflexivity.
  - destruct (Hfirst [] (Answer.mk 1 (JString (js "rex"))) [] eq_refl (List.Forall_nil _))
      as [_ Hstored].
    destruct (Hstored (vottery_security_questions.mk 1 42 (js "pet name?") (js "Rex")
                         (js "#Rex")) (js "Rex")) as [Hmismatch _].
    + vm_compute. reflexivity.
    + vm_compute. reflexivity.
    + apply Hmismatch. vm_compute. discriminate.
Defined.

Lemma verify_no_answers_witness :
  verifySecurityAnswers (forge := Sample.sample_forge) (crypto := Sample.sample_crypto)
    42 [] Sample.enrolled_world
  = (inr true,
     logged Select T_security_questions (logged Select T_biometric_keys Sample.enrolled_world)).
Proof.
  apply (verify_no_answers (forge := Sample.sample_forge) (crypto := Sample.sample_crypto)
           42 Sample.enrolled_world
           (vottery_biometric_keys.mk 42 (js "PUBLIC KEY") (js "PRIVATE KEY") threshold_json)
           tt).
  - vm_compute. reflexivity.
  - vm_compute. reflexivity.
Defined.

Lemma sample_gcm_correct : gcm_correct Sample.sample_crypto.
Proof.
  intros key iv aad plaintext Hiv.
  destruct iv as [|b iv]; [discriminate|]. reflexivity.
Defined.

Lemma decrypt_encrypt_roundtrip_witness :
  decryptSensitiveData (crypto := Sample.sample_crypto) Sample.no_env
    (encryptSensitiveData (crypto := Sample.sample_crypto) Sample.no_env Sample.sample_iv
       (JString (js "a@b.c")))
  = JString (js "a@b.c").
Proof.
  apply (decrypt_encrypt_roundtrip (crypto := Sample.sample_crypto) Sample.no_env
           Sample.sample_iv (js "a@b.c") sample_gcm_correct).
  - reflexivity.
  - discriminate.
  - vm_compute. reflexivity.
Defined.

(** The string made of the single code unit U+D800 is not empty, yet it
    does not come back from encryption and decryption. *)
Lemma roundtrip_fails_on_lone_surrogate :
  ~ (forall (crypto : CryptoLib) env iv x,
        gcm_correct crypto ->
        length iv = 16%nat ->
        x <> [] ->
        decryptSensitiveData env (encryptSensitiveData env iv (JString x)) = JString x).
Proof.
  intros H.
  specialize (H Sample.sample_crypto Sample.no_env Sample.sample_iv [0xD800]
                sample_gcm_correct eq_refl ltac:(discriminate)).
  vm_compute in H. discriminate H.
Qed.

Example lone_surrogate_sample :
  decryptSensitiveData (crypto := Sample.sample_crypto) Sample.no_env
    (encryptSensitiveData (crypto := Sample.sample_crypto) Sample.no_env Sample.sample_iv
       (JString [0xD800]))
  = JString [0xFFFD].
Proof. vm_compute. reflexivity. Qed.

Lemma decrypt_fails_open_witness :
  decryptSensitiveData (crypto := Sample.sample_crypto) Sample.no_env
    (JString (js "plain text"))
  = JString (js "plain text")
  /\ decryptSensitiveData (crypto := Sample.sample_crypto) Sample.no_env
       (JString (js "2a:00:6162"))
     = JString (js "2a:00:6162")
  /\ decryptSensitiveData (crypto := Sample.sample_crypto) Sample.no_env
       (JString (js "2a:00000000000000000000000000000000:6162:and:more"))
     = JString (js "ab").
Proof.
  split; [|split].
  - apply (proj1 (decrypt_fails_open (crypto := Sample.sample_crypto) Sample.no_env
                   (JString (js "plain text")))).
    right. left. vm_compute. reflexivity.
  - rewrite (proj1 (proj2 (decrypt_fails_open (crypto := Sample.sample_crypto) Sample.no_env
                             (JString (js "2a:00:6162"))))
               (js "2a:00:6162") (js "2a") (js "00") (js "6162") [] eq_refl eq_refl).
    vm_compute. reflexivity.
  - rewrite (proj1 (proj2 (decrypt_fails_open (crypto := Sample.sample_crypto) Sample.no_env
                             (JString (js "2a:00000000000000000000000000000000:6162:and:more"))))
               (js "2a:00000000000000000000000000000000:6162:and:more")
               (js "2a") (js "00000000000000000000000000000000") (js "6162")
               [js "and"; js "more"] eq_refl eq_refl).
    vm_compute. reflexivity.
Defined.

(** An envelope followed by a colon and more text is not an envelope, yet
    it is decrypted rather than returned unchanged. *)
Lemma decrypt_accepts_trailing_field :
  ~ (forall (crypto : CryptoLib) env v,
        malformed_envelope v -> decryptSensitiveData env v = v).
Proof.
  intros H.
  specialize (H Sample.sample_crypto Sample.no_env
                (JString (string_of (encryptSensitiveData (crypto := Sample.sample_crypto)
                                       Sample.no_env Sample.sample_iv (JString (js "a@b.c")))
                          ++ js ":" ++ js "00"))).
  assert (Hmal : malformed_envelope
                   (JString (string_of (encryptSensitiveData (crypto := Sample.sample_crypto)
                                          Sample.no_env Sample.sample_iv (JString (js "a@b.c")))
                             ++ js ":" ++ js "00"))).
  { intros s Hs Henv. injection Hs as <-.
    apply envelope_three_fields in Henv. vm_compute in Henv. discriminate Henv. }
  specialize (H Hmal). vm_compute in H. discriminate H.
Qed.

Example trailing_field_sample :
  decryptSensitiveData (crypto := Sample.sample_crypto) Sample.no_env
    (JString (string_of (encryptSensitiveData (crypto := Sample.sample_crypto)
                           Sample.no_env Sample.sample_iv (JString (js "a@b.c")))
              ++ js ":" ++ js "00"))
  = JString (js "a@b.c").
Proof. vm_compute. reflexivity. Qed.

(* ================================================================== *)
(** * Part III.  Further properties of the code                        *)
(* ================================================================== *)

(** ** Lifetime strings and random tokens *)

Lemma parseInt10_from_nonneg digits acc :
  0 <= acc -> forallb is_digit digits = true ->
  0 <= fold_left (fun acc c => 10 * acc + (c - 48)) digits acc.
Proof.
  revert acc. induction digits as [|c digits IH]; intros acc Hacc Hd; [exact Hacc|].
  simpl in Hd. apply andb_true_iff in Hd as [Hc Hd].
  unfold is_digit in Hc. apply andb_true_iff in Hc as [Hc1 Hc2].
  apply Z.leb_le in Hc1, Hc2. simpl. apply IH; [lia|exact Hd].
Qed.

Lemma parseExpiry_of_lifetime expiry digits unit m :
  lifetime_string expiry digits unit m ->
  parseExpiryToSeconds expiry = inr (parseInt10 digits * m).
Proof.
  intros (-> & Hne & Hd & Hu). unfold parseExpiryToSeconds.
  rewrite rev_app_distr. cbn [rev app]. rewrite rev_involutive, Hd.
  rewrite bool_decide_eq_false_2 by exact Hne. cbn [negb andb].
  unfold unit_seconds in Hu.
  destruct (unit =? 115); [injection Hu as <-; f_equal; lia|].
  destruct (unit =? 109); [injection Hu as <-; reflexivity|].
  destruct (unit =? 104); [injection Hu as <-; reflexivity|].
  destruct (unit =? 100); [injection Hu as <-; reflexivity|discriminate].
Qed.

Lemma fold_decimal digits acc :
  fold_left (fun acc c => 10 * acc + (c - 48)) digits acc
  = acc * 10 ^ Z.of_nat (length digits) + decimal_value digits.
Proof.
  revert acc. induction digits as [|c digits IH]; intros acc.
  - cbn. lia.
  - cbn [fold_left decimal_value length]. rewrite IH.
    rewrite Nat2Z.inj_succ, Z.pow_succ_r by lia. ring.
Qed.

Lemma parseInt10_decimal digits : parseInt10 digits = decimal_value digits.
Proof. unfold parseInt10. rewrite fold_decimal. lia. Qed.

(** X1.  [parseExpiryToSeconds] accepts exactly the strings made of one or
    more decimal digits followed by one of [s], [m], [h], [d]; on any
    other string it throws "Invalid expiry format: " followed by the
    string.  When the number the digits denote, times 1, 60, 3600 or
    86400, is an integer a JavaScript number holds exactly (at most
    2^53 - 1), that product is the value returned.  Of a larger product
    only its sign is stated: JavaScript returns the nearest double. *)
Theorem parseExpiryToSeconds_spec expiry :
  match parseExpiryToSeconds expiry with
  | inr v =>
      0 <= v
      /\ exists digits unit m,
           lifetime_string expiry digits unit m
           /\ (decimal_value digits * m <= MAX_SAFE_INTEGER ->
               v = decimal_value digits * m)
  | inl e =>
      e = Error (js "Invalid expiry format: " ++ expiry)
      /\ forall digits unit m, ~ lifetime_string expiry digits unit m
  end.
Proof.
  destruct (parseExpiryToSeconds expiry) as [e|v] eqn:Hp.
  - split.
    + unfold parseExpiryToSeconds in Hp.
      destruct (rev expiry) as [|unit rdigits]; [congruence|].
      repeat match type of Hp with
             | context [if ?b then _ else _] => destruct b
             end; congruence.
    + intros digits unit m Hl.
      rewrite (parseExpiry_of_lifetime _ _ _ _ Hl) in Hp. discriminate.
  - unfold parseExpiryToSeconds in Hp.
    destruct (rev expiry) as [|unit rdigits] eqn:Hrev; [discriminate|].
    assert (Hexp : expiry = rev rdigits ++ [unit]).
    { rewrite <- (rev_involutive expiry), Hrev. reflexivity. }
    destruct (forallb is_digit (rev rdigits)) eqn:Hd; [|discriminate].
    destruct (bool_decide (rev rdigits = [])) eqn:Hne; [discriminate|].
    apply bool_decide_eq_false_1 in Hne. cbn [negb andb] in Hp.
    pose proof (parseInt10_from_nonneg (rev rdigits) 0 ltac:(lia) Hd) as Hnn.
    fold (parseInt10 (rev rdigits)) in Hnn.
    assert (Hcase : exists m, unit_seconds unit = Some m
                              /\ v = parseInt10 (rev rdigits) * m /\ 0 < m).
    { unfold unit_seconds.
      destruct (unit =? 115); [exists 1; injection Hp as <-; repeat split; lia|].
      destruct (unit =? 109); [exists 60; injection Hp as <-; repeat split; lia|].
      destruct (unit =? 104); [exists 3600; injection Hp as <-; repeat split; lia|].
      destruct (unit =? 100); [exists 86400; injection Hp as <-; repeat split; lia|].
      discriminate. }
    destruct Hcase as (m & Hu & Hv & Hm). split; [nia|].
    exists (rev rdigits), unit, m. split; [repeat split; assumption|].
    intros _. rewrite Hv, parseInt10_decimal. reflexivity.
Qed.

Lemma hex_digit_lower d : 0 <= d < 16 -> is_lower_hex (hex_digit d).
Proof.
  intros Hd. unfold is_lower_hex, hex_digit. destruct (Z.ltb_spec d 10); lia.
Qed.

Lemma hex_encode_lower b : Forall is_lower_hex (hex_encode b).
Proof.
  induction b as [|x b IH]; [constructor|].
  pose proof (Z_of_byte_range x) as Hx.
  cbn [hex_encode flat_map app]. fold (hex_encode b).
  constructor; [|constructor; [|exact IH]]; apply hex_digit_lower.
  - split; [apply Z.div_pos|apply Z.div_lt_upper_bound]; lia.
  - apply Z.mod_pos_bound. lia.
Qed.

Lemma hex_encode_length b : length (hex_encode b) = (2 * length b)%nat.
Proof.
  induction b as [|x b IH]; [reflexivity|].
  cbn [hex_encode flat_map app length]. fold (hex_encode b). rewrite IH. lia.
Qed.

Lemma is_lower_hex_not_space c : is_lower_hex c -> is_js_space c = false.
Proof.
  intros Hc. unfold is_lower_hex in Hc. unfold is_js_space.
  repeat match goal with
         | |- context [?a <=? ?b] => destruct (Z.leb_spec a b)
         | |- context [?a =? ?b] => destruct (Z.eqb_spec a b)
         end; simpl; try reflexivity; lia.
Qed.

(** X2.  A token drawn by [generateRefreshToken] or [generateSecureToken]
    has two lowercase hexadecimal characters per random byte (128 for the
    64 bytes of a refresh token), so it holds no white space and no colon,
    and two tokens are equal only when the random bytes were. *)
Theorem random_token_format ent ent' random :
  length (generateRefreshToken ent) = (2 * length (randomBytes ent))%nat
  /\ Forall is_lower_hex (generateRefreshToken ent)
  /\ Forall (fun c => is_js_space c = false) (generateRefreshToken ent)
  /\ (generateRefreshToken ent = generateRefreshToken ent' ->
      randomBytes ent = randomBytes ent')
  /\ generateSecureToken random = generateRefreshToken (mkEntropy random [])
  /\ hex_decode (generateSecureToken random) = random.
Proof.
  unfold generateRefreshToken, generateSecureToken. repeat split.
  - apply hex_encode_length.
  - apply hex_encode_lower.
  - eapply List.Forall_impl; [|apply hex_encode_lower]. apply is_lower_hex_not_space.
  - intros Heq. rewrite <- (hex_decode_encode (randomBytes ent)), Heq.
    apply hex_decode_encode.
  - apply hex_decode_encode.
Qed.

(** ** Session creation, rotation and what follows them *)

Section SessionLifecycle.
Context {jwt : JwtLib}.
Variable env : ProcessEnv.

Lemma parseExpiry_not_UserNotFound expiry :
  parseExpiryToSeconds expiry <> inl UserNotFound.
Proof.
  unfold parseExpiryToSeconds, UserNotFound.
  assert (Hne : forall x : Result Z,
             x = inl (Error (js "Invalid expiry format: " ++ expiry)) ->
             x <> inl (Error (js "User not found"))).
  { intros x -> H. injection H as H. vm_compute in H. discriminate. }
  destruct (rev expiry) as [|unit rdigits]; [now apply Hne|].
  repeat match goal with
         | |- context [if ?b then _ else _] => destruct b
         end; try (now apply Hne); discriminate.
Qed.

(** The outcome of a session creation, case by case. *)
Lemma createSession_outcome now ent uid access refresh dev ip ua w :
  (exists e, e <> UserNotFound
             /\ (parseExpiryToSeconds (ACCESS_TOKEN_EXPIRY env) = inl e
                 \/ parseExpiryToSeconds (REFRESH_TOKEN_EXPIRY env) = inl e)
             /\ createSession env now ent uid access refresh dev ip ua w = (inl e, w))
  \/ (exists a r,
        parseExpiryToSeconds (ACCESS_TOKEN_EXPIRY env) = inr a
        /\ parseExpiryToSeconds (REFRESH_TOKEN_EXPIRY env) = inr r
        /\ filter (fun u => vottery_user_management.user_id u = uid) (users w) = []
        /\ createSession env now ent uid access refresh dev ip ua w
           = (inl UserNotFound, logged Select T_user_management w))
  \/ (exists a r u us,
        parseExpiryToSeconds (ACCESS_TOKEN_EXPIRY env) = inr a
        /\ parseExpiryToSeconds (REFRESH_TOKEN_EXPIRY env) = inr r
        /\ filter (fun u => vottery_user_management.user_id u = uid) (users w) = u :: us
        /\ createSession env now ent uid access refresh dev ip ua w
           = (inr (Tokens.mk access refresh),
              mkWorld
                (sessions w ++ [created_row w now ent uid access refresh dev ip ua u a r])
                (users w) (biometric_keys w) (security_questions w)
                (next_session_id w + 1) (next_question_id w)
                ((qlog w ++ [(Select, T_user_management)]) ++ [(Insert, T_sessions)])
                (res_headers w))).
Proof.
  unfold createSession, select_user_role, insert_session, bind, lift, logq, throw, ret,
    logged.
  destruct (parseExpiryToSeconds (ACCESS_TOKEN_EXPIRY env)) as [e|a] eqn:Ha.
  { left. exists e. repeat split; [|now left].
    intros ->. now apply parseExpiry_not_UserNotFound in Ha. }
  destruct (parseExpiryToSeconds (REFRESH_TOKEN_EXPIRY env)) as [e|r] eqn:Hr.
  { left. exists e. repeat split; [|now right].
    intros ->. now apply parseExpiry_not_UserNotFound in Hr. }
  simpl.
  destruct (filter _ (users w)) as [|u us] eqn:Hf.
  - right. left. exists a, r. repeat split.
  - right. right. exists a, r, u, us. repeat split.
Qed.

(** X3.  [createSession] throws "User not found" exactly when both
    configured lifetimes parse and the user table has no row for the user
    id.  A lifetime that does not parse is reported before any query is
    issued.  Whatever it throws, the session table and its id sequence are
    as they were. *)
Theorem createSession_failures now ent uid access refresh dev ip ua w :
  (fst (createSession env now ent uid access refresh dev ip ua w) = inl UserNotFound
   <-> (exists a r, parseExpiryToSeconds (ACCESS_TOKEN_EXPIRY env) = inr a
                    /\ parseExpiryToSeconds (REFRESH_TOKEN_EXPIRY env) = inr r)
       /\ (forall u, In u (users w) -> vottery_user_management.user_id u <> uid))
  /\ (forall e,
        parseExpiryToSeconds (ACCESS_TOKEN_EXPIRY env) = inl e
        \/ parseExpiryToSeconds (REFRESH_TOKEN_EXPIRY env) = inl e ->
        exists e', createSession env now ent uid access refresh dev ip ua w = (inl e', w))
  /\ (forall e,
        fst (createSession env now ent uid access refresh dev ip ua w) = inl e ->
        sessions (snd (createSession env now ent uid access refresh dev ip ua w))
        = sessions w
        /\ next_session_id (snd (createSession env now ent uid access refresh dev ip ua w))
           = next_session_id w).
Proof.
  destruct (createSession_outcome now ent uid access refresh dev ip ua w)
    as [(e0 & Hne & Hparse & Heq)
       |[(a & r & Ha & Hr & Hf & Heq)|(a & r & u & us & Ha & Hr & Hf & Heq)]];
    rewrite Heq; cbn [fst snd].
  - split; [|split].
    + split; [congruence|].
      intros [(a & r & Ha & Hr) _]. destruct Hparse; congruence.
    + intros e _. now exists e0.
    + intros e _. split; reflexivity.
  - split; [|split].
    + split; [|reflexivity]. intros _. split; [now exists a, r|].
      intros u Hin Hu.
      pose proof (proj1 (filter_nil_iff_none _ _) Hf u Hin) as Hno. now apply Hno.
    + intros e [He|He]; congruence.
    + intros e _. split; reflexivity.
  - split; [|split].
    + split; [discriminate|]. intros [_ Hall]. exfalso.
      destruct (filter_head_In _ _ _ _ Hf) as [Hin Hu]. now apply (Hall u).
    + intros e [He|He]; congruence.
    + intros e He. discriminate.
Qed.

(** X4.  When [createSession] returns, it returns the two tokens it was
    given and has appended exactly one row to the session table: active,
    numbered by the id sequence, carrying the tokens, the device id (null
    when empty), the type and role of the first user row for the user id,
    and expiries that are the instant of insertion plus the two configured
    lifetimes.  The rows already there and the user table are untouched. *)
Theorem createSession_inserts now ent uid access refresh dev ip ua w t w' :
  createSession env now ent uid access refresh dev ip ua w = (inr t, w') ->
  t = Tokens.mk access refresh
  /\ exists u a r,
       head (filter (fun u => vottery_user_management.user_id u = uid) (users w)) = Some u
       /\ parseExpiryToSeconds (ACCESS_TOKEN_EXPIRY env) = inr a
       /\ parseExpiryToSeconds (REFRESH_TOKEN_EXPIRY env) = inr r
       /\ sessions w' = sessions w ++ [created_row w now ent uid access refresh dev ip ua u a r]
       /\ next_session_id w' = next_session_id w + 1
       /\ users w' = users w.
Proof.
  intros Hrun.
  destruct (createSession_outcome now ent uid access refresh dev ip ua w)
    as [(e0 & _ & _ & Heq)
       |[(a & r & _ & _ & _ & Heq)|(a & r & u & us & Ha & Hr & Hf & Heq)]];
    rewrite Heq in Hrun; try discriminate.
  injection Hrun as <- <-. split; [reflexivity|].
  exists u, a, r. rewrite Hf. repeat split; assumption.
Qed.

(** What the gate does with a bearer token that verifies. *)
Lemma gate_verified_run clock ent req w tok claims :
  bearer_token req = Some tok ->
  tok <> [] ->
  verifyAccessToken env (clock 0%nat) tok = inr claims ->
  authenticateToken env clock ent req w
  = match filter (active_token_match tok (clock 5%nat)) (sessions w) with
    | [] => (inr SessionInvalid, logged Select T_sessions w)
    | _ :: _ =>
        (inr (Next claims false),
         set_sessions
           (update_where (fun x => vottery_sessions.session_token x = tok)
              (touched (clock 6%nat)))
           (logged Update T_sessions (logged Select T_sessions w)))
    end.
Proof.
  intros Hb Hne Hv. destruct tok as [|c t]; [congruence|].
  unfold authenticateToken, try_catch, bind. rewrite Hb, Hv.
  unfold ret at 1. cbv beta iota.
  unfold select_session_by_token, update_last_activity, bind, logq, ret, logged.
  simpl.
  destruct (filter (active_token_match (c :: t) (clock 5%nat)) (sessions w));
    [reflexivity|]. destruct claims. reflexivity.
Qed.

Lemma filter_not_nil {A} (P : A -> Prop) `{forall x, Decision (P x)} (l : list A) x :
  In x l -> P x -> exists y ys, filter P l = y :: ys.
Proof.
  intros Hin HP. destruct (filter P l) as [|y ys] eqn:Hf; [|eauto].
  exfalso. now apply (proj1 (filter_nil_iff_none P l) Hf x).
Qed.

(** X5.  A session just created is accepted by the gate: a request bearing
    the access token the session was created with, if that token verifies,
    passes with the token's claims for as long as the session check is
    made before the instant of creation plus the access-token lifetime. *)
Theorem created_session_authenticates
    now ent uid access refresh dev ip ua w t w1 clock ent' req claims a :
  createSession env now ent uid access refresh dev ip ua w = (inr t, w1) ->
  parseExpiryToSeconds (ACCESS_TOKEN_EXPIRY env) = inr a ->
  bearer_token req = Some access ->
  access <> [] ->
  verifyAccessToken env (clock 0%nat) access = inr claims ->
  clock 5%nat < now + seconds a ->
  fst (authenticateToken env clock ent' req w1) = inr (Next claims false).
Proof.
  intros Hrun Ha Hb Hne Hv Hlt.
  destruct (createSession_outcome now ent uid access refresh dev ip ua w)
    as [(e0 & _ & _ & Heq)
       |[(a' & r & _ & _ & _ & Heq)|(a' & r & u & us & Ha' & Hr & Hf & Heq)]];
    rewrite Heq in Hrun; try discriminate.
  injection Hrun as <- <-. rewrite Ha in Ha'. injection Ha' as <-.
  rewrite (gate_verified_run _ _ _ _ _ _ Hb Hne Hv).
  edestruct (filter_not_nil (active_token_match access (clock 5%nat))) as (y & ys & ->);
    [| |reflexivity].
  - cbn [sessions]. apply in_or_app. right. left. reflexivity.
  - unfold active_token_match, created_row. cbn. repeat split. exact Hlt.
Qed.

(** X6.  Whether a session can ever be refreshed is decided by the device
    id it was created with.  With a non-empty device id, a rotation that
    presents the session's refresh token and that device id before the
    instant of creation plus the refresh-token lifetime finds the row and
    does not fail with "Invalid or expired refresh token".  Without a
    device id, or with an empty one, the row stores NULL, which no
    presented device id equals: when no other row carries the refresh
    token, every rotation with it fails with that error, whatever the
    device and the instant. *)
Theorem created_session_refreshable
    now ent uid access refresh dev ip ua w t w1 r :
  createSession env now ent uid access refresh dev ip ua w = (inr t, w1) ->
  parseExpiryToSeconds (REFRESH_TOKEN_EXPIRY env) = inr r ->
  (truthy_str dev = true ->
   forall clock ent',
     clock 0%nat < now + seconds r ->
     fst (rotateRefreshToken env clock ent' (Some refresh) dev w1)
     <> inl RefreshTokenInvalid)
  /\ (truthy_str dev = false ->
      (forall x, In x (sessions w) -> vottery_sessions.refresh_token x <> refresh) ->
      forall clock ent' dev',
        fst (rotateRefreshToken env clock ent' (Some refresh) dev' w1)
        = inl RefreshTokenInvalid).
Proof.
  intros Hrun Hr.
  destruct (createSession_outcome now ent uid access refresh dev ip ua w)
    as [(e0 & _ & _ & Heq)
       |[(a & r' & _ & _ & _ & Heq)|(a & r' & u & us & Ha & Hr' & Hf & Heq)]];
    rewrite Heq in Hrun; try discriminate.
  injection Hrun as <- <-. rewrite Hr in Hr'. injection Hr' as <-.
  split.
  - intros Hdev clock ent' Hlt.
    match goal with
    | |- fst (rotateRefreshToken env clock ent' ?rt ?dv ?w1) <> _ =>
        destruct (rotate_outcome env clock ent' rt dv w1)
          as [[Hnil _]|[(s & rest & e & _ & Hne & Heq')
                       |(s & rest & tok & a' & r' & _ & _ & _ & _ & Heq')]]
    end.
    + exfalso.
      apply (proj1 (filter_nil_iff_none _ _) Hnil
               (created_row w now ent uid access refresh dev ip ua u a r)).
      * cbn [sessions]. apply in_or_app. right. left. reflexivity.
      * unfold active_refresh_match, created_row. cbn. repeat split; try assumption.
        destruct dev as [[|c d]|]; try discriminate. now exists (c :: d).
    + rewrite Heq'. cbn. congruence.
    + rewrite Heq'. discriminate.
  - intros Hdev Hfresh clock ent' dev'.
    rewrite rotate_no_match; [reflexivity|].
    apply (proj2 (filter_nil_iff_none _ _)). cbn [sessions].
    intros x Hin (Hrt & (dv & _ & Hd) & _).
    apply in_app_or in Hin as [Hin|[<-|[]]].
    + apply (Hfresh x Hin). congruence.
    + unfold created_row in Hd. cbn in Hd. unfold or_null, or_str in Hd.
      rewrite Hdev in Hd. discriminate.
Qed.

End SessionLifecycle.

Lemma createSession_inserts_witness :
  Tokens.mk Sample.token7 (js "refresh-1") = Tokens.mk Sample.token7 (js "refresh-1")
  /\ exists u a r,
       head (filter (fun u => vottery_user_management.user_id u = 7)
               (users Sample.signup_world)) = Some u
       /\ parseExpiryToSeconds (ACCESS_TOKEN_EXPIRY Sample.no_env) = inr a
       /\ parseExpiryToSeconds (REFRESH_TOKEN_EXPIRY Sample.no_env) = inr r
       /\ sessions (Sample.created_world (Some (js "device-1")))
          = sessions Sample.signup_world
              ++ [created_row Sample.signup_world 0 Sample.no_entropy 7 Sample.token7
                    (js "refresh-1") (Some (js "device-1")) None None u a r]
       /\ next_session_id (Sample.created_world (Some (js "device-1")))
          = next_session_id Sample.signup_world + 1
       /\ users (Sample.created_world (Some (js "device-1"))) = users Sample.signup_world.
Proof.
  apply (createSession_inserts Sample.no_env 0 Sample.no_entropy 7 Sample.token7
           (js "refresh-1") (Some (js "device-1")) None None Sample.signup_world).
  vm_compute. reflexivity.
Defined.

Lemma created_session_authenticates_witness :
  fst (authenticateToken (jwt := Sample.sample_jwt) Sample.no_env Sample.at_zero
         Sample.no_entropy (Sample.bearer_request Sample.token7)
         (Sample.created_world (Some (js "device-1"))))
  = inr (Next (mkPayload (JNumber 7) (JString (js "voter")) (JString (js "analyst"))) false).
Proof.
  apply (created_session_authenticates (jwt := Sample.sample_jwt) Sample.no_env
           0 Sample.no_entropy 7 Sample.token7 (js "refresh-1") (Some (js "device-1"))
           None None Sample.signup_world (Tokens.mk Sample.token7 (js "refresh-1"))
           (Sample.created_world (Some (js "device-1")))
           Sample.at_zero Sample.no_entropy (Sample.bearer_request Sample.token7) _ 60).
  - vm_compute. reflexivity.
  - vm_compute. reflexivity.
  - vm_compute. reflexivity.
  - discriminate.
  - vm_compute. reflexivity.
  - vm_compute. reflexivity.
Defined.

Lemma created_session_refreshable_witness :
  (truthy_str (Some (js "device-1")) = true ->
   forall clock ent',
     clock 0%nat < 0 + seconds 120 ->
     fst (rotateRefreshToken (jwt := Sample.sample_jwt) Sample.no_env clock ent'
            (Some (js "refresh-1")) (Some (js "device-1"))
            (Sample.created_world (Some (js "device-1"))))
     <> inl RefreshTokenInvalid)
  /\ (truthy_str (Some (js "device-1")) = false ->
      (forall x, In x (sessions Sample.signup_world) ->
                 vottery_sessions.refresh_token x <> js "refresh-1") ->
      forall clock ent' dev',
        fst (rotateRefreshToken (jwt := Sample.sample_jwt) Sample.no_env clock ent'
               (Some (js "refresh-1")) dev' (Sample.created_world (Some (js "device-1"))))
        = inl RefreshTokenInvalid).
Proof.
  apply (created_session_refreshable (jwt := Sample.sample_jwt) Sample.no_env
           0 Sample.no_entropy 7 Sample.token7 (js "refresh-1") (Some (js "device-1"))
           None None Sample.signup_world (Tokens.mk Sample.token7 (js "refresh-1"))
           (Sample.created_world (Some (js "device-1"))) 120).
  - vm_compute. reflexivity.
  - vm_compute. reflexivity.
Defined.

(** ** Single use of refresh tokens, logout and cleanup *)

Lemma In_update_where {A} (cond : A -> Prop) `{forall x, Decision (cond x)}
    (f : A -> A) (l : list A) y :
  In y (update_where cond f l) ->
  exists x, In x l /\ ((cond x /\ y = f x) \/ (~ cond x /\ y = x)).
Proof.
  unfold update_where. intros Hin. apply in_map_iff in Hin as (x & Hy & Hin).
  exists x. split; [exact Hin|]. destruct (decide (cond x)); [left|right]; auto.
Qed.


Section SessionEnding.
Context {jwt : JwtLib}.
Variable env : ProcessEnv.

(** X7.  A refresh token is spent by the rotation that accepts it.  When
    the rows carrying the token all belong to one session id and the
    rotation hands out a different refresh token, every later rotation
    with the old token fails with "Invalid or expired refresh token",
    whatever the device and the instant. *)
Theorem refresh_token_single_use clock ent rt dev w t w1 :
  rotateRefreshToken env clock ent (Some rt) dev w = (inr t, w1) ->
  Tokens.refreshToken t <> rt ->
  (forall x y, In x (sessions w) -> In y (sessions w) ->
               vottery_sessions.refresh_token x = rt ->
               vottery_sessions.refresh_token y = rt ->
               vottery_sessions.id x = vottery_sessions.id y) ->
  forall clock' ent' dev',
    rotateRefreshToken env clock' ent' (Some rt) dev' w1
    = (inl RefreshTokenInvalid, logged Select T_sessions w1).
Proof.
  intros Hrun Hnew Hone clock' ent' dev'.
  destruct (rotate_outcome env clock ent (Some rt) dev w)
    as [[_ Heq]|[(s & rest & e & _ & _ & Heq)
                |(s & rest & tok & a & r & Hf & _ & _ & _ & Heq)]];
    rewrite Heq in Hrun; try discriminate.
  injection Hrun as <- <-. cbn [Tokens.refreshToken] in Hnew.
  destruct (filter_head_In _ _ _ _ Hf) as [Hin (Hrt & _)].
  injection Hrt as Hrt.
  apply rotate_no_match. apply (proj2 (filter_nil_iff_none _ _)).
  intros y Hy (Hyrt & _). injection Hyrt as Hyrt.
  cbn in Hy. apply In_update_where in Hy as (x & Hx & [[Hid ->]|[Hid ->]]).
  - cbn in Hyrt. congruence.
  - apply Hid. apply Hone; congruence.
Qed.

(** X8.  The pair a rotation returns is live.  The rotated row is still
    active and keeps its device, so a request bearing the new access token
    (if it verifies) passes the gate while the session check is made
    before the instant of the update plus the access-token lifetime, and a
    further rotation with the new refresh token and the same device, made
    before the instant of the update plus the refresh-token lifetime, does
    not fail with "Invalid or expired refresh token". *)
Theorem rotated_pair_is_live clock ent rt dev w t w1 a r :
  rotateRefreshToken env clock ent rt dev w = (inr t, w1) ->
  parseExpiryToSeconds (ACCESS_TOKEN_EXPIRY env) = inr a ->
  parseExpiryToSeconds (REFRESH_TOKEN_EXPIRY env) = inr r ->
  (forall clock' ent' req claims,
      bearer_token req = Some (Tokens.accessToken t) ->
      Tokens.accessToken t <> [] ->
      verifyAccessToken env (clock' 0%nat) (Tokens.accessToken t) = inr claims ->
      clock' 5%nat < clock 2%nat + seconds a ->
      fst (authenticateToken env clock' ent' req w1) = inr (Next claims false))
  /\ (forall clock' ent',
        clock' 0%nat < clock 2%nat + seconds r ->
        fst (rotateRefreshToken env clock' ent' (Some (Tokens.refreshToken t)) dev w1)
        <> inl RefreshTokenInvalid).
Proof.
  intros Hrun Ha Hr.
  destruct (rotate_outcome env clock ent rt dev w)
    as [[_ Heq]|[(s & rest & e & _ & _ & Heq)
                |(s & rest & tok & a' & r' & Hf & _ & Ha' & Hr' & Heq)]];
    rewrite Heq in Hrun; try discriminate.
  injection Hrun as <- <-.
  rewrite Ha in Ha'. injection Ha' as <-. rewrite Hr in Hr'. injection Hr' as <-.
  destruct (filter_head_In _ _ _ _ Hf) as [Hin (_ & Hdev & Hact & _)].
  pose proof (update_where_In
                (fun x => vottery_sessions.id x = vottery_sessions.id s)
                (rotated tok (generateRefreshToken ent) (randomUUID ent) a r (clock 2%nat))
                (sessions w) s Hin eq_refl) as Hnew.
  cbn [Tokens.accessToken Tokens.refreshToken]. split.
  - intros clock' ent' req claims Hb Hne Hv Hlt.
    rewrite (gate_verified_run env _ _ _ _ _ _ Hb Hne Hv).
    edestruct (filter_not_nil (active_token_match tok (clock' 5%nat))) as (y & ys & ->);
      [exact Hnew| |reflexivity].
    unfold active_token_match. cbn. auto.
  - intros clock' ent' Hlt.
    match goal with
    | |- fst (rotateRefreshToken env clock' ent' ?rt' dev ?w1) <> _ =>
        destruct (rotate_outcome env clock' ent' rt' dev w1)
          as [[Hnil _]|[(s' & rest' & e & _ & Hne & Heq')
                       |(s' & rest' & tok' & a' & r' & _ & _ & _ & _ & Heq')]]
    end.
    + exfalso. apply (proj1 (filter_nil_iff_none _ _) Hnil _ Hnew).
      unfold active_refresh_match. cbn. auto.
    + rewrite Heq'. cbn. congruence.
    + rewrite Heq'. discriminate.
Qed.


Lemma invalidated_no_token_match tok now w :
  filter (active_token_match tok now) (sessions (snd (invalidateSession tok w))) = [].
Proof.
  apply (proj2 (filter_nil_iff_none _ _)). cbn.
  intros y Hy (Htok & Hact & _).
  apply In_update_where in Hy as (x & _ & [[_ ->]|[Hn ->]]); [discriminate|contradiction].
Qed.

(** X10.  After logout the session is gone for both of its tokens.  Once
    [invalidateSession] has run for an access token, a request bearing
    that token, even though the token still verifies, is answered 401
    SESSION_INVALID; and a refresh token carried only by rows with that
    access token is no longer accepted by the rotation. *)
Theorem invalidated_session_rejected tok rt w clock ent req claims :
  bearer_token req = Some tok ->
  tok <> [] ->
  verifyAccessToken env (clock 0%nat) tok = inr claims ->
  (forall x, In x (sessions w) ->
             vottery_sessions.refresh_token x = rt ->
             vottery_sessions.session_token x = tok) ->
  fst (authenticateToken env clock ent req (snd (invalidateSession tok w)))
  = inr SessionInvalid
  /\ forall clock' ent' dev,
       fst (rotateRefreshToken env clock' ent' (Some rt) dev (snd (invalidateSession tok w)))
       = inl RefreshTokenInvalid.
Proof.
  intros Hb Hne Hv Hrt. split.
  - rewrite (gate_verified_run env _ _ _ _ _ _ Hb Hne Hv).
    rewrite invalidated_no_token_match. reflexivity.
  - intros clock' ent' dev. rewrite rotate_no_match; [reflexivity|].
    apply (proj2 (filter_nil_iff_none _ _)). cbn.
    intros y Hy (Hyrt & _ & Hact & _). injection Hyrt as Hyrt.
    apply In_update_where in Hy as (x & Hx & [[_ ->]|[Hn ->]]); [discriminate|].
    apply Hn. apply Hrt; [exact Hx|congruence].
Qed.


End SessionEnding.

Lemma refresh_token_single_use_witness :
  rotateRefreshToken (jwt := Sample.sample_jwt) Sample.no_env Sample.at_zero Sample.no_entropy
    (Some (js "refresh-1")) (Some (js "device-1")) Sample.refreshed_world7
  = (inl RefreshTokenInvalid, logged Select T_sessions Sample.refreshed_world7).
Proof.
  eapply (refresh_token_single_use (jwt := Sample.sample_jwt) Sample.no_env Sample.at_zero
            Sample.no_entropy (js "refresh-1") (Some (js "device-1")) Sample.world7).
  - vm_compute. reflexivity.
  - vm_compute. discriminate.
  - intros x y [<-|[]] [<-|[]] _ _. reflexivity.
Defined.

Lemma rotated_pair_is_live_witness :
  (forall clock' ent' req claims,
      bearer_token req = Some Sample.token7 ->
      Sample.token7 <> [] ->
      verifyAccessToken (jwt := Sample.sample_jwt) Sample.no_env (clock' 0%nat) Sample.token7
      = inr claims ->
      clock' 5%nat < Sample.at_zero 2%nat + seconds 60 ->
      fst (authenticateToken (jwt := Sample.sample_jwt) Sample.no_env clock' ent' req
             Sample.refreshed_world7)
      = inr (Next claims false))
  /\ (forall clock' ent',
        clock' 0%nat < Sample.at_zero 2%nat + seconds 120 ->
        fst (rotateRefreshToken (jwt := Sample.sample_jwt) Sample.no_env clock' ent'
               (Some (generateRefreshToken Sample.no_entropy)) (Some (js "device-1"))
               Sample.refreshed_world7)
        <> inl RefreshTokenInvalid).
Proof.
  apply (rotated_pair_is_live (jwt := Sample.sample_jwt) Sample.no_env Sample.at_zero
           Sample.no_entropy (Some (js "refresh-1")) (Some (js "device-1")) Sample.world7
           (Tokens.mk Sample.token7 (generateRefreshToken Sample.no_entropy))
           Sample.refreshed_world7 60 120).
  - vm_compute. reflexivity.
  - vm_compute. reflexivity.
  - vm_compute. reflexivity.
Defined.

Lemma invalidated_session_rejected_witness :
  fst (authenticateToken (jwt := Sample.sample_jwt) Sample.no_env Sample.at_zero
         Sample.no_entropy (Sample.bearer_request Sample.token7)
         (snd (invalidateSession Sample.token7 Sample.world7)))
  = inr SessionInvalid
  /\ forall clock' ent' dev,
       fst (rotateRefreshToken (jwt := Sample.sample_jwt) Sample.no_env clock' ent'
              (Some (js "refresh-1")) dev
              (snd (invalidateSession Sample.token7 Sample.world7)))
       = inl RefreshTokenInvalid.
Proof.
  eapply (invalidated_session_rejected (jwt := Sample.sample_jwt) Sample.no_env
            Sample.token7 (js "refresh-1") Sample.world7 Sample.at_zero Sample.no_entropy
            (Sample.bearer_request Sample.token7)).
  - vm_compute. reflexivity.
  - discriminate.
  - vm_compute. reflexivity.
  - intros x [<-|[]] _. reflexivity.
Defined.

(** ** The outcomes of the gate *)

Section GateOutcomes.
Context {jwt : JwtLib}.
Variable env : ProcessEnv.

Lemma gate_no_bearer clock ent req w :
  bearer_token req = None \/ bearer_token req = Some [] ->
  authenticateToken env clock ent req w = (inr NoAccessToken, w).
Proof.
  intros Hb. unfold authenticateToken, try_catch.
  destruct Hb as [-> | ->]; reflexivity.
Qed.

(** X12.  A request without an [Authorization] header, with a header that
    holds no space (a bare token without a scheme), or with a header that
    ends at the space after the scheme, is answered 401 NO_ACCESS_TOKEN;
    no query is issued and no header is written. *)
Theorem gate_without_token clock ent req w :
  headers req !! "authorization"%string = None
  \/ (exists h, headers req !! "authorization"%string = Some h
                /\ (includes 32 h = false
                    \/ exists scheme, includes 32 scheme = false /\ h = scheme ++ [32])) ->
  authenticateToken env clock ent req w = (inr NoAccessToken, w).
Proof.
  intros Hh. apply gate_no_bearer. unfold bearer_token.
  destruct Hh as [-> | (h & -> & [Hns | (scheme & Hns & ->)])].
  - left. reflexivity.
  - left. cbn. rewrite (split_on_no_sep _ _ Hns). reflexivity.
  - right. cbn. rewrite (split_on_app _ _ _ Hns). reflexivity.
Qed.

(** X13.  The gate reads the second space-separated field of the
    [Authorization] header and nothing else of it: the scheme word is not
    compared with "Bearer", and whatever follows a second space is
    dropped.  A request is treated exactly as the request with the header
    "Bearer <token>". *)
Theorem gate_ignores_scheme clock ent hs bd scheme token trailing w :
  includes 32 scheme = false ->
  includes 32 token = false ->
  authenticateToken env clock ent
    (mkRequest (<["authorization"%string := scheme ++ 32 :: token ++ 32 :: trailing]> hs) bd) w
  = authenticateToken env clock ent
      (mkRequest (<["authorization"%string := js "Bearer " ++ token]> hs) bd) w.
Proof.
  intros Hs Ht.
  assert (Hb : bearer_token
                 (mkRequest (<["authorization"%string
                               := scheme ++ 32 :: token ++ 32 :: trailing]> hs) bd)
               = bearer_token
                   (mkRequest (<["authorization"%string := js "Bearer " ++ token]> hs) bd)).
  { unfold bearer_token. cbn [headers]. rewrite !lookup_insert_eq. cbn [mbind option_bind].
    rewrite (split_on_app 32 scheme _ Hs), (split_on_app 32 token _ Ht).
    change (js "Bearer " ++ token) with (js "Bearer" ++ 32 :: token).
    rewrite (split_on_app 32 (js "Bearer") token eq_refl).
    rewrite (split_on_no_sep _ _ Ht). reflexivity. }
  unfold authenticateToken. rewrite Hb.
  unfold request_refresh_token, request_device_id. cbn [headers body].
  rewrite !lookup_insert_ne by discriminate. reflexivity.
Qed.

(** X14.  A token that fails verification for any reason other than
    expiry is answered 403 ACCESS_TOKEN_INVALID.  No rotation is tried,
    even when the request offers a refresh token and a device id, and the
    store is not queried. *)
Theorem gate_invalid_token clock ent req w tok e :
  bearer_token req = Some tok ->
  tok <> [] ->
  verifyAccessToken env (clock 0%nat) tok = inl e ->
  err_name e <> js "TokenExpiredError" ->
  authenticateToken env clock ent req w = (inr AccessTokenInvalid, w).
Proof.
  intros Hb Hne Hv Hname. destruct tok as [|c t]; [congruence|].
  unfold authenticateToken, try_catch, bind. rewrite Hb, Hv.
  rewrite bool_decide_eq_false_2 by exact Hname. reflexivity.
Qed.


(** X16.  The transparent refresh, from the store's point of view.  A
    request with an expired access token that offers the refresh token
    and the device of an active session, before the refresh expiry, is
    let through as rotated with the claims of the freshly signed token;
    both new tokens are put on the response headers; and the session
    check is made on the row as the rotation left it, so it must come
    before the instant of the rotation's update plus the access-token
    lifetime.  The two configured lifetimes are taken within the range
    in which the store computes the new expiries: beyond it the
    rotation's update raises an error and the gate answers 401. *)
Theorem gate_transparent_refresh clock ent req w tok e s rest newAccess a r claims :
  bearer_token req = Some tok ->
  tok <> [] ->
  verifyAccessToken env (clock 0%nat) tok = inl e ->
  err_name e = js "TokenExpiredError" ->
  truthy_str (request_refresh_token req) = true ->
  truthy_str (request_device_id req) = true ->
  filter (active_refresh_match (request_refresh_token req) (request_device_id req)
            (clock 1%nat)) (sessions w) = s :: rest ->
  generateAccessToken env (clock 2%nat) (rotation_claims s) = inr newAccess ->
  parseExpiryToSeconds (ACCESS_TOKEN_EXPIRY env) = inr a ->
  parseExpiryToSeconds (REFRESH_TOKEN_EXPIRY env) = inr r ->
  store_computes (clock 3%nat) a ->
  store_computes (clock 3%nat) r ->
  verifyAccessToken env (clock 4%nat) newAccess = inr claims ->
  clock 5%nat < clock 3%nat + seconds a ->
  fst (authenticateToken env clock ent req w) = inr (Next claims true)
  /\ res_headers (snd (authenticateToken env clock ent req w))
     = res_headers w ++ [("x-access-token"%string, newAccess);
                         ("x-refresh-token"%string, generateRefreshToken ent)]
  /\ Exists (fun x => vottery_sessions.session_token x = newAccess
                      /\ vottery_sessions.refresh_token x = generateRefreshToken ent
                      /\ vottery_sessions.last_activity x = clock 6%nat)
       (sessions (snd (authenticateToken env clock ent req w))).
Proof.
  intros Hb Hne Hv Hname Hrt Hdev Hf Hsign Ha Hr _ _ Hv' Hlt.
  destruct (filter_head_In _ _ _ _ Hf) as [Hin (_ & _ & Hact & _)].
  pose proof (rotate_match env (later 1 clock) ent _ _ w s rest Hf) as Hrot.
  unfold later in Hrot at 2 3. cbn [Nat.add] in Hrot.
  rewrite Hsign, Ha, Hr in Hrot.
  pose proof (update_where_In
                (fun x => vottery_sessions.id x = vottery_sessions.id s)
                (rotated newAccess (generateRefreshToken ent) (randomUUID ent) a r
                   (clock 3%nat))
                (sessions w) s Hin eq_refl) as Hnew.
  erewrite (authenticate_after_rotation env clock ent req w tok e _ _ claims
              Hb Hne Hv Hname Hrt Hdev Hrot Hv').
  - cbn. repeat split.
    + rewrite <- app_assoc. reflexivity.
    + apply List.Exists_exists.
      eexists. split.
      * apply (update_where_In
                 (fun x => vottery_sessions.session_token x = newAccess)
                 (touched (clock 6%nat)) _ _ Hnew). reflexivity.
      * cbn. auto.
  - cbn. intros Hnil.
    apply (proj1 (filter_nil_iff_none _ _) Hnil _ Hnew).
    unfold active_token_match. cbn. auto.
Qed.

(** X17.  A rotation is not rolled back when the token it signed does not
    verify.  The gate then answers 401 REFRESH_TOKEN_INVALID with the
    verifier's message, while the store already holds the rotated row
    and the response already carries both new tokens. *)
Theorem gate_rotation_unverifiable clock ent req w tok e t w1 err :
  bearer_token req = Some tok ->
  tok <> [] ->
  verifyAccessToken env (clock 0%nat) tok = inl e ->
  err_name e = js "TokenExpiredError" ->
  truthy_str (request_refresh_token req) = true ->
  truthy_str (request_device_id req) = true ->
  rotateRefreshToken env (later 1 clock) ent
    (request_refresh_token req) (request_device_id req) w = (inr t, w1) ->
  verifyAccessToken env (clock 4%nat) (Tokens.accessToken t) = inl err ->
  authenticateToken env clock ent req w
  = (inr (Respond 401 (err_message err) (js "REFRESH_TOKEN_INVALID")),
     with_token_headers t w1).
Proof.
  intros Hb Hne Hv Hname Hrt Hdev Hrot Hv'.
  destruct tok as [|c tl]; [congruence|].
  unfold authenticateToken, try_catch, bind. rewrite Hb, Hv, Hname.
  rewrite bool_decide_eq_true_2 by reflexivity.
  rewrite Hrt, Hdev. cbn [negb orb]. rewrite Hrot.
  unfold setHeader, lift, ret. cbn [fst snd]. rewrite Hv'. reflexivity.
Qed.

(** X18.  The gate lets a request through only on a verified token with a
    live session.  Whenever it calls [next()], either the bearer token
    verified and an active, unexpired row carries it, or the bearer token
    had expired, the rotation succeeded, the new token verified and an
    active, unexpired row carries the new token; [req.user] is the
    verified claims in both cases. *)
Theorem gate_admits_only_live_sessions clock ent req w user rotated :
  fst (authenticateToken env clock ent req w) = inr (Next user rotated) ->
  (rotated = false
   /\ exists tok,
        bearer_token req = Some tok
        /\ verifyAccessToken env (clock 0%nat) tok = inr user
        /\ Exists (active_token_match tok (clock 5%nat)) (sessions w))
  \/ (rotated = true
      /\ exists old e t w1,
           bearer_token req = Some old
           /\ verifyAccessToken env (clock 0%nat) old = inl e
           /\ err_name e = js "TokenExpiredError"
           /\ rotateRefreshToken env (later 1 clock) ent
                (request_refresh_token req) (request_device_id req) w = (inr t, w1)
           /\ verifyAccessToken env (clock 4%nat) (Tokens.accessToken t) = inr user
           /\ Exists (active_token_match (Tokens.accessToken t) (clock 5%nat))
                (sessions w1)).
Proof.
  unfold authenticateToken, try_catch, bind.
  destruct (bearer_token req) as [[|c tl]|] eqn:Hb; try discriminate.
  destruct (verifyAccessToken env (clock 0%nat) (c :: tl)) as [e|claims] eqn:Hv.
  - destruct (bool_decide (err_name e = js "TokenExpiredError")) eqn:Hname;
      [|discriminate].
    apply bool_decide_eq_true_1 in Hname.
    destruct (negb (truthy_str (request_refresh_token req))
              || negb (truthy_str (request_device_id req))); [discriminate|].
    destruct (rotateRefreshToken env (later 1 clock) ent
                (request_refresh_token req) (request_device_id req) w)
      as [[err|t] w1] eqn:Hrot; [discriminate|].
    unfold setHeader, lift, ret. cbn [fst snd].
    destruct (verifyAccessToken env (clock 4%nat) (Tokens.accessToken t))
      as [err|claims] eqn:Hv'; [discriminate|].
    unfold select_session_by_token, update_last_activity, bind, logq. cbn.
    destruct (filter _ (sessions w1)) as [|s rest] eqn:Hf; [discriminate|].
    destruct claims as [u ty ro].
    cbn. intros Heq. injection Heq as <- <-. right. split; [reflexivity|].
    exists (c :: tl), e, t, w1. repeat split; try assumption.
    apply List.Exists_exists. exists s. apply (filter_head_In _ _ _ _ Hf).
  - unfold ret at 1. cbv beta iota.
    unfold select_session_by_token, update_last_activity, bind, logq, ret. cbn.
    destruct (filter _ (sessions w)) as [|s rest] eqn:Hf; [discriminate|].
    destruct claims as [u ty ro].
    cbn. intros Heq. injection Heq as <- <-. left. split; [reflexivity|].
    exists (c :: tl). repeat split; try assumption.
    apply List.Exists_exists. exists s. apply (filter_head_In _ _ _ _ Hf).
Qed.

End GateOutcomes.

Lemma gate_without_token_witness :
  authenticateToken (jwt := Sample.sample_jwt) Sample.no_env Sample.at_zero Sample.no_entropy
    (mkRequest {[ "authorization"%string := Sample.token7 ]} None) Sample.world7
  = (inr NoAccessToken, Sample.world7).
Proof.
  apply (gate_without_token (jwt := Sample.sample_jwt)).
  right. exists Sample.token7. split; [reflexivity|]. left. reflexivity.
Defined.

Lemma gate_ignores_scheme_witness :
  authenticateToken (jwt := Sample.sample_jwt) Sample.no_env Sample.at_zero Sample.no_entropy
    (mkRequest (<["authorization"%string
                  := js "Basic" ++ 32 :: Sample.token7 ++ 32 :: js "x"]> ∅) None)
    Sample.world7
  = authenticateToken (jwt := Sample.sample_jwt) Sample.no_env Sample.at_zero
      Sample.no_entropy
      (mkRequest (<["authorization"%string := js "Bearer " ++ Sample.token7]> ∅) None)
      Sample.world7.
Proof.
  apply (gate_ignores_scheme (jwt := Sample.sample_jwt)); reflexivity.
Defined.

Lemma gate_invalid_token_witness :
  authenticateToken (jwt := Sample.sample_jwt) Sample.no_env Sample.at_zero Sample.no_entropy
    (Sample.bearer_request (js "garbage")) Sample.world7
  = (inr AccessTokenInvalid, Sample.world7).
Proof.
  eapply (gate_invalid_token (jwt := Sample.sample_jwt) Sample.no_env Sample.at_zero
            Sample.no_entropy (Sample.bearer_request (js "garbage")) Sample.world7
            (js "garbage")).
  - vm_compute. reflexivity.
  - discriminate.
  - vm_compute. reflexivity.
  - vm_compute. discriminate.
Defined.


Lemma gate_transparent_refresh_witness :
  fst (authenticateToken (jwt := Sample.sample_jwt) Sample.no_env Sample.at_zero
         Sample.no_entropy Sample.refresh_request Sample.world7)
  = inr (Next (mkPayload (JNumber 7) (JString (js "voter")) (JString (js "analyst"))) true)
  /\ res_headers (snd (authenticateToken (jwt := Sample.sample_jwt) Sample.no_env
                         Sample.at_zero Sample.no_entropy Sample.refresh_request
                         Sample.world7))
     = res_headers Sample.world7
         ++ [("x-access-token"%string, Sample.token7);
             ("x-refresh-token"%string, generateRefreshToken Sample.no_entropy)]
  /\ Exists (fun x => vottery_sessions.session_token x = Sample.token7
                      /\ vottery_sessions.refresh_token x
                         = generateRefreshToken Sample.no_entropy
                      /\ vottery_sessions.last_activity x = Sample.at_zero 6%nat)
       (sessions (snd (authenticateToken (jwt := Sample.sample_jwt) Sample.no_env
                         Sample.at_zero Sample.no_entropy Sample.refresh_request
                         Sample.world7))).
Proof.
  eapply (gate_transparent_refresh (jwt := Sample.sample_jwt) Sample.no_env Sample.at_zero
            Sample.no_entropy Sample.refresh_request Sample.world7 (js "expired") _
            Sample.session7 [] Sample.token7 60 120).
  - vm_compute. reflexivity.
  - discriminate.
  - vm_compute. reflexivity.
  - vm_compute. reflexivity.
  - vm_compute. reflexivity.
  - vm_compute. reflexivity.
  - vm_compute. reflexivity.
  - vm_compute. reflexivity.
  - vm_compute. reflexivity.
  - vm_compute. reflexivity.
  - unfold store_computes, seconds, MAX_SAFE_INTEGER, END_TIMESTAMP, Sample.at_zero. lia.
  - unfold store_computes, seconds, MAX_SAFE_INTEGER, END_TIMESTAMP, Sample.at_zero. lia.
  - vm_compute. reflexivity.
  - vm_compute. reflexivity.
Defined.

Lemma gate_rotation_unverifiable_witness :
  authenticateToken (jwt := Sample.expiring_jwt) Sample.no_env Sample.at_zero
    Sample.no_entropy Sample.refresh_request Sample.world7
  = (inr (Respond 401 (js "jwt expired") (js "REFRESH_TOKEN_INVALID")),
     with_token_headers
       (Tokens.mk Sample.token7 (generateRefreshToken Sample.no_entropy))
       Sample.refreshed_world7).
Proof.
  eapply (gate_rotation_unverifiable (jwt := Sample.expiring_jwt) Sample.no_env
            Sample.at_zero Sample.no_entropy Sample.refresh_request Sample.world7
            (js "expired") _ (Tokens.mk Sample.token7 (generateRefreshToken Sample.no_entropy))
            Sample.refreshed_world7 (LibError (js "TokenExpiredError") (js "jwt expired"))).
  - vm_compute. reflexivity.
  - discriminate.
  - vm_compute. reflexivity.
  - vm_compute. reflexivity.
  - vm_compute. reflexivity.
  - vm_compute. reflexivity.
  - vm_compute. reflexivity.
  - vm_compute. reflexivity.
Defined.

Lemma gate_admits_only_live_sessions_witness :
  (false = false
   /\ exists tok,
        bearer_token (Sample.bearer_request Sample.token7) = Some tok
        /\ verifyAccessToken (jwt := Sample.sample_jwt) Sample.no_env (Sample.at_zero 0%nat) tok
           = inr (mkPayload (JNumber 7) (JString (js "voter")) (JString (js "analyst")))
        /\ Exists (active_token_match tok (Sample.at_zero 5%nat)) (sessions Sample.world7))
  \/ (false = true
      /\ exists old e t w1,
           bearer_token (Sample.bearer_request Sample.token7) = Some old
           /\ verifyAccessToken (jwt := Sample.sample_jwt) Sample.no_env
                (Sample.at_zero 0%nat) old = inl e
           /\ err_name e = js "TokenExpiredError"
           /\ rotateRefreshToken (jwt := Sample.sample_jwt) Sample.no_env
                (later 1 Sample.at_zero) Sample.no_entropy
                (request_refresh_token (Sample.bearer_request Sample.token7))
                (request_device_id (Sample.bearer_request Sample.token7)) Sample.world7
              = (inr t, w1)
           /\ verifyAccessToken (jwt := Sample.sample_jwt) Sample.no_env
                (Sample.at_zero 4%nat) (Tokens.accessToken t)
              = inr (mkPayload (JNumber 7) (JString (js "voter")) (JString (js "analyst")))
           /\ Exists (active_token_match (Tokens.accessToken t) (Sample.at_zero 5%nat))
                (sessions w1)).
Proof.
  apply (gate_admits_only_live_sessions (jwt := Sample.sample_jwt) Sample.no_env
           Sample.at_zero Sample.no_entropy (Sample.bearer_request Sample.token7)
           Sample.world7).
  vm_compute. reflexivity.
Defined.

(** ** Role checks *)

Section Roles.
Context {jwt : JwtLib}.
Variable env : ProcessEnv.

(** X19.  Every token a rotation signs passes [requireAdmin].  The claims
    it signs are those of a row of the session table, and their admin role
    is the stored one or "analyst", never empty: a session whose stored
    admin role is NULL or empty is an analyst after its first refresh,
    and passes a role check that allows analysts. *)
Theorem rotated_claims_pass_requireAdmin clock ent rt dev w t w1 :
  rotateRefreshToken env clock ent rt dev w = (inr t, w1) ->
  exists s,
    In s (sessions w)
    /\ generateAccessToken env (clock 1%nat) (rotation_claims s) = inr (Tokens.accessToken t)
    /\ requireAdmin (rotation_claims s) = None
    /\ (truthy_str (vottery_sessions.admin_role s) = false ->
        requireRole [JString (js "analyst")] (rotation_claims s) = None).
Proof.
  intros Hrun.
  destruct (rotate_outcome env clock ent rt dev w)
    as [[_ Heq]|[(s & rest & e & _ & _ & Heq)
                |(s & rest & tok & a & r & Hf & Hsign & _ & _ & Heq)]];
    rewrite Heq in Hrun; try discriminate.
  injection Hrun as <- <-. exists s.
  destruct (filter_head_In _ _ _ _ Hf) as [Hin _].
  repeat split; [exact Hin|exact Hsign| |].
  - unfold requireAdmin, rotation_claims. cbn.
    destruct (vottery_sessions.admin_role s) as [[|c l]|]; reflexivity.
  - unfold requireRole, rotation_claims. cbn.
    destruct (vottery_sessions.admin_role s) as [[|c l]|]; try discriminate;
      intros _; reflexivity.
Qed.

End Roles.

Lemma rotated_claims_pass_requireAdmin_witness :
  exists s,
    In s (sessions Sample.world7)
    /\ generateAccessToken (jwt := Sample.sample_jwt) Sample.no_env (Sample.at_zero 1%nat)
         (rotation_claims s) = inr Sample.token7
    /\ requireAdmin (rotation_claims s) = None
    /\ (truthy_str (vottery_sessions.admin_role s) = false ->
        requireRole [JString (js "analyst")] (rotation_claims s) = None).
Proof.
  apply (rotated_claims_pass_requireAdmin (jwt := Sample.sample_jwt) Sample.no_env
           Sample.at_zero Sample.no_entropy (Some (js "refresh-1")) (Some (js "device-1"))
           Sample.world7 (Tokens.mk Sample.token7 (generateRefreshToken Sample.no_entropy))
           Sample.refreshed_world7).
  vm_compute. reflexivity.
Defined.

(** X20.  [requireRole] lets a user through exactly when the admin role is
    truthy and occurs in the list of allowed roles.  Whoever passes it
    passes [requireAdmin]; an empty list rejects everyone; allowing more
    roles never rejects a user who passed; and a falsy entry of the list,
    such as the empty string, admits nobody. *)
Theorem requireRole_spec roles roles' user :
  (requireRole roles user = None
   <-> truthy (adminRole user) = true /\ In (adminRole user) roles)
  /\ (requireRole roles user = None -> requireAdmin user = None)
  /\ requireRole [] user = Some (403, js "Insufficient permissions")
  /\ ((forall r, In r roles -> In r roles') ->
      requireRole roles user = None -> requireRole roles' user = None)
  /\ (forall r, truthy r = false -> requireRole (r :: roles) user = requireRole roles user).
Proof.
  assert (Hiff : forall rs, requireRole rs user = None
                            <-> truthy (adminRole user) = true /\ In (adminRole user) rs).
  { intros rs. unfold requireRole.
    destruct (truthy (adminRole user)); cbn [negb orb].
    - destruct (bool_decide (adminRole user ∈ rs)) eqn:Hd; cbn [negb].
      + apply bool_decide_eq_true_1 in Hd. apply list_elem_of_In in Hd. tauto.
      + apply bool_decide_eq_false_1 in Hd. rewrite list_elem_of_In in Hd.
        split; [discriminate|tauto].
    - split; [discriminate|]. intros [Hf _]. discriminate. }
  split; [apply Hiff|]. split; [|split; [|split]].
  - intros H. apply Hiff in H as [Ht _]. unfold requireAdmin. now rewrite Ht.
  - unfold requireRole. destruct (truthy (adminRole user)); reflexivity.
  - intros Hsub H. apply Hiff in H as [Ht Hin]. apply Hiff. auto.
  - intros r Hr.
    destruct (requireRole roles user) as [p|] eqn:Hrs.
    + destruct (requireRole (r :: roles) user) as [q|] eqn:Hrr.
      * unfold requireRole in Hrs, Hrr.
        repeat match goal with
               | H : (if ?b then _ else _) = Some _ |- _ => destruct b; try discriminate
               end. congruence.
      * apply Hiff in Hrr as [Ht [Heq|Hin]]; [rewrite Heq in Hr; congruence|].
        assert (requireRole roles user = None) by (apply Hiff; auto). congruence.
    + apply Hiff in Hrs as [Ht Hin]. apply Hiff. split; [exact Ht|now right].
Qed.

Lemma requireRole_iff roles user :
  requireRole roles user = None
  <-> truthy (adminRole user) = true /\ In (adminRole user) roles.
Proof.
  unfold requireRole.
  destruct (truthy (adminRole user)); cbn [negb orb].
  - destruct (bool_decide (adminRole user ∈ roles)) eqn:Hd; cbn [negb].
    + apply bool_decide_eq_true_1 in Hd. apply list_elem_of_In in Hd. tauto.
    + apply bool_decide_eq_false_1 in Hd. rewrite list_elem_of_In in Hd.
      split; [discriminate|tauto].
  - split; [discriminate|]. intros [Hf _]. discriminate.
Qed.

Lemma access_list_iff (roles : list JsValue) (refusal : Z * JsString) user :
  Forall (fun r => truthy r = true) roles ->
  (if negb (bool_decide (adminRole user ∈ roles)) then Some refusal else None) = None
  <-> requireRole roles user = None.
Proof.
  intros Htruthy. rewrite requireRole_iff.
  destruct (bool_decide (adminRole user ∈ roles)) eqn:Hd; cbn [negb].
  - apply bool_decide_eq_true_1 in Hd. apply list_elem_of_In in Hd.
    split; [|reflexivity]. intros _. split; [|exact Hd].
    apply (proj1 (List.Forall_forall _ _) Htruthy _ Hd).
  - apply bool_decide_eq_false_1 in Hd. rewrite list_elem_of_In in Hd.
    split; [discriminate|tauto].
Qed.

(** X21.  The access checks of the user controllers are role checks with
    fixed lists: each lets through exactly the users [requireRole] lets
    through with the list of the check.  The lists are nested, so whoever
    may delete users may change roles, whoever may change roles may
    change a status, and whoever may change a status may list all users.
    The claims [createUser] signs, and the claims a rotation signs for a
    session without a stored admin role, carry the role "analyst": they
    pass [requireAdmin] and the check of [getAllUsers], and no other. *)
Theorem controller_access_checks user :
  (updateUserStatus_access user = None
   <-> requireRole [manager; admin; moderator] user = None)
  /\ (updateUserRole_access user = None <-> requireRole [manager; admin] user = None)
  /\ (deleteUser_access user = None <-> requireRole [manager] user = None)
  /\ (getAllUsers_access user = None
      <-> requireRole [manager; admin; moderator; analyst] user = None)
  /\ (deleteUser_access user = None -> updateUserRole_access user = None)
  /\ (updateUserRole_access user = None -> updateUserStatus_access user = None)
  /\ (updateUserStatus_access user = None -> getAllUsers_access user = None)
  /\ (adminRole user = analyst ->
      requireAdmin user = None /\ getAllUsers_access user = None
      /\ updateUserStatus_access user <> None /\ updateUserRole_access user <> None
      /\ deleteUser_access user <> None)
  /\ (forall userId, adminRole (createUser_tokenPayload userId) = analyst)
  /\ (forall s, truthy_str (vottery_sessions.admin_role s) = false ->
                adminRole (rotation_claims s) = analyst).
Proof.
  assert (Hstatus : updateUserStatus_access user = None
                    <-> requireRole [manager; admin; moderator] user = None).
  { apply access_list_iff. repeat constructor. }
  assert (Hrole : updateUserRole_access user = None
                  <-> requireRole [manager; admin] user = None).
  { apply access_list_iff. repeat constructor. }
  assert (Hall : getAllUsers_access user = None
                 <-> requireRole [manager; admin; moderator; analyst] user = None).
  { apply access_list_iff. repeat constructor. }
  assert (Hdel : deleteUser_access user = None <-> requireRole [manager] user = None).
  { rewrite requireRole_iff. unfold deleteUser_access.
    destruct (bool_decide (adminRole user = manager)) eqn:Hd; cbn [negb].
    - apply bool_decide_eq_true_1 in Hd. rewrite Hd. split; [|reflexivity].
      intros _. split; [reflexivity|now left].
    - apply bool_decide_eq_false_1 in Hd. split; [discriminate|].
      intros [_ [Heq|[]]]. congruence. }
  split; [exact Hstatus|]. split; [exact Hrole|]. split; [exact Hdel|].
  split; [exact Hall|].
  rewrite Hdel, Hrole, Hstatus, Hall, !requireRole_iff.
  split; [|split; [|split; [|split; [|split]]]].
  - cbn [In]. tauto.
  - cbn [In]. tauto.
  - cbn [In]. tauto.
  - intros Ha. unfold requireAdmin. rewrite Ha. cbn [In].
    split; [reflexivity|]. split; [split; [reflexivity|auto]|].
    unfold manager, admin, moderator, analyst.
    repeat split; intros [_ H]; repeat destruct H as [H|H]; try discriminate H;
      try contradiction.
  - reflexivity.
  - intros s Hs. unfold rotation_claims. cbn.
    destruct (vottery_sessions.admin_role s) as [[|c l]|]; try discriminate; reflexivity.
Qed.

(** ** Encryption of profile fields: format and edge cases *)

Lemma hex_encode_app a b : hex_encode (a ++ b) = hex_encode a ++ hex_encode b.
Proof. unfold hex_encode. apply flat_map_app. Qed.

Section EncryptionFormat.
Context {crypto : CryptoLib}.
Variable env : ProcessEnv.

(** X22.  The encryption of a non-empty string is a string of three
    lower-case hexadecimal fields joined by two colons.  The fields are
    the ones decryption reads back: the initialisation vector as it was
    drawn, the tag and the ciphertext; and the length of the result is
    two characters for each byte of the three, plus two. *)
Theorem encrypt_envelope_format iv c x :
  exists e authTag encrypted,
    encryptSensitiveData env iv (JString (c :: x)) = JString e
    /\ is_envelope e
    /\ split_on 58 e = [hex_encode iv; hex_encode authTag; hex_encode encrypted]
    /\ envelope_fields e = Some (iv, authTag, encrypted)
    /\ Forall (fun ch => is_lower_hex ch \/ ch = 58) e
    /\ length e = (2 * (length iv + length authTag + length encrypted) + 2)%nat.
Proof.
  rewrite encrypt_string. cbv zeta.
  set (g := gcm_encrypt _ iv AAD (utf8_encode (c :: x))).
  exists (hex_encode iv ++ js ":" ++ hex_encode (snd g) ++ js ":" ++ hex_encode (fst g)),
    (snd g), (fst g).
  split; [reflexivity|]. split; [now exists iv, (snd g), (fst g)|].
  split; [apply split_envelope|]. split; [|split].
  - unfold envelope_fields. rewrite split_envelope, hex_encode_even.
    now rewrite !hex_decode_encode.
  - assert (Hhex : forall b, Forall (fun ch => is_lower_hex ch \/ ch = 58) (hex_encode b)).
    { intros b. eapply List.Forall_impl; [|apply hex_encode_lower]. intros a Ha. now left. }
    repeat apply Forall_app_2; try apply Hhex; repeat constructor; now right.
  - rewrite !length_app, !hex_encode_length. cbn [length js]. change (length (js ":")) with 1%nat.
    lia.
Qed.

(** What is not a non-empty string is not encrypted.  A falsy value
    (undefined, null, false, 0 and the empty string) is turned into null,
    and null decrypts to null, so that the empty string does not survive
    a round trip.  A number other than 0 and the boolean true make the
    cipher throw, and the fallback hands them back in the clear;
    decryption returns them unchanged. *)
Lemma encrypt_not_a_string iv v :
  (truthy v = false ->
   encryptSensitiveData env iv v = JNull
   /\ decryptSensitiveData env (encryptSensitiveData env iv v) = JNull)
  /\ (truthy v = true -> (exists n, v = JNumber n) \/ (exists b, v = JBool b) ->
      encryptSensitiveData env iv v = v
      /\ decryptSensitiveData env (encryptSensitiveData env iv v) = v).
Proof.
  split.
  - intros Hv. unfold encryptSensitiveData, encrypt_try. rewrite Hv. split; reflexivity.
  - intros Hv [[n ->]|[b ->]]; unfold encryptSensitiveData, encrypt_try; rewrite Hv;
      split; reflexivity.
Qed.

End EncryptionFormat.

(** ** Input sanitising *)

Lemma trim_start_split s :
  exists pre, s = pre ++ trim_start s.
Proof.
  induction s as [|c s [pre IH]]; [now exists []|].
  cbn [trim_start]. destruct (is_js_space c).
  - exists (c :: pre). cbn. now f_equal.
  - now exists [].
Qed.

Lemma trim_start_head_ok s :
  match trim_start s with [] => True | c :: _ => is_js_space c = false end.
Proof.
  induction s as [|c s IH]; [exact I|].
  cbn [trim_start]. destruct (is_js_space c) eqn:Hc; [exact IH|exact Hc].
Qed.

Lemma trim_start_idem s : trim_start (trim_start s) = trim_start s.
Proof. apply trim_start_head, trim_start_head_ok. Qed.

Lemma trim_start_Forall (P : Z -> Prop) s : Forall P s -> Forall P (trim_start s).
Proof.
  intros Hs. destruct (trim_start_split s) as [pre Hpre].
  rewrite Hpre in Hs. now apply Forall_app in Hs as [_ Hs].
Qed.

Lemma trim_Forall (P : Z -> Prop) s : Forall P s -> Forall P (trim s).
Proof.
  intros Hs. unfold trim.
  apply Forall_rev, trim_start_Forall, Forall_rev, trim_start_Forall, Hs.
Qed.

Lemma trim_head_ok s :
  match trim s with [] => True | c :: _ => is_js_space c = false end.
Proof.
  unfold trim.
  destruct (trim_start_split (rev (trim_start s))) as [pre Hpre].
  pose proof (trim_start_head_ok s) as Hhead.
  assert (Ht : trim_start s = rev (trim_start (rev (trim_start s))) ++ rev pre).
  { rewrite <- rev_app_distr, <- Hpre. symmetry. apply rev_involutive. }
  destruct (rev (trim_start (rev (trim_start s)))) as [|c l]; [exact I|].
  rewrite Ht in Hhead. exact Hhead.
Qed.

Lemma trim_idem s : trim (trim s) = trim s.
Proof.
  unfold trim at 1.
  rewrite (trim_start_head (trim s)) by apply trim_head_ok.
  unfold trim. rewrite rev_involutive, trim_start_idem. reflexivity.
Qed.

Lemma trim_ends s :
  is_js_space (hd 0 s) = false -> is_js_space (List.last s 0) = false -> trim s = s.
Proof.
  intros Hh Hl. unfold trim.
  rewrite (trim_start_head s) by (destruct s; [exact I|exact Hh]).
  rewrite (trim_start_head (rev s)); [apply rev_involutive|].
  destruct (rev s) as [|c l] eqn:Hrev; [exact I|].
  assert (Hs : s = rev l ++ [c]).
  { rewrite <- (rev_involutive s), Hrev. reflexivity. }
  rewrite Hs, List.last_last in Hl. exact Hl.
Qed.

Lemma filter_Forall_id {A} (P : A -> Prop) `{forall x, Decision (P x)} (l : list A) :
  Forall P l -> filter P l = l.
Proof.
  induction 1 as [|x l Hx _ IH]; [reflexivity|].
  rewrite filter_cons. destruct (decide (P x)); [|contradiction]. now rewrite IH.
Qed.

Lemma filter_Forall {A} (P : A -> Prop) `{forall x, Decision (P x)} (l : list A) :
  Forall P (filter P l).
Proof.
  induction l as [|x l IH]; [constructor|].
  rewrite filter_cons. destruct (decide (P x)); [constructor; assumption|exact IH].
Qed.

(** X23.  [sanitizeInput] leaves a value that is not a string as it is.
    Of a string it returns a string of at most 1000 code units that holds
    neither '<' nor '>' and does not begin with white space.  A string
    that is already clean, begins and ends without white space and is not
    longer than 1000 is returned unchanged; and sanitising twice is the
    same as sanitising once whenever nothing had to be cut off. *)
Theorem sanitizeInput_spec input :
  match input with
  | JString s =>
      exists o,
        sanitizeInput input = JString o
        /\ Forall (fun c => c <> 60 /\ c <> 62) o
        /\ (length o <= 1000)%nat
        /\ match o with [] => True | c :: _ => is_js_space c = false end
        /\ (Forall (fun c => c <> 60 /\ c <> 62) s ->
            is_js_space (hd 0 s) = false -> is_js_space (List.last s 0) = false ->
            (length s <= 1000)%nat -> o = s)
        /\ ((length (trim (filter (fun c => (c <> 60 /\ c <> 62)%Z) s)) <= 1000)%nat ->
            sanitizeInput (JString o) = JString o)
  | _ => sanitizeInput input = input
  end.
Proof.
  destruct input as [| | | |s|]; try reflexivity.
  cbn [sanitizeInput]. eexists. split; [reflexivity|].
  set (f := filter (fun c => c <> 60 /\ c <> 62) s).
  assert (Hclean : Forall (fun c => c <> 60 /\ c <> 62) (trim f)).
  { apply trim_Forall. apply (filter_Forall (fun c => c <> 60 /\ c <> 62)). }
  split; [|split; [|split; [|split]]].
  - rewrite <- (firstn_skipn 1000 (trim f)) in Hclean.
    now apply Forall_app in Hclean as [Hclean _].
  - rewrite length_firstn. lia.
  - pose proof (trim_head_ok f) as Hh. destruct (trim f) as [|c l]; [exact I|exact Hh].
  - intros Hs Hh Hl Hlen. unfold f.
    rewrite (filter_Forall_id _ _ Hs), (trim_ends _ Hh Hl).
    apply firstn_all2. exact Hlen.
  - intros Hlen. rewrite (firstn_all2 _ Hlen).
    rewrite (filter_Forall_id _ _ Hclean), trim_idem, (firstn_all2 _ Hlen).
    reflexivity.
Qed.

(** X24.  [sanitizeInput] trims before it cuts, so its result can end in
    white space, and a second pass then removes it: for a clean string of
    999 code units without white space, followed by a space and one more
    character, the first pass keeps the 999 and the space, and the second
    pass drops the space.  Sanitising is not idempotent. *)
Theorem sanitizeInput_cut_leaves_space s c :
  length s = 999%nat ->
  Forall (fun c => c <> 60 /\ c <> 62) s ->
  Forall (fun c => is_js_space c = false) s ->
  c <> 60 -> c <> 62 -> is_js_space c = false ->
  sanitizeInput (JString (s ++ [32; c])) = JString (s ++ [32])
  /\ sanitizeInput (sanitizeInput (JString (s ++ [32; c]))) = JString s.
Proof.
  intros Hlen Hclean Hns Hc1 Hc2 Hc.
  assert (Hne : s <> []) by (intros ->; discriminate).
  assert (Hhd : forall t, is_js_space (hd 0 (s ++ t)) = false).
  { intros t. destruct s as [|a s']; [congruence|]. cbn. now inversion Hns. }
  assert (H1 : sanitizeInput (JString (s ++ [32; c])) = JString (s ++ [32])).
  { cbn [sanitizeInput]. f_equal.
    assert (Hall : Forall (fun c => c <> 60 /\ c <> 62) (s ++ [32; c]))
      by (apply Forall_app_2; [exact Hclean|repeat constructor; (lia || assumption)]).
    rewrite (filter_Forall_id _ _ Hall).
    rewrite trim_ends; [| apply Hhd |].
    - change [32; c] with ([32] ++ [c]). rewrite app_assoc.
      rewrite firstn_app, firstn_all2 by (rewrite length_app; cbn; lia).
      rewrite length_app, Hlen. cbn. apply app_nil_r.
    - change [32; c] with ([32] ++ [c]). rewrite app_assoc, List.last_last. exact Hc. }
  split; [exact H1|]. rewrite H1. cbn [sanitizeInput]. f_equal.
  assert (Hall : Forall (fun c => c <> 60 /\ c <> 62) (s ++ [32]))
    by (apply Forall_app_2; [exact Hclean|repeat constructor; lia]).
  rewrite (filter_Forall_id _ _ Hall).
  assert (Ht : trim (s ++ [32]) = s).
  { unfold trim.
    rewrite (trim_start_head (s ++ [32]))
      by (pose proof (Hhd [32]) as H; destruct (s ++ [32]); [exact I|exact H]).
    rewrite rev_app_distr. cbn [rev app trim_start].
    change (is_js_space 32) with true. cbv iota.
    rewrite (trim_start_head (rev s)); [apply rev_involutive|].
    apply Forall_rev in Hns. destruct Hns; [exact I|assumption]. }
  rewrite Ht. apply firstn_all2. lia.
Qed.

Lemma sanitizeInput_cut_leaves_space_witness :
  sanitizeInput (JString (repeat 97 999 ++ [32; 98])) = JString (repeat 97 999 ++ [32])
  /\ sanitizeInput (sanitizeInput (JString (repeat 97 999 ++ [32; 98])))
     = JString (repeat 97 999).
Proof.
  apply (sanitizeInput_cut_leaves_space (repeat 97 999) 98).
  - apply repeat_length.
  - apply Forall_forall. intros y Hy. apply list_elem_of_In, repeat_spec in Hy. subst y. lia.
  - apply Forall_forall. intros y Hy. apply list_elem_of_In, repeat_spec in Hy. subst y.
    reflexivity.
  - lia.
  - lia.
  - reflexivity.
Defined.

(** ** Enrolment and security questions *)

Section Enrolment.
Context {forge : ForgeLib} {crypto : CryptoLib}.

Lemma verify_answer_pure privateKey rows a :
  exists r, forall w, verify_answer privateKey rows a w = (r, w).
Proof.
  unfold verify_answer. destruct (find _ rows) as [q|]; [|now eexists].
  unfold bind, lift, lib.
  destruct (rsa_oaep_decrypt _ _) as [[n m]|d]; [now eexists|].
  destruct (negb (bool_decide (JString d = Answer.answer a))); [now eexists|].
  destruct (negb (bool_decide (sha256_hex d = _))); now eexists.
Qed.

Lemma for_of_verify_pure privateKey rows l :
  exists r, forall w, for_of l (verify_answer privateKey rows) w = (r, w).
Proof.
  induction l as [|a l [r IH]]; [now exists (inr tt)|].
  destruct (verify_answer_pure privateKey rows a) as [[e|[]] Ha].
  - exists (inl e). intros w. cbn [for_of]. unfold bind. now rewrite Ha.
  - exists r. intros w. cbn [for_of]. unfold bind. now rewrite Ha, IH.
Qed.

(** The verdict of a verification depends on the store through the key
    row of the user and the question table only. *)
Lemma verify_depends userId answers w w' :
  key_row w userId = key_row w' userId ->
  security_questions w = security_questions w' ->
  fst (verifySecurityAnswers userId answers w)
  = fst (verifySecurityAnswers userId answers w').
Proof.
  unfold key_row. intros Hk Hq.
  unfold verifySecurityAnswers, select_keys, select_answers, bind, logq, lift. simpl.
  destruct (filter _ (biometric_keys w)) as [|k ks];
    destruct (filter _ (biometric_keys w')) as [|k' ks']; try discriminate;
    [reflexivity|].
  injection Hk as <-.
  destruct (lib (privateKeyFromPem _)) as [e|privateKey]; [reflexivity|]. simpl.
  rewrite Hq.
  destruct (for_of_verify_pure privateKey
              (filter (fun q => vottery_security_questions.user_id q = userId
                                /\ vottery_security_questions.id q
                                   ∈ map Answer.questionId answers)
                      (security_questions w')) answers) as [r Hr].
  rewrite !Hr. destruct r; reflexivity.
Qed.

Lemma add_depends seed userId question answer w w' :
  key_row w userId = key_row w' userId ->
  fst (addSecurityQuestion seed userId question answer w)
  = fst (addSecurityQuestion seed userId question answer w').
Proof.
  unfold key_row. intros Hk.
  unfold addSecurityQuestion, select_keys, insert_question, bind, logq, lift, ret, throw.
  simpl.
  destruct (filter _ (biometric_keys w)) as [|k ks];
    destruct (filter _ (biometric_keys w')) as [|k' ks']; try discriminate;
    [reflexivity|].
  injection Hk as <-.
  destruct (lib (publicKeyFromPem _)) as [e|publicKey]; [reflexivity|]. simpl.
  destruct (lib (rsa_oaep_encrypt _ _ _)) as [e|c]; reflexivity.
Qed.

Lemma key_row_registerKeys seed userId w other :
  key_row (snd (registerKeys seed userId w)) other
  = match key_row w other with
    | Some k => Some k
    | None =>
        if decide (userId = other) then
          Some (vottery_biometric_keys.mk userId
                  (publicKeyToPem (fst (generateKeyPair seed)))
                  (encode64 (privateKeyToPem (snd (generateKeyPair seed))))
                  threshold_json)
        else None
    end.
Proof.
  unfold key_row, registerKeys, insert_keys, bind, logq, ret. simpl.
  rewrite filter_app.
  destruct (filter _ (biometric_keys w)) as [|k ks]; [|reflexivity].
  rewrite filter_cons. simpl. destruct (decide (userId = other)); reflexivity.
Qed.

(** X25.  Enrolling a user a second time has no effect on what follows.
    Nothing in the code prevents it: [registerKeys] appends a further
    key-pair row and returns its keys.  But every reader takes the first
    row the store returns for the user, which, rows being returned in the
    order they were inserted, is the old one: later
    [addSecurityQuestion] and [verifySecurityAnswers] calls give the
    results they would have given without the second enrolment, and the
    key rows of other users are not affected. *)
Theorem registerKeys_again_is_ignored seed userId w k :
  key_row w userId = Some k ->
  key_row (snd (registerKeys seed userId w)) userId = Some k
  /\ (forall answers,
        fst (verifySecurityAnswers userId answers (snd (registerKeys seed userId w)))
        = fst (verifySecurityAnswers userId answers w))
  /\ (forall seed' question answer,
        fst (addSecurityQuestion seed' userId question answer
               (snd (registerKeys seed userId w)))
        = fst (addSecurityQuestion seed' userId question answer w))
  /\ (forall other, other <> userId ->
        key_row (snd (registerKeys seed userId w)) other = key_row w other).
Proof.
  intros Hk.
  assert (Hsame : key_row (snd (registerKeys seed userId w)) userId = key_row w userId).
  { rewrite key_row_registerKeys, Hk. reflexivity. }
  split; [now rewrite Hsame|]. split; [|split].
  - intros answers. apply verify_depends; [exact Hsame|reflexivity].
  - intros seed' question answer. apply add_depends. exact Hsame.
  - intros other Hne. rewrite key_row_registerKeys.
    destruct (key_row w other); [reflexivity|].
    destruct (decide (userId = other)); [congruence|reflexivity].
Qed.

(** The outcome of adding a question, case by case. *)
Lemma addSecurityQuestion_outcome seed userId question answer w :
  (key_row w userId = None
   /\ addSecurityQuestion seed userId question answer w
      = (inl KeysNotFound, logged Select T_biometric_keys w))
  \/ (exists k e,
        key_row w userId = Some k
        /\ e <> KeysNotFound
        /\ addSecurityQuestion seed userId question answer w
           = (inl e, logged Select T_biometric_keys w))
  \/ (exists k publicKey ciphertext,
        key_row w userId = Some k
        /\ publicKeyFromPem (vottery_biometric_keys.public_key k) = inr publicKey
        /\ rsa_oaep_encrypt publicKey answer seed = inr ciphertext
        /\ addSecurityQuestion seed userId question answer w
           = (inr (question, encode64 ciphertext, sha256_hex answer),
              mkWorld (sessions w) (users w) (biometric_keys w)
                (security_questions w
                   ++ [vottery_security_questions.mk (next_question_id w) userId question
                         (encode64 ciphertext) (sha256_hex answer)])
                (next_session_id w) (next_question_id w + 1)
                ((qlog w ++ [(Select, T_biometric_keys)]) ++ [(Insert, T_security_questions)])
                (res_headers w))).
Proof.
  unfold key_row, addSecurityQuestion, select_keys, insert_question, bind, logq, lift,
    ret, throw, logged. simpl.
  destruct (filter _ (biometric_keys w)) as [|k ks]; [left; split; reflexivity|].
  right. simpl.
  destruct (publicKeyFromPem (vottery_biometric_keys.public_key k))
    as [[n m]|publicKey] eqn:Hpub; simpl.
  { left. exists k, (LibError n m). repeat split. discriminate. }
  destruct (rsa_oaep_encrypt publicKey answer seed) as [[n m]|c] eqn:Henc; simpl.
  { left. exists k, (LibError n m). repeat split. discriminate. }
  right. exists k, publicKey, c. repeat split; assumption.
Qed.

(** X26.  [addSecurityQuestion] throws "User keys not found" exactly when
    the user has no key-pair row.  Whatever it throws, nothing has been
    written: all tables and the question id sequence are as they were.
    When it returns, the signature it returns is the SHA-256 hash of the
    answer in the clear, and exactly one row was appended, numbered by
    the id sequence. *)
Theorem addSecurityQuestion_effect seed userId question answer w :
  (fst (addSecurityQuestion seed userId question answer w) = inl KeysNotFound
   <-> key_row w userId = None)
  /\ (forall e,
        fst (addSecurityQuestion seed userId question answer w) = inl e ->
        same_tables w (snd (addSecurityQuestion seed userId question answer w))
        /\ next_question_id (snd (addSecurityQuestion seed userId question answer w))
           = next_question_id w)
  /\ (forall q e s,
        fst (addSecurityQuestion seed userId question answer w) = inr (q, e, s) ->
        q = question /\ s = sha256_hex answer
        /\ security_questions (snd (addSecurityQuestion seed userId question answer w))
           = security_questions w
               ++ [vottery_security_questions.mk (next_question_id w) userId question e s]
        /\ next_question_id (snd (addSecurityQuestion seed userId question answer w))
           = next_question_id w + 1).
Proof.
  destruct (addSecurityQuestion_outcome seed userId question answer w)
    as [[Hk Heq]|[(k & e0 & Hk & Hne & Heq)|(k & pk & c & Hk & _ & _ & Heq)]];
    rewrite Heq; cbn [fst snd].
  - split; [tauto|]. split.
    + intros e _. repeat split.
    + intros q e s H. discriminate.
  - split; [split; congruence|]. split.
    + intros e _. repeat split.
    + intros q e s H. discriminate.
  - split; [split; [discriminate|congruence]|]. split.
    + intros e H. discriminate.
    + intros q e s H. injection H as <- <- <-. repeat split.
Qed.

Lemma stored_question_listed w userId questionId :
  stored_question w userId questionId <> None
  <-> exists question,
        In (questionId, question)
           (map (fun q => (vottery_security_questions.id q,
                           vottery_security_questions.question q))
                (filter (fun q => vottery_security_questions.user_id q = userId)
                        (security_questions w))).
Proof.
  unfold stored_question.
  induction (security_questions w) as [|q l IH]; cbn [find].
  - split; [congruence|]. intros [question []].
  - rewrite filter_cons.
    destruct (decide (vottery_security_questions.user_id q = userId)) as [Hu|Hu].
    + rewrite (proj2 (Z.eqb_eq _ _) Hu). cbn [andb map].
      destruct (Z.eqb_spec (vottery_security_questions.id q) questionId) as [Hi|Hi].
      * split; [|discriminate]. intros _.
        exists (vottery_security_questions.question q). left. now rewrite Hi.
      * rewrite IH. split.
        -- intros [question Hin]. exists question. now right.
        -- intros [question [Heq|Hin]]; [congruence|now exists question].
    + rewrite (proj2 (Z.eqb_neq _ _) Hu). cbn [andb]. exact IH.
Qed.

(** X27.  [getSecurityQuestions] lists what [addSecurityQuestion] stored:
    after [addSecurityQuestion] has returned, the list of the user holds
    the pairs it held before and the new question under the id the
    sequence gave it, and the lists of other users are as before.  The
    ids it lists are exactly those [verifySecurityAnswers] does not turn
    down as invalid question ids. *)
Theorem getSecurityQuestions_lists_added seed userId question answer w r w2 :
  addSecurityQuestion seed userId question answer w = (inr r, w2) ->
  (exists l l2,
      fst (getSecurityQuestions userId w) = inr l
      /\ fst (getSecurityQuestions userId w2) = inr l2
      /\ Permutation l2 ((next_question_id w, question) :: l))
  /\ (forall other, other <> userId ->
        fst (getSecurityQuestions other w2) = fst (getSecurityQuestions other w))
  /\ (forall questionId,
        stored_question w2 userId questionId <> None
        <-> exists l q, fst (getSecurityQuestions userId w2) = inr l /\ In (questionId, q) l).
Proof.
  intros Hrun.
  destruct (addSecurityQuestion_outcome seed userId question answer w)
    as [[Hk Heq]|[(k & e0 & Hk & Hne & Heq)|(k & pk & c & Hk & _ & _ & Heq)]];
    rewrite Heq in Hrun; try discriminate.
  injection Hrun as <- <-.
  unfold getSecurityQuestions, bind, logq. cbn [fst snd security_questions].
  split; [|split].
  - eexists _, _. split; [reflexivity|]. split; [reflexivity|].
    rewrite filter_app, map_app, filter_cons. cbn.
    destruct (decide (userId = userId)); [|congruence].
    cbn. symmetry. apply Permutation_cons_append.
  - intros other Hne. rewrite filter_app, filter_cons. cbn.
    destruct (decide (userId = other)); [congruence|].
    rewrite app_nil_r. reflexivity.
  - intros questionId. rewrite stored_question_listed. cbn [security_questions]. split.
    + intros [q Hin]. eexists _, q. split; [reflexivity|exact Hin].
    + intros (l & q & Hl & Hin). injection Hl as <-. now exists q.
Qed.

Lemma verify_true_inv userId answers w :
  fst (verifySecurityAnswers userId answers w) = inr true ->
  exists k privateKey,
    key_row w userId = Some k
    /\ privateKeyFromPem (decode64 (vottery_biometric_keys.encrypted_private_key k))
       = inr privateKey
    /\ Forall (answer_passes privateKey w userId) answers.
Proof.
  intros Hrun.
  destruct (key_row w userId) as [k|] eqn:Hk.
  - destruct (privateKeyFromPem (decode64 (vottery_biometric_keys.encrypted_private_key k)))
      as [[n m]|privateKey] eqn:Hp.
    + exfalso. revert Hrun. unfold key_row in Hk.
      unfold verifySecurityAnswers, select_keys, bind, logq, lift. simpl.
      destruct (filter _ (biometric_keys w)) as [|k' ks]; [discriminate|].
      injection Hk as ->. rewrite Hp. discriminate.
    + exists k, privateKey. split; [reflexivity|]. split; [exact Hp|].
      rewrite (verify_with_key _ _ _ _ _ Hk Hp) in Hrun. cbv zeta in Hrun.
      destruct (for_of answers _ _) as [[e|[]] w3] eqn:Hloop; [discriminate|].
      apply (loop_ok_all_pass _ _ _ _ _ _ _ (questionId_in_map answers) Hloop).
  - exfalso. revert Hrun. unfold key_row in Hk.
    unfold verifySecurityAnswers, select_keys, bind, logq, lift. simpl.
    destruct (filter _ (biometric_keys w)) as [|k' ks]; [|discriminate]. discriminate.
Qed.

(** X28.  A verification that succeeds keeps succeeding on fewer answers.
    If [verifySecurityAnswers] returns true for a list of answers, it
    returns true for every list made of answers of that list, in any
    order and with or without repetitions: no number of answers is
    required, and the questions of the user that are not answered are
    not looked at. *)
Theorem verify_fewer_answers userId answers answers' w :
  fst (verifySecurityAnswers userId answers w) = inr true ->
  (forall a, In a answers' -> In a answers) ->
  fst (verifySecurityAnswers userId answers' w) = inr true.
Proof.
  intros Hrun Hsub.
  destruct (verify_true_inv _ _ _ Hrun) as (k & privateKey & Hk & Hp & Hall).
  apply (verify_all_pass _ _ _ k privateKey Hk Hp).
  apply List.Forall_forall. intros a Ha.
  apply (proj1 (List.Forall_forall _ _) Hall a (Hsub a Ha)).
Qed.

End Enrolment.

Lemma registerKeys_again_is_ignored_witness :
  key_row (snd (registerKeys (forge := Sample.sample_forge) [] 42 Sample.rex_world)) 42
  = key_row Sample.rex_world 42
  /\ (forall answers,
        fst (verifySecurityAnswers (forge := Sample.sample_forge)
               (crypto := Sample.sample_crypto) 42 answers
               (snd (registerKeys (forge := Sample.sample_forge) [] 42 Sample.rex_world)))
        = fst (verifySecurityAnswers (forge := Sample.sample_forge)
                 (crypto := Sample.sample_crypto) 42 answers Sample.rex_world))
  /\ (forall seed' question answer,
        fst (addSecurityQuestion (forge := Sample.sample_forge)
               (crypto := Sample.sample_crypto) seed' 42 question answer
               (snd (registerKeys (forge := Sample.sample_forge) [] 42 Sample.rex_world)))
        = fst (addSecurityQuestion (forge := Sample.sample_forge)
                 (crypto := Sample.sample_crypto) seed' 42 question answer
                 Sample.rex_world))
  /\ (forall other, other <> 42 ->
        key_row (snd (registerKeys (forge := Sample.sample_forge) [] 42 Sample.rex_world))
          other
        = key_row Sample.rex_world other).
Proof.
  eapply (registerKeys_again_is_ignored (forge := Sample.sample_forge)
            (crypto := Sample.sample_crypto) [] 42 Sample.rex_world).
  vm_compute. reflexivity.
Defined.

Lemma getSecurityQuestions_lists_added_witness :
  (exists l l2,
      fst (getSecurityQuestions 42 Sample.enrolled_world) = inr l
      /\ fst (getSecurityQuestions 42 Sample.rex_world) = inr l2
      /\ Permutation l2 ((next_question_id Sample.enrolled_world, js "pet name?") :: l))
  /\ (forall other, other <> 42 ->
        fst (getSecurityQuestions other Sample.rex_world)
        = fst (getSecurityQuestions other Sample.enrolled_world))
  /\ (forall questionId,
        stored_question Sample.rex_world 42 questionId <> None
        <-> exists l q,
              fst (getSecurityQuestions 42 Sample.rex_world) = inr l /\ In (questionId, q) l).
Proof.
  eapply (getSecurityQuestions_lists_added (forge := Sample.sample_forge)
            (crypto := Sample.sample_crypto) [] 42 (js "pet name?") (js "Rex")
            Sample.enrolled_world _ Sample.rex_world).
  vm_compute. reflexivity.
Defined.

Lemma verify_fewer_answers_witness :
  fst (verifySecurityAnswers (forge := Sample.sample_forge) (crypto := Sample.sample_crypto)
         42 [Sample.rex_answer] Sample.rex_world) = inr true.
Proof.
  apply (verify_fewer_answers (forge := Sample.sample_forge) (crypto := Sample.sample_crypto)
           42 [Sample.rex_answer; Sample.rex_answer] [Sample.rex_answer] Sample.rex_world).
  - vm_compute. reflexivity.
  - intros a [<-|[]]. left. reflexivity.
Defined.

(** ** What the controller's own writes guarantee *)

Section Sealed.
Context {forge : ForgeLib} {crypto : CryptoLib}.
Hypothesis Hforge : forge_correct forge.

Lemma sealed_question_same_keys w w' q :
  biometric_keys w' = biometric_keys w ->
  sealed_question w q -> sealed_question w' q.
Proof.
  intros Hk (k & seed & seed' & answer & c & Hrow & H).
  exists k, seed, seed', answer, c. split; [|exact H].
  unfold key_row in *. now rewrite Hk.
Qed.

Lemma sealed_same_tables w w' :
  biometric_keys w' = biometric_keys w ->
  security_questions w' = security_questions w ->
  next_question_id w' = next_question_id w ->
  sealed w -> sealed w'.
Proof.
  intros Hk Hq Hn (Hkeys & Hqs & Hids). unfold sealed. rewrite Hk, Hq, Hn.
  repeat split; try assumption.
  eapply List.Forall_impl; [|exact Hqs]. intros q. now apply sealed_question_same_keys.
Qed.

Lemma key_row_In w userId k :
  key_row w userId = Some k ->
  In k (biometric_keys w) /\ vottery_biometric_keys.user_id k = userId.
Proof.
  unfold key_row. intros Hk.
  destruct (filter _ (biometric_keys w)) as [|k' ks] eqn:Hf; [discriminate|].
  injection Hk as ->. apply (filter_head_In _ _ _ _ Hf).
Qed.

Lemma verify_same_tables userId answers w :
  biometric_keys (snd (verifySecurityAnswers userId answers w)) = biometric_keys w
  /\ security_questions (snd (verifySecurityAnswers userId answers w))
     = security_questions w
  /\ next_question_id (snd (verifySecurityAnswers userId answers w)) = next_question_id w.
Proof.
  unfold verifySecurityAnswers, select_keys, select_answers, bind, logq, lift, throw.
  simpl.
  destruct (filter _ (biometric_keys w)) as [|k ks]; [repeat split|].
  destruct (lib (privateKeyFromPem _)) as [e|privateKey]; [repeat split|]. simpl.
  match goal with
  | |- context [for_of answers (verify_answer privateKey ?rows) ?w0] =>
      destruct (for_of_verify_pure privateKey rows answers) as [r Hr]; rewrite (Hr w0)
  end.
  destruct r; repeat split.
Qed.

Lemma sealed_step w w' : sealed w -> enrol_step w w' -> sealed w'.
Proof.
  intros Hw Hstep. destruct Hstep as [seed userId w Hnone|seed userId question answer w Hbytes
                                     |userId w|userId answers w].
  - destruct Hw as (Hkeys & Hqs & Hids). repeat split.
    + unfold registerKeys, insert_keys, bind, logq, ret. simpl.
      apply Forall_app. split; [exact Hkeys|].
      constructor; [|constructor]. exists seed. split; reflexivity.
    + change (security_questions (snd (registerKeys seed userId w)))
        with (security_questions w).
      eapply List.Forall_impl; [|exact Hqs].
      intros q (k & sd & sd' & answer & c & Hrow & H).
      exists k, sd, sd', answer, c. split; [|exact H].
      rewrite key_row_registerKeys, Hrow. reflexivity.
    + exact Hids.
  - destruct (addSecurityQuestion_outcome seed userId question answer w)
      as [[Hk Heq]|[(k & e0 & Hk & Hne & Heq)|(k & pk & c & Hk & Hpub & Henc & Heq)]];
      rewrite Heq; cbn [snd];
      try (apply (sealed_same_tables w); [reflexivity|reflexivity|reflexivity|exact Hw]).
    destruct Hw as (Hkeys & Hqs & Hids).
    destruct (key_row_In _ _ _ Hk) as [Hin _].
    destruct (proj1 (List.Forall_forall _ _) Hkeys k Hin) as [sd Hsd].
    assert (Hpk : pk = fst (generateKeyPair sd)).
    { destruct Hsd as [Hp _]. rewrite Hp, (forge_public_pem _ Hforge) in Hpub.
      congruence. }
    subst pk. unfold sealed. cbn [biometric_keys security_questions next_question_id].
    split; [exact Hkeys|]. split.
    + apply Forall_app. split.
      * eapply List.Forall_impl; [|exact Hqs]. intros q. now apply sealed_question_same_keys.
      * constructor; [|constructor]. exists k, sd, seed, answer, c.
        repeat split; try assumption; apply Hsd.
    + apply Forall_app. split.
      * eapply List.Forall_impl; [|exact Hids]. intros q Hq. cbn beta in *. lia.
      * constructor; [|constructor]. cbn. lia.
  - apply (sealed_same_tables w); [reflexivity|reflexivity|reflexivity|exact Hw].
  - destruct (verify_same_tables userId answers w) as (Hk & Hq & Hn).
    now apply (sealed_same_tables w).
Qed.

Lemma enrolled_sealed w : enrolled w -> sealed w.
Proof.
  induction 1 as [w Hk Hq|w w' _ IH Hstep].
  - unfold sealed. rewrite Hk, Hq. repeat split; constructor.
  - exact (sealed_step _ _ IH Hstep).
Qed.

(** In a sealed store the key row of a user parses, and a stored question
    of the user decrypts to the answer whose hash is its signature. *)
Lemma sealed_key_parses w userId k :
  sealed w -> key_row w userId = Some k ->
  exists seed,
    key_row_of_seed seed k
    /\ privateKeyFromPem (decode64 (vottery_biometric_keys.encrypted_private_key k))
       = inr (snd (generateKeyPair seed)).
Proof.
  intros (Hkeys & _) Hk. destruct (key_row_In _ _ _ Hk) as [Hin _].
  destruct (proj1 (List.Forall_forall _ _) Hkeys k Hin) as [seed Hsd].
  exists seed. split; [exact Hsd|]. destruct Hsd as [_ ->].
  apply (forge_private_pem _ Hforge).
Qed.

Lemma sealed_question_decrypts w userId questionId q k privateKey :
  sealed w ->
  key_row w userId = Some k ->
  privateKeyFromPem (decode64 (vottery_biometric_keys.encrypted_private_key k))
  = inr privateKey ->
  stored_question w userId questionId = Some q ->
  exists answer,
    rsa_oaep_decrypt privateKey (decode64 (vottery_security_questions.encrypted_answer q))
    = inr answer
    /\ vottery_security_questions.signature q = sha256_hex answer.
Proof.
  intros (_ & Hqs & _) Hk Hp Hst. unfold stored_question in Hst.
  apply find_some in Hst as [Hin Hq].
  apply andb_true_iff in Hq as [Hu _]. apply Z.eqb_eq in Hu.
  destruct (proj1 (List.Forall_forall _ _) Hqs q Hin)
    as (k' & seed & seed' & answer & c & Hrow & [_ Hpriv] & Hbytes & Henc & Hea & Hsig).
  rewrite Hu, Hk in Hrow. injection Hrow as <-.
  rewrite Hpriv, (forge_private_pem _ Hforge) in Hp. injection Hp as <-.
  exists answer. split; [|exact Hsig].
  rewrite Hea. apply (forge_rsa _ Hforge _ _ _ _ Hbytes Henc).
Qed.

Lemma sealed_loop w userId k privateKey questionIds l w' :
  sealed w ->
  key_row w userId = Some k ->
  privateKeyFromPem (decode64 (vottery_biometric_keys.encrypted_private_key k))
  = inr privateKey ->
  (forall a, In a l -> In (Answer.questionId a) questionIds) ->
  exists r,
    for_of l
      (verify_answer privateKey
         (filter (fun q => vottery_security_questions.user_id q = userId
                           /\ vottery_security_questions.id q ∈ questionIds)
                 (security_questions w))) w'
    = (r, w')
    /\ (r = inr tt \/ r = inl InvalidQuestionId \/ r = inl AnswerMismatch).
Proof.
  intros Hw Hk Hp. induction l as [|a l IH]; intros Hids.
  - exists (inr tt). split; [reflexivity|now left].
  - cbn [for_of]. unfold bind.
    rewrite (verify_answer_cases privateKey userId questionIds a w w')
      by (apply Hids; now left).
    destruct (stored_question w userId (Answer.questionId a)) as [q|] eqn:Hst.
    + destruct (sealed_question_decrypts _ _ _ _ _ _ Hw Hk Hp Hst) as (answer & -> & Hsig).
      destruct (bool_decide (JString answer = Answer.answer a)).
      * rewrite Hsig, bool_decide_eq_true_2 by reflexivity.
        apply IH. intros b Hb. apply Hids. now right.
      * eexists. split; [reflexivity|]. right. now right.
    + eexists. split; [reflexivity|]. right. now left.
Qed.

(** X29.  On the stores the controller builds from empty tables, where
    every key row was written by [registerKeys], each user was enrolled
    once and every question was written by [addSecurityQuestion] with an
    answer that is a binary-encoded string (no code unit above 255), and
    for a node-forge that decrypts such messages as it encrypted them,
    [verifySecurityAnswers] has four outcomes only: true, "User keys not
    found", "Invalid question ID" and "Answer mismatch".  "Signature
    mismatch" cannot occur, and no library error escapes.  An answer with
    a code unit above 255 is outside this statement: node-forge encrypts
    it and then fails to decrypt it. *)
Theorem enrolled_verify_outcomes w userId answers :
  enrolled w ->
  fst (verifySecurityAnswers userId answers w) = inr true
  \/ fst (verifySecurityAnswers userId answers w) = inl KeysNotFound
  \/ fst (verifySecurityAnswers userId answers w) = inl InvalidQuestionId
  \/ fst (verifySecurityAnswers userId answers w) = inl AnswerMismatch.
Proof.
  intros Hen. pose proof (enrolled_sealed _ Hen) as Hw.
  destruct (key_row w userId) as [k|] eqn:Hk.
  - destruct (sealed_key_parses _ _ _ Hw Hk) as (seed & _ & Hp).
    rewrite (verify_with_key _ _ _ _ _ Hk Hp). cbv zeta.
    destruct (sealed_loop w userId k _ (map Answer.questionId answers) answers
                (logged Select T_security_questions (logged Select T_biometric_keys w))
                Hw Hk Hp (questionId_in_map answers))
      as (r & -> & [-> | [-> | ->]]); cbn; auto.
  - right. left. unfold key_row in Hk.
    unfold verifySecurityAnswers, select_keys, bind, logq, throw. simpl.
    destruct (filter _ (biometric_keys w)); [reflexivity|discriminate].
Qed.

Lemma find_appended_question l userId questionId question e sg :
  Forall (fun q => vottery_security_questions.id q < questionId) l ->
  find (fun q => (vottery_security_questions.user_id q =? userId)
                 && (vottery_security_questions.id q =? questionId))
       (l ++ [vottery_security_questions.mk questionId userId question e sg])
  = Some (vottery_security_questions.mk questionId userId question e sg).
Proof.
  induction 1 as [|q0 l Hq0 _ IH]; simpl.
  - now rewrite !Z.eqb_refl.
  - destruct (Z.eqb_spec (vottery_security_questions.id q0) questionId); [lia|].
    rewrite andb_false_r. exact IH.
Qed.

(** X30.  On such a store a question that was just added with a
    binary-encoded answer is answered by its answer and by nothing else:
    verification with the id the question was given and the answer it
    was added with returns true, and with any other value it fails with
    "Answer mismatch". *)
Theorem enrolled_answer_accepted w seed userId question answer r w2 :
  enrolled w ->
  byte_string answer ->
  addSecurityQuestion seed userId question answer w = (inr r, w2) ->
  fst (verifySecurityAnswers userId
         [Answer.mk (next_question_id w) (JString answer)] w2) = inr true
  /\ (forall other,
        other <> JString answer ->
        fst (verifySecurityAnswers userId [Answer.mk (next_question_id w) other] w2)
        = inl AnswerMismatch).
Proof.
  intros Hen Hbytes Hrun. pose proof (enrolled_sealed _ Hen) as Hw.
  pose proof (sealed_step w w2 Hw) as Hw2.
  assert (Hstep : enrol_step w w2).
  { replace w2 with (snd (addSecurityQuestion seed userId question answer w))
      by now rewrite Hrun.
    constructor. exact Hbytes. }
  specialize (Hw2 Hstep).
  destruct (addSecurityQuestion_outcome seed userId question answer w)
    as [[Hk Heq]|[(k & e0 & Hk & Hne & Heq)|(k & pk & c & Hk & Hpub & Henc & Heq)]];
    rewrite Heq in Hrun; try discriminate.
  injection Hrun as <- <-.
  set (w2 := mkWorld _ _ _ _ _ _ _ _) in *.
  set (q := vottery_security_questions.mk (next_question_id w) userId question
              (encode64 c) (sha256_hex answer)).
  assert (Hk2 : key_row w2 userId = Some k) by exact Hk.
  destruct (sealed_key_parses _ _ _ Hw Hk) as (sd & [Hsd _] & Hp).
  assert (Hpk : pk = fst (generateKeyPair sd)).
  { rewrite Hsd, (forge_public_pem _ Hforge) in Hpub. congruence. }
  subst pk.
  assert (Hstored : stored_question w2 userId (next_question_id w) = Some q).
  { unfold stored_question, w2. cbn [security_questions].
    apply find_appended_question. apply Hw. }
  assert (Hdec : rsa_oaep_decrypt (snd (generateKeyPair sd))
                   (decode64 (vottery_security_questions.encrypted_answer q))
                 = inr answer).
  { unfold q. cbn [vottery_security_questions.encrypted_answer].
    apply (forge_rsa _ Hforge _ _ _ _ Hbytes Henc). }
  split.
  - apply (verify_all_pass _ _ _ k _ Hk2 Hp). constructor; [|constructor].
    exists q, answer. repeat split; assumption || reflexivity.
  - intros other Hother.
    apply (verify_mismatch userId w2 k _ [] (Answer.mk (next_question_id w) other) [] q answer
             Hk2 Hp (List.Forall_nil _) Hstored Hdec).
    simpl. congruence.
Qed.

End Sealed.

Lemma sample_forge_correct : forge_correct Sample.sample_forge.
Proof.
  split.
  - intros []. reflexivity.
  - intros []. reflexivity.
  - intros seed seed' message ciphertext _ H. cbn in *. congruence.
Qed.

Lemma sample_enrolled :
  enrolled (forge := Sample.sample_forge) (crypto := Sample.sample_crypto)
    Sample.enrolled_world
  /\ enrolled (forge := Sample.sample_forge) (crypto := Sample.sample_crypto)
       Sample.rex_world.
Proof.
  assert (H : enrolled (forge := Sample.sample_forge) (crypto := Sample.sample_crypto)
                Sample.enrolled_world).
  { apply enrolled_step with (w := Sample.empty_world).
    - apply enrolled_start; reflexivity.
    - apply (step_registerKeys (forge := Sample.sample_forge) (crypto := Sample.sample_crypto)).
      reflexivity. }
  split; [exact H|].
  apply enrolled_step with (w := Sample.enrolled_world); [exact H|].
  apply (step_addSecurityQuestion (forge := Sample.sample_forge) (crypto := Sample.sample_crypto)).
  unfold byte_string. repeat constructor; lia.
Qed.

Lemma enrolled_verify_outcomes_witness :
  fst (verifySecurityAnswers (forge := Sample.sample_forge) (crypto := Sample.sample_crypto)
         42 [Sample.rex_answer] Sample.rex_world) = inr true
  \/ fst (verifySecurityAnswers (forge := Sample.sample_forge)
            (crypto := Sample.sample_crypto) 42 [Sample.rex_answer] Sample.rex_world)
     = inl KeysNotFound
  \/ fst (verifySecurityAnswers (forge := Sample.sample_forge)
            (crypto := Sample.sample_crypto) 42 [Sample.rex_answer] Sample.rex_world)
     = inl InvalidQuestionId
  \/ fst (verifySecurityAnswers (forge := Sample.sample_forge)
            (crypto := Sample.sample_crypto) 42 [Sample.rex_answer] Sample.rex_world)
     = inl AnswerMismatch.
Proof.
  apply (enrolled_verify_outcomes (forge := Sample.sample_forge)
           (crypto := Sample.sample_crypto) sample_forge_correct).
  apply sample_enrolled.
Defined.

Lemma enrolled_answer_accepted_witness :
  fst (verifySecurityAnswers (forge := Sample.sample_forge) (crypto := Sample.sample_crypto)
         42 [Answer.mk (next_question_id Sample.enrolled_world) (JString (js "Rex"))]
         Sample.rex_world) = inr true
  /\ (forall other,
        other <> JString (js "Rex") ->
        fst (verifySecurityAnswers (forge := Sample.sample_forge)
               (crypto := Sample.sample_crypto) 42
               [Answer.mk (next_question_id Sample.enrolled_world) other] Sample.rex_world)
        = inl AnswerMismatch).
Proof.
  eapply (enrolled_answer_accepted (forge := Sample.sample_forge)
            (crypto := Sample.sample_crypto) sample_forge_correct
            Sample.enrolled_world [] 42 (js "pet name?") (js "Rex") _ Sample.rex_world).
  - apply sample_enrolled.
  - unfold byte_string. repeat constructor; lia.
  - vm_compute. reflexivity.
Defined.
